(** * Vote submission pipeline of the mobile voting client

    A shallow embedding of
      - [src/services/vote-submission.service.ts] (class [VoteSubmissionService]),
      - [src/lib/blockchain/real-blockchain-service.ts] (class [RealBlockchainService]),
      - the two places of the application that call them (the [useVoting]
        hook and the transactions screen),
    and the properties of the submission pipeline checked against them.

    The TypeScript code is asynchronous and talks to a clock, a random source,
    an HTTP backend and an Ethereum node.  A method is embedded as a program
    tree [prog]: its leaves are [Ret]/[Throw], its inner nodes read or write
    the object's fields ([Get]/[Put]) or [Call] the outside world.  Every
    [Call] is an [await] point (or a read of the clock or of the random
    source); the answer is chosen by an environment [handler], about which the
    theorems assume nothing unless they say so. *)

From Stdlib Require Import ZArith String Ascii List Lia Bool.
From stdpp Require Import base option list gmap strings pretty.

Local Open Scope string_scope.
Local Open Scope Z_scope.

(** ** JavaScript values the code inspects *)

(** A string of the code is modelled by the sequence of its UTF-16 code
    units, each one a character of the Rocq string: the strings of the model
    are those whose code units are all below 256. *)

(** What a [throw] carries.  The code only ever asks
    [error instanceof Error ? error.message : fallback]. *)
Inductive thrown : Type :=
| JsError (message : string)
| NonError.

Definition error_message (fallback : string) (t : thrown) : string :=
  match t with
  | JsError m => m
  | NonError => fallback
  end.

(** Truthiness of a string that may be [undefined]: [undefined] and [''] are
    falsy. *)
Definition truthy (v : option string) : bool :=
  match v with
  | Some s => negb (String.eqb s "")
  | None => false
  end.

(** [v || fallback] on such a value. *)
Definition or_else (v : option string) (fallback : string) : string :=
  match v with
  | Some s => if String.eqb s "" then fallback else s
  | None => fallback
  end.

(** The string itself when it is truthy: [if (v) { ... v ... }]. *)
Definition as_truthy (v : option string) : option string :=
  match v with
  | Some s => if String.eqb s "" then None else Some s
  | None => None
  end.

(** [`${v}`] inside a template literal. *)
Definition template (v : option string) : string :=
  match v with
  | Some s => s
  | None => "undefined"
  end.

(** [n || 0] on a number that may be [undefined]. *)
Definition or_zero (v : option Z) : Z :=
  match v with
  | Some n => n
  | None => 0
  end.

(** [Number.prototype.toString(36)] on an integer: the exact numeral, which
    is what every engine prints for an integer below [2 ^ 53] in magnitude
    (every time value is one: a [Date] lies within 8.64e15 milliseconds of
    the epoch).  From [2 ^ 53] on a number is no longer every integer and an
    engine prints an approximation of its own; what is proved from the
    digits of the numeral is stated for integers below [2 ^ 53]. *)
Definition digit36 (d : N) : ascii :=
  if (d <? 10)%N then ascii_of_N (48 + d) else ascii_of_N (87 + d).

Fixpoint digits36 (fuel : nat) (n : N) (acc : string) : string :=
  match fuel with
  | O => acc
  | S fuel' =>
      let acc' := String (digit36 (n mod 36)) acc in
      if (n / 36 =? 0)%N then acc' else digits36 fuel' (n / 36)%N acc'
  end.

Definition toString36 (z : Z) : string :=
  let n := Z.to_N (Z.abs z) in
  let body := digits36 (S (N.to_nat (N.size n))) n "" in
  if (z <? 0)%Z then "-" ++ body else body.

(** The fuel [toString36] gives [digits36] is enough: more fuel does not
    change the digits. *)
Lemma digits36_fuel (fuel extra : nat) (n : N) (acc : string) :
  (n < 36 ^ N.of_nat (S fuel))%N ->
  digits36 (S fuel + extra) n acc = digits36 (S fuel) n acc.
Proof.
  revert n acc. induction fuel as [|fuel IH]; intros n acc Hn.
  - cbn [digits36 Nat.add]. rewrite (N.div_small n 36) by (cbn in Hn; lia). done.
  - cbn [digits36 Nat.add]. destruct (n / 36 =? 0)%N; [done|].
    apply (IH (n / 36)%N).
    apply N.Div0.div_lt_upper_bound.
    rewrite Nat2N.inj_succ, N.pow_succ_r' in Hn. lia.
Qed.

Lemma toString36_fuel (n : N) (extra : nat) (acc : string) :
  digits36 (S (N.to_nat (N.size n)) + extra) n acc
  = digits36 (S (N.to_nat (N.size n))) n acc.
Proof.
  apply digits36_fuel.
  rewrite Nat2N.inj_succ, N2Nat.id, N.pow_succ_r'.
  pose proof (N.size_gt n) as Hsize.
  assert (2 ^ N.size n <= 36 ^ N.size n)%N by (apply N.pow_le_mono_l; lia).
  assert (0 < 36 ^ N.size n)%N by (apply N.neq_0_lt_0, N.pow_nonzero; lia).
  lia.
Qed.

(** ** Program trees *)

Section Programs.
Context {E : Type -> Type} {St : Type}.

Inductive prog (R : Type) : Type :=
| Ret (r : R)
| Throw (t : thrown)
| Get (k : St -> prog R)
| Put (s : St) (k : prog R)
| Call {X : Type} (e : E X) (k : X -> prog R).

Arguments Ret {R} r.
Arguments Throw {R} t.
Arguments Get {R} k.
Arguments Put {R} s k.
Arguments Call {R X} e k.

Fixpoint bind {A B : Type} (f : A -> prog B) (p : prog A) : prog B :=
  match p with
  | Ret a => f a
  | Throw t => Throw t
  | Get k => Get (fun s => bind f (k s))
  | Put s k => Put s (bind f k)
  | Call e k => Call e (fun x => bind f (k x))
  end.

(** [try { p } catch (error) { h error }] *)
Fixpoint try_catch {A : Type} (p : prog A) (h : thrown -> prog A) : prog A :=
  match p with
  | Ret a => Ret a
  | Throw t => h t
  | Get k => Get (fun s => try_catch (k s) h)
  | Put s k => Put s (try_catch k h)
  | Call e k => Call e (fun x => try_catch (k x) h)
  end.

Definition get : prog St := Get Ret.
Definition modify (f : St -> St) : prog unit := Get (fun s => Put (f s) (Ret tt)).
Definition call {X : Type} (e : E X) : prog X := Call e Ret.

(** [await] of a promise that may reject. *)
Definition await {X : Type} (e : E (thrown + X)) : prog X :=
  Call e (fun r => match r with inl t => Throw t | inr x => Ret x end).

(** One observed call, with the answer the environment gave. *)
Inductive obs : Type :=
| Obs {X : Type} (e : E X) (x : X).

(** The environment: it answers every call, and may remember what it was
    asked in its own state [W]. *)
Definition handler (W : Type) : Type := forall X : Type, E X -> W -> X * W.

Record result (W R : Type) : Type := mkResult {
  outcome : thrown + R;
  final : St;
  world : W;
  trace : list obs
}.
Arguments mkResult {W R}.
Arguments outcome {W R}.
Arguments final {W R}.
Arguments world {W R}.
Arguments trace {W R}.

Definition logged {W R : Type} (o : obs) (r : result W R) : result W R :=
  mkResult (outcome r) (final r) (world r) (o :: trace r).

(** Running a program to its end against an environment. *)
Fixpoint run {W R : Type} (h : handler W) (p : prog R) (s : St) (w : W)
  : result W R :=
  match p with
  | Ret r => mkResult (inr r) s w []
  | Throw t => mkResult (inl t) s w []
  | Get k => run h (k s) s w
  | Put s' k => run h k s' w
  | Call e k =>
      let a := h _ e w in
      logged (Obs e a.1) (run h (k a.1) s a.2)
  end.

(** Running a program up to its next call of the outside world: the state
    it has reached and what it waits for. *)
Inductive paused (R : Type) : Type :=
| Finished (o : thrown + R)
| Awaiting {X : Type} (e : E X) (k : X -> prog R).
Arguments Finished {R} o.
Arguments Awaiting {R X} e k.

Fixpoint advance {R : Type} (p : prog R) (s : St) : paused R * St :=
  match p with
  | Ret r => (Finished (inr r), s)
  | Throw t => (Finished (inl t), s)
  | Get k => advance (k s) s
  | Put s' k => advance k s'
  | Call e k => (Awaiting e k, s)
  end.

(** The result of a continuation, behind the trace of what ran first. *)
Definition prefixed {W R : Type} (t : list obs) (r : result W R) : result W R :=
  mkResult (outcome r) (final r) (world r) (t ++ trace r).

(** The program a paused task still has to run. *)
Definition rest {R : Type} (p : paused R) : prog R :=
  match p with
  | Finished (inr r) => Ret r
  | Finished (inl t) => Throw t
  | Awaiting e k => Call e k
  end.

(** Running a task until [n] of its calls have been answered and it waits
    for the answer to the next one (or has finished earlier). *)
Fixpoint run_until {W R : Type} (n : nat) (h : handler W) (p : prog R) (s : St) (w : W)
  : paused R * St * W :=
  match advance p s with
  | (Awaiting e k, s') =>
      match n with
      | O => (Awaiting e k, s', w)
      | S n' => let a := h _ e w in run_until n' h (k a.1) s' a.2
      end
  | (Finished o, s') => (Finished o, s', w)
  end.

Definition then_run {W A B : Type} (h : handler W) (f : A -> prog B)
    (r : result W A) : result W B :=
  match outcome r with
  | inl t => mkResult (inl t) (final r) (world r) (trace r)
  | inr a => prefixed (trace r) (run h (f a) (final r) (world r))
  end.

Definition else_run {W A : Type} (h : handler W) (c : thrown -> prog A)
    (r : result W A) : result W A :=
  match outcome r with
  | inr a => r
  | inl t => prefixed (trace r) (run h (c t) (final r) (world r))
  end.

Lemma run_bind {W A B : Type} (h : handler W) (f : A -> prog B) (p : prog A) s w :
  run h (bind f p) s w = then_run h f (run h p s w).
Proof.
  revert s w. induction p as [a|t|k IH|s' k IH|X e k IH]; intros s w; simpl.
  - unfold then_run; simpl. by destruct (run h (f a) s w).
  - reflexivity.
  - apply IH.
  - apply IH.
  - rewrite IH. unfold then_run, logged, prefixed; simpl.
    by destruct (outcome (run h (k (h X e w).1) s (h X e w).2)).
Qed.

Lemma run_try_catch {W A : Type} (h : handler W) (p : prog A) c s w :
  run h (try_catch p c) s w = else_run h c (run h p s w).
Proof.
  revert s w. induction p as [a|t|k IH|s' k IH|X e k IH]; intros s w; simpl.
  - reflexivity.
  - unfold else_run; simpl. by destruct (run h (c t) s w).
  - apply IH.
  - apply IH.
  - rewrite IH. unfold else_run, logged, prefixed; simpl.
    by destruct (run h (k (h X e w).1) s (h X e w).2) as [[?|?] ? ? ?].
Qed.

End Programs.

Arguments prog : clear implicits.
Arguments obs : clear implicits.
Arguments handler : clear implicits.
Arguments result : clear implicits.
Arguments paused : clear implicits.
Arguments Ret {E St R} r.
Arguments Throw {E St R} t.
Arguments Get {E St R} k.
Arguments Put {E St R} s k.
Arguments Call {E St R X} e k.
Arguments Obs {E X} e x.
Arguments mkResult {E St W R}.
Arguments outcome {E St W R} r.
Arguments final {E St W R} r.
Arguments world {E St W R} r.
Arguments trace {E St W R} r.
Arguments logged {E St W R} o r.
Arguments prefixed {E St W R} t r.
Arguments Finished {E St R} o.
Arguments Awaiting {E St R X} e k.
Arguments rest {E St R} p.

#[global] Instance prog_ret {E St} : MRet (prog E St) := fun _ r => Ret r.
#[global] Instance prog_bind {E St} : MBind (prog E St) := fun _ _ f p => bind f p.

(** ** Data of [vote-submission.service.ts]

    Record fields carry a prefix ([rq_], [rs_], [st_], [bq_], [br_]) because
    the interfaces share field names ([success], [error], [transactionHash],
    ...); after the prefix the name is the source's. *)

(** [VoteSubmissionRequest].  [verificationCode], [biometricHash] and
    [deviceId] are declared but the voting hook does not pass them;
    [voterAddress] and [token] are not declared but the service reads them.
    All five may therefore be [undefined].  [position] and [metadata] are never
    read and are left out. *)
Record VoteSubmissionRequest : Type := {
  rq_electionId : string;
  rq_candidateId : string;
  rq_voterId : string;
  rq_verificationCode : option string;
  rq_biometricHash : option string;
  rq_deviceId : option string;
  rq_timestamp : Z;
  rq_voterAddress : option string;
  rq_token : option string
}.

Record VoteSubmissionResponse : Type := {
  rs_success : bool;
  rs_voteId : option string;
  rs_transactionHash : option string;
  rs_blockNumber : option Z;
  rs_confirmationId : option string;
  rs_message : option string;
  rs_error : option string;
  rs_retryAfter : option Z
}.

Inductive status : Type := pending | processing | confirmed | failed | rejected.

#[global] Instance status_eq_dec : EqDecision status.
Proof. solve_decision. Defined.

Record VoteSubmissionStatus : Type := {
  st_voteId : string;
  st_status : status;
  st_transactionHash : option string;
  st_blockNumber : option Z;
  st_confirmationCount : option Z;
  st_error : option string;
  st_submittedAt : Z;
  st_confirmedAt : option Z
}.

(** One key of the [updates?: Partial<VoteSubmissionStatus>] argument of
    [updateStatus], for the keys its callers pass. *)
Inductive field_update : Type :=
| transactionHash_is (v : option string)
| blockNumber_is (v : option Z)
| confirmationCount_is (v : option Z)
| error_is (v : option string)
| confirmedAt_is (v : option Z).

(** [BlockchainVoteRequest] and [BlockchainVoteResponse] of
    [real-blockchain-service.ts]. *)
Record BlockchainVoteRequest : Type := {
  bq_electionId : string;
  bq_candidateId : string;
  bq_voterAddress : string;
  bq_contractAddress : string
}.

Record BlockchainVoteResponse : Type := {
  br_success : bool;
  br_transactionHash : option string;
  br_blockNumber : option Z;
  br_gasUsed : option string;
  br_error : option string
}.

Record WalletInfo : Type := {
  address : string;
  privateKey : string;
  balance : string
}.

(** What [fetch] resolves to, as far as the service looks at it: [ok],
    [statusText], and the body [json()] resolves to (or the value it rejects
    with), of which the keys [contract_address] and [encrypted_private_key]
    are read. *)
Record json_body : Type := {
  contract_address : option string;
  encrypted_private_key : option string
}.

Record Response : Type := {
  ok : bool;
  statusText : string;
  json : thrown + json_body
}.

(** A value of [Math.random()], as far as the service looks at it. *)
Record random_draw : Type := {
  (** [Math.random().toString(36).substring(2, 8)] *)
  base36_digits : string;
  (** [Math.random() > 0.02] *)
  above_2_percent : bool
}.

(** The outside world of the submission service.  [Fetch path token] is
    [fetch(`${apiConfig.baseUrl}${path}`, { method: 'GET', headers: {...,
    'Authorization': `Bearer ${token}` } })]; [apiConfig] is configuration
    outside this repository part.  The last five calls are the methods of the
    [realBlockchainService] singleton. *)
Inductive ev : Type -> Type :=
| DateNow : ev Z
| MathRandom : ev random_draw
| Sleep (ms : Z) : ev unit
| Fetch (path : string) (token : option string) : ev (thrown + Response)
| ConnectWallet (key : string) : ev (thrown + WalletInfo)
| HasVoterVoted (contractAddress voterAddress : string) : ev (thrown + bool)
| IsVoterRegistered (contractAddress voterAddress : string) : ev (thrown + bool)
| RegisterVoter (contractAddress : string) : ev (thrown + BlockchainVoteResponse)
| CastVote (request : BlockchainVoteRequest) : ev (thrown + BlockchainVoteResponse).

(** A timer armed by [setTimeout(() => { this.retrySubmission(submissionId) },
    delay)]. *)
Record timer : Type := {
  retries : string;
  delay : Z
}.

(** The private fields of the [VoteSubmissionService] singleton that change,
    together with the timers it has armed and that have not fired yet. *)
Record service : Type := {
  submissionQueue : gmap string VoteSubmissionRequest;
  statusCache : gmap string VoteSubmissionStatus;
  retryAttempts : gmap string Z;
  timers : list timer
}.

Definition maxRetries : Z := 3.
Definition retryDelay : Z := 5000.

Definition new_service : service :=
  {| submissionQueue := ∅; statusCache := ∅; retryAttempts := ∅; timers := [] |}.

Definition with_submissionQueue (f : gmap string VoteSubmissionRequest -> gmap string VoteSubmissionRequest)
    (s : service) : service :=
  {| submissionQueue := f (submissionQueue s); statusCache := statusCache s;
     retryAttempts := retryAttempts s; timers := timers s |}.

Definition with_statusCache (f : gmap string VoteSubmissionStatus -> gmap string VoteSubmissionStatus)
    (s : service) : service :=
  {| submissionQueue := submissionQueue s; statusCache := f (statusCache s);
     retryAttempts := retryAttempts s; timers := timers s |}.

Definition with_retryAttempts (f : gmap string Z -> gmap string Z) (s : service) : service :=
  {| submissionQueue := submissionQueue s; statusCache := statusCache s;
     retryAttempts := f (retryAttempts s); timers := timers s |}.

Definition with_timers (f : list timer -> list timer) (s : service) : service :=
  {| submissionQueue := submissionQueue s; statusCache := statusCache s;
     retryAttempts := retryAttempts s; timers := f (timers s) |}.

Definition setTimeout (t : timer) : service -> service :=
  with_timers (fun ts => (ts ++ [t])%list).

Abbreviation task := (prog ev service).

(** ** Methods of [VoteSubmissionService] *)

Definition apply_update (cur : VoteSubmissionStatus) (u : field_update) : VoteSubmissionStatus :=
  match u with
  | transactionHash_is v =>
      {| st_voteId := st_voteId cur; st_status := st_status cur;
         st_transactionHash := v; st_blockNumber := st_blockNumber cur;
         st_confirmationCount := st_confirmationCount cur; st_error := st_error cur;
         st_submittedAt := st_submittedAt cur; st_confirmedAt := st_confirmedAt cur |}
  | blockNumber_is v =>
      {| st_voteId := st_voteId cur; st_status := st_status cur;
         st_transactionHash := st_transactionHash cur; st_blockNumber := v;
         st_confirmationCount := st_confirmationCount cur; st_error := st_error cur;
         st_submittedAt := st_submittedAt cur; st_confirmedAt := st_confirmedAt cur |}
  | confirmationCount_is v =>
      {| st_voteId := st_voteId cur; st_status := st_status cur;
         st_transactionHash := st_transactionHash cur; st_blockNumber := st_blockNumber cur;
         st_confirmationCount := v; st_error := st_error cur;
         st_submittedAt := st_submittedAt cur; st_confirmedAt := st_confirmedAt cur |}
  | error_is v =>
      {| st_voteId := st_voteId cur; st_status := st_status cur;
         st_transactionHash := st_transactionHash cur; st_blockNumber := st_blockNumber cur;
         st_confirmationCount := st_confirmationCount cur; st_error := v;
         st_submittedAt := st_submittedAt cur; st_confirmedAt := st_confirmedAt cur |}
  | confirmedAt_is v =>
      {| st_voteId := st_voteId cur; st_status := st_status cur;
         st_transactionHash := st_transactionHash cur; st_blockNumber := st_blockNumber cur;
         st_confirmationCount := st_confirmationCount cur; st_error := st_error cur;
         st_submittedAt := st_submittedAt cur; st_confirmedAt := v |}
  end.

Definition with_status (new : status) (cur : VoteSubmissionStatus) : VoteSubmissionStatus :=
  {| st_voteId := st_voteId cur; st_status := new;
     st_transactionHash := st_transactionHash cur; st_blockNumber := st_blockNumber cur;
     st_confirmationCount := st_confirmationCount cur; st_error := st_error cur;
     st_submittedAt := st_submittedAt cur; st_confirmedAt := st_confirmedAt cur |}.

(** [{ ...currentStatus, status, ...updates }], written only when the cache
    has an entry for [voteId]. *)
Definition updateStatus (voteId : string) (new : status) (updates : list field_update)
    (s : service) : service :=
  match statusCache s !! voteId with
  | Some currentStatus =>
      with_statusCache
        (insert voteId (fold_left apply_update updates (with_status new currentStatus))) s
  | None => s
  end.

Definition getSubmissionStatus (voteId : string) (s : service) : option VoteSubmissionStatus :=
  statusCache s !! voteId.

Definition cancelSubmission (voteId : string) (s : service) : bool * service :=
  match submissionQueue s !! voteId with
  | Some _ =>
      (true,
       updateStatus voteId rejected []
         (with_retryAttempts (delete voteId) (with_submissionQueue (delete voteId) s)))
  | None => (false, s)
  end.

(** [`vote_${timestamp}_${random}`], given the value [Math.random()] returned. *)
Definition submission_id (request : VoteSubmissionRequest) (random : random_draw) : string :=
  "vote_" ++ toString36 (rq_timestamp request) ++ "_" ++ base36_digits random.

Definition generateSubmissionId (request : VoteSubmissionRequest) : task string :=
  random ← call MathRandom;
  mret (submission_id request random).

(** The mock of the backend's vote history: a 100 ms pause, then [false]. *)
Definition checkExistingVote (electionId voterId : string) : task bool :=
  call (Sleep 100);; mret false.

Record validation : Type := {
  valid : bool;
  message : option string
}.

Definition invalid (msg : string) : validation := {| valid := false; message := Some msg |}.

(** The body a [json()] call resolves to, or the rejection. *)
Definition settle {X : Type} (r : thrown + X) : task X :=
  match r with
  | inl t => Throw t
  | inr x => Ret x
  end.

Definition maxAge : Z := 5 * 60 * 1000.

(** The inner [try] of [validateSubmission]: [Some v] when its body executes
    [return v], [None] when control falls out of the block.  (The dynamic
    [import] of the blockchain module is not a call to the outside world and
    is left out, here and in [submitToBlockchain].) *)
Definition blockchain_precheck (request : VoteSubmissionRequest) (voterAddress : string)
    : task (option validation) :=
  try_catch
    (electionResponse ← await (Fetch ("/elections/" ++ rq_electionId request) (rq_token request));
     if ok electionResponse then
       electionData ← settle (json electionResponse);
       match as_truthy (contract_address electionData) with
       | Some contractAddress =>
           hasVotedOnBlockchain ← await (HasVoterVoted contractAddress voterAddress);
           if (hasVotedOnBlockchain : bool)
           then mret (Some (invalid "You have already voted in this election on the blockchain"))
           else mret None
       | None => mret None
       end
     else mret None)
    (fun _ => mret None).

Definition validateSubmission (request : VoteSubmissionRequest) : task validation :=
  if negb (truthy (Some (rq_electionId request)))
     || negb (truthy (Some (rq_candidateId request)))
     || negb (truthy (Some (rq_voterId request)))
  then mret (invalid "Missing required fields")
  else if match as_truthy (rq_verificationCode request) with
          | Some verificationCode => negb (Nat.eqb (String.length verificationCode) 6)
          | None => true
          end
  then mret (invalid "Invalid verification code")
  else if negb (truthy (rq_biometricHash request)) || negb (truthy (rq_deviceId request))
  then mret (invalid "Missing security credentials")
  else
    now ← call DateNow;
    if (now - rq_timestamp request >? maxAge)%Z
    then mret (invalid "Submission expired")
    else
      hasVoted ← checkExistingVote (rq_electionId request) (rq_voterId request);
      if (hasVoted : bool)
      then mret (invalid "User has already voted in this election")
      else
        early ←
          match as_truthy (rq_voterAddress request) with
          | Some voterAddress =>
              if truthy (Some (rq_electionId request))
              then blockchain_precheck request voterAddress
              else mret None
          | None => mret None
          end;
        match early with
        | Some v => mret v
        | None => mret {| valid := true; message := None |}
        end.

Definition failure (msg : string) : VoteSubmissionResponse :=
  {| rs_success := false; rs_voteId := None; rs_transactionHash := None;
     rs_blockNumber := None; rs_confirmationId := None; rs_message := None;
     rs_error := Some msg; rs_retryAfter := None |}.

Definition submitToBlockchain (request : VoteSubmissionRequest) : task VoteSubmissionResponse :=
  try_catch
    (electionResponse ← await (Fetch ("/elections/" ++ rq_electionId request) (rq_token request));
     if negb (ok electionResponse)
     then Throw (JsError ("Failed to get election details: " ++ statusText electionResponse))
     else
       electionData ← settle (json electionResponse);
       match as_truthy (contract_address electionData) with
       | None => Throw (JsError "Election contract address not found")
       | Some contractAddress =>
           userResponse ← await (Fetch "/users/profile" (rq_token request));
           if negb (ok userResponse)
           then Throw (JsError ("Failed to get user profile: " ++ statusText userResponse))
           else
             userData ← settle (json userResponse);
             match as_truthy (encrypted_private_key userData) with
             | None => Throw (JsError "User wallet not found. Please contact administrator.")
             | Some key =>
                 walletInfo ← await (ConnectWallet key);
                 hasVotedOnBlockchain ← await (HasVoterVoted contractAddress (address walletInfo));
                 if (hasVotedOnBlockchain : bool)
                 then Throw (JsError "You have already voted in this election on the blockchain")
                 else
                   isRegistered ← await (IsVoterRegistered contractAddress (address walletInfo));
                   (if (isRegistered : bool)
                    then mret tt
                    else
                      registrationResult ← await (RegisterVoter contractAddress);
                      if negb (br_success registrationResult)
                      then Throw (JsError ("Voter registration failed: "
                                           ++ template (br_error registrationResult)))
                      else mret tt);;
                   voteResult ← await (CastVote
                     {| bq_electionId := rq_electionId request;
                        bq_candidateId := rq_candidateId request;
                        bq_voterAddress := address walletInfo;
                        bq_contractAddress := contractAddress |});
                   if negb (br_success voteResult)
                   then Throw (JsError ("Vote casting failed: " ++ template (br_error voteResult)))
                   else
                     mret {| rs_success := true; rs_voteId := None;
                             rs_transactionHash := br_transactionHash voteResult;
                             rs_blockNumber := br_blockNumber voteResult;
                             rs_confirmationId := None;
                             rs_message := Some "Real blockchain submission successful";
                             rs_error := None; rs_retryAfter := None |}
             end
       end)
    (fun error => mret (failure (error_message "Real blockchain submission failed" error))).

(** The mock of the backend call: a one-second pause, an id made of the clock
    and the candidate, and a random outcome.  [transactionHash] is not used. *)
Definition submitToBackend (request : VoteSubmissionRequest) (transactionHash : option string)
    : task VoteSubmissionResponse :=
  try_catch
    (call (Sleep 1000);;
     now ← call DateNow;
     let confirmationId := "confirm_" ++ pretty (now : Z) ++ "_" ++ rq_candidateId request in
     random ← call MathRandom;
     if above_2_percent random
     then mret {| rs_success := true; rs_voteId := None; rs_transactionHash := None;
                  rs_blockNumber := None; rs_confirmationId := Some confirmationId;
                  rs_message := Some "Backend submission successful";
                  rs_error := None; rs_retryAfter := None |}
     else Throw (JsError "Backend service unavailable"))
    (fun error => mret (failure (error_message "Backend submission failed" error))).

Definition initial_status (submissionId : string) (now : Z) : VoteSubmissionStatus :=
  {| st_voteId := submissionId; st_status := pending; st_transactionHash := None;
     st_blockNumber := None; st_confirmationCount := None; st_error := None;
     st_submittedAt := now; st_confirmedAt := None |}.

(** The [try] block of [submitVote]. *)
Definition attempt (submissionId : string) (request : VoteSubmissionRequest)
    : task VoteSubmissionResponse :=
  modify (with_submissionQueue (insert submissionId request));;
  now ← call DateNow;
  modify (with_statusCache (insert submissionId (initial_status submissionId now)));;
  validation ← validateSubmission request;
  if negb (valid validation)
  then Throw (JsError (or_else (message validation) "Invalid vote submission"))
  else
    modify (updateStatus submissionId processing []);;
    blockchainResult ← submitToBlockchain request;
    if negb (rs_success blockchainResult)
    then Throw (JsError (or_else (rs_error blockchainResult) "Blockchain submission failed"))
    else
      backendResult ← submitToBackend request (rs_transactionHash blockchainResult);
      if negb (rs_success backendResult)
      then Throw (JsError (or_else (rs_error backendResult) "Backend submission failed"))
      else
        confirmedAt ← call DateNow;
        modify (updateStatus submissionId confirmed
                  [transactionHash_is (rs_transactionHash blockchainResult);
                   blockNumber_is (rs_blockNumber blockchainResult);
                   confirmationCount_is (Some 1);
                   confirmedAt_is (Some confirmedAt)]);;
        modify (with_submissionQueue (delete submissionId));;
        modify (with_retryAttempts (delete submissionId));;
        mret {| rs_success := true; rs_voteId := Some submissionId;
                rs_transactionHash := rs_transactionHash blockchainResult;
                rs_blockNumber := rs_blockNumber blockchainResult;
                rs_confirmationId := rs_confirmationId backendResult;
                rs_message := Some "Vote submitted successfully";
                rs_error := None; rs_retryAfter := None |}.

(** The [catch] block of [submitVote]. *)
Definition recover (submissionId : string) (error : thrown) : task VoteSubmissionResponse :=
  let errorMessage := error_message "Vote submission failed" error in
  modify (updateStatus submissionId failed [error_is (Some errorMessage)]);;
  s ← get;
  let retryCount := or_zero (retryAttempts s !! submissionId) in
  if (retryCount <? maxRetries)%Z
  then
    modify (with_retryAttempts (insert submissionId (retryCount + 1)%Z));;
    modify (setTimeout {| retries := submissionId; delay := (retryDelay * (retryCount + 1))%Z |});;
    mret {| rs_success := false; rs_voteId := None; rs_transactionHash := None;
            rs_blockNumber := None; rs_confirmationId := None; rs_message := None;
            rs_error := Some errorMessage;
            rs_retryAfter := Some (retryDelay * (retryCount + 1))%Z |}
  else
    modify (with_submissionQueue (delete submissionId));;
    modify (with_retryAttempts (delete submissionId));;
    mret (failure errorMessage).

Definition submitVote (request : VoteSubmissionRequest) : task VoteSubmissionResponse :=
  submissionId ← generateSubmissionId request;
  try_catch (attempt submissionId request) (recover submissionId).

Definition retrySubmission (submissionId : string) : task unit :=
  s ← get;
  match submissionQueue s !! submissionId with
  | None => mret tt
  | Some request =>
      try_catch (submitVote request;; mret tt) (fun _ => mret tt)
  end.

(** The [n]-th armed timer fires: it leaves the list and its callback runs. *)
Definition timer_fires (n : nat) : task unit :=
  s ← get;
  match timers s !! n with
  | None => mret tt
  | Some t => modify (with_timers (delete n));; retrySubmission (retries t)
  end.

Arguments validateSubmission : simpl never.
Arguments submitToBlockchain : simpl never.
Arguments submitToBackend : simpl never.
Arguments attempt : simpl never.
Arguments recover : simpl never.
Arguments submitVote : simpl never.
Arguments retrySubmission : simpl never.

(** ** [RealBlockchainService] *)

(** The numbers [parseInt] returns: [NaN], an integer that a double holds
    (zero has a sign), or an infinity. *)
Inductive number : Type :=
| NaN
| Finite (negative : bool) (magnitude : N)
| Infinity (negative : bool).

Definition isNaN (n : number) : bool :=
  match n with
  | NaN => true
  | _ => false
  end.

(** The number for the integer [z], when a double holds it. *)
Definition integer (z : Z) : number := Finite (z <? 0) (Z.abs_N z).

(** The double nearest to the integer [m]: its 53 leading bits, rounded on
    the bits that are dropped, a tie going to the even significand; [None]
    when that is beyond the largest double, and the number is an infinity. *)
Definition nearest_double (m : N) : option N :=
  let dropped := (N.size m - 53)%N in
  let significand := N.shiftr m dropped in
  let remainder := N.land m (N.ones dropped) in
  let half := N.shiftl 1 (dropped - 1) in
  let up := (negb (dropped =? 0)
             && ((half <? remainder) || (remainder =? half) && N.odd significand))%N in
  let rounded := N.shiftl (if up then significand + 1 else significand)%N dropped in
  if (N.size rounded <=? 1024)%N then Some rounded else None.

(** [parseInt(s)] without a radix: leading white space is skipped, a sign is
    read, a [0x]/[0X] prefix selects base 16, the longest run of digits is
    taken, and its value is rounded to a double.  (For a decimal numeral of
    more than twenty significant digits the language lets an engine put
    zeros for the digits after the twentieth; here the value of all the
    digits is rounded, as V8 does.)  The white space among the code units
    below 256 is TAB, LF, VT, FF, CR, SP and NBSP. *)
Definition is_space (c : ascii) : bool :=
  let n := N_of_ascii c in
  ((9 <=? n) && (n <=? 13) || (n =? 32) || (n =? 160))%N.

Fixpoint skip_spaces (s : string) : string :=
  match s with
  | String c s' => if is_space c then skip_spaces s' else s
  | EmptyString => s
  end.

Definition digit_value (radix : N) (c : ascii) : option N :=
  let n := N_of_ascii c in
  let v := if ((48 <=? n) && (n <=? 57))%N then Some (n - 48)%N
           else if ((97 <=? n) && (n <=? 122))%N then Some (n - 87)%N
           else if ((65 <=? n) && (n <=? 90))%N then Some (n - 55)%N
           else None in
  match v with
  | Some d => if (d <? radix)%N then Some d else None
  | None => None
  end.

(** The value of the longest run of digits at the head of [s], given the
    value [acc] of the digits already read ([None]: none read yet). *)
Fixpoint leading_digits (radix : N) (s : string) (acc : option N) : option N :=
  match s with
  | String c s' =>
      match digit_value radix c with
      | Some d => leading_digits radix s' (Some (default 0%N acc * radix + d)%N)
      | None => acc
      end
  | EmptyString => acc
  end.

Definition unsigned_int (s : string) : option N :=
  match s with
  | String "0" (String x s') =>
      if Ascii.eqb x "x" || Ascii.eqb x "X"
      then leading_digits 16 s' None
      else leading_digits 10 s None
  | _ => leading_digits 10 s None
  end.

(** The number for the digits read ([None]: there were none) behind a sign. *)
Definition signed (negative : bool) (digits : option N) : number :=
  match digits with
  | None => NaN
  | Some mathInt =>
      match nearest_double mathInt with
      | Some magnitude => Finite negative magnitude
      | None => Infinity negative
      end
  end.

Definition parseInt (s : string) : number :=
  match skip_spaces s with
  | String "-" s' => signed true (unsigned_int s')
  | String "+" s' => signed false (unsigned_int s')
  | s' => signed false (unsigned_int s')
  end.

(** [ethers.formatEther(wei)]: the amount in ether, with a decimal point, the
    whole part without leading zeros and the fraction without trailing
    zeros, at least one digit on either side. *)
Fixpoint zeros (n : nat) : string :=
  match n with
  | O => ""
  | S n' => String "0" (zeros n')
  end.

Fixpoint drop_trailing_zeros (s : string) : string :=
  match s with
  | EmptyString => ""
  | String c s' =>
      match drop_trailing_zeros s' with
      | EmptyString => if Ascii.eqb c "0" then "" else String c ""
      | kept => String c kept
      end
  end.

Definition formatEther (wei : Z) : string :=
  let amount := Z.abs_N wei in
  let digits := pretty (amount mod 10 ^ 18)%N in
  let fraction := drop_trailing_zeros (zeros (18 - String.length digits) ++ digits) in
  (if wei <? 0 then "-" else "")
  ++ pretty (amount / 10 ^ 18)%N ++ "."
  ++ (if String.eqb fraction "" then "0" else fraction).

(** What ethers gives back: a wallet (of which the address is read) and the
    receipt of a mined transaction. *)
Record Wallet : Type := {
  wallet_address : string
}.

Record Receipt : Type := {
  receipt_hash : string;
  receipt_blockNumber : Z;
  receipt_gasUsed : Z
}.

(** The ethers calls of the service.  [Voters], [SendRegisterVoter] and
    [SendVote] stand for building the contract object and calling its
    [voters], [registerVoter] and [vote] method; the contract object of the
    two transactions is built on [this.wallet], which signs them ([signer]).
    [GetBalance] is [provider.getBalance(address)], answered with an amount
    in wei that [ethers.formatEther] prints (any amount below [2 ^ 511] in
    magnitude, which every balance is); [inl] is the call rejected, or the
    error ethers throws at an amount it does not print: the methods do
    nothing between the two and catch both alike. *)
Inductive eth : Type -> Type :=
| NewWallet (privateKey : string) : eth (thrown + Wallet)
| GetBalance (address : string) : eth (thrown + Z)
| Voters (contractAddress voterAddress : string) : eth (thrown + bool)
| SendRegisterVoter (signer : Wallet) (contractAddress voter : string) (gasLimit : Z)
    : eth (thrown + string)
| SendVote (signer : Wallet) (contractAddress : string) (candidateId : number) (gasLimit : Z)
    : eth (thrown + string)
| Wait (txHash : string) : eth (thrown + Receipt).

(** The fields of the [realBlockchainService] singleton: the provider
    ([None] when the constructor could not create it) and the connected
    wallet. *)
Record chain : Type := {
  provider : option string;
  wallet : option Wallet
}.

Abbreviation chain_task := (prog eth chain).

(** [await this.wallet.getAddress()] is the wallet's own [address]; it is
    read from the wallet without a call. *)
Definition connectWallet (key : string) : chain_task WalletInfo :=
  try_catch
    (s ← get;
     match provider s with
     | None => Throw (JsError "Blockchain provider not initialized")
     | Some _ =>
         w ← await (NewWallet key);
         modify (fun s => {| provider := provider s; wallet := Some w |});;
         let address := wallet_address w in
         balance ← await (GetBalance address);
         mret {| address := address; privateKey := key; balance := formatEther balance |}
     end)
    (fun error =>
       Throw (JsError ("Failed to connect wallet: " ++ error_message "Unknown error" error))).

Definition receipt_response (receipt : Receipt) : BlockchainVoteResponse :=
  {| br_success := true; br_transactionHash := Some (receipt_hash receipt);
     br_blockNumber := Some (receipt_blockNumber receipt);
     br_gasUsed := Some (pretty (receipt_gasUsed receipt)); br_error := None |}.

Definition error_response (msg : string) : BlockchainVoteResponse :=
  {| br_success := false; br_transactionHash := None; br_blockNumber := None;
     br_gasUsed := None; br_error := Some msg |}.

Definition registerVoter (contractAddress : string) : chain_task BlockchainVoteResponse :=
  try_catch
    (s ← get;
     match wallet s with
     | None => Throw (JsError "Wallet not connected")
     | Some w =>
         tx ← await (SendRegisterVoter w contractAddress (wallet_address w) 100000);
         receipt ← await (Wait tx);
         mret (receipt_response receipt)
     end)
    (fun error => mret (error_response (error_message "Registration failed" error))).

Definition castVote (request : BlockchainVoteRequest) : chain_task BlockchainVoteResponse :=
  try_catch
    (s ← get;
     match wallet s with
     | None => Throw (JsError "Wallet not connected")
     | Some w =>
         let candidateId := parseInt (bq_candidateId request) in
         if isNaN candidateId
         then Throw (JsError "Invalid candidate ID")
         else
           tx ← await (SendVote w (bq_contractAddress request) candidateId 150000);
           receipt ← await (Wait tx);
           mret (receipt_response receipt)
     end)
    (fun error => mret (error_response (error_message "Vote casting failed" error))).

Definition isVoterRegistered (contractAddress voterAddress : string) : chain_task bool :=
  try_catch
    (s ← get;
     match provider s with
     | None => Throw (JsError "Blockchain provider not initialized")
     | Some _ =>
         isRegistered ← await (Voters contractAddress voterAddress);
         mret isRegistered
     end)
    (fun _ => mret false).

Definition hasVoterVoted (contractAddress voterAddress : string) : chain_task bool :=
  try_catch
    (s ← get;
     match provider s with
     | None => Throw (JsError "Blockchain provider not initialized")
     | Some _ =>
         hasVoted ← await (Voters contractAddress voterAddress);
         mret hasVoted
     end)
    (fun _ => mret false).

Example parseInt_decimal :
  parseInt "2" = integer 2 /\ parseInt "  -17px" = integer (-17)
  /\ parseInt "-0" = Finite true 0.
Proof. done. Qed.

Example parseInt_hexadecimal : parseInt "0x1A" = integer 26 /\ parseInt "0x" = NaN.
Proof. done. Qed.

Example parseInt_not_a_number : parseInt "" = NaN /\ parseInt "candidate-2" = NaN.
Proof. done. Qed.

(** A no-break space in front of the digits is skipped like a space. *)
Example parseInt_no_break_space : parseInt (String "160" "12") = integer 12.
Proof. done. Qed.

(** From [2 ^ 53] on the number read is the nearest double. *)
Example parseInt_rounds :
  parseInt "9007199254740993" = integer 9007199254740992
  /\ parseInt "9007199254740995" = integer 9007199254740996
  /\ parseInt ("1" ++ zeros 309) = Infinity false.
Proof. vm_compute. done. Qed.

Example formatEther_of_a_balance :
  formatEther 0 = "0.0" /\ formatEther 1000000000000000000 = "1.0"
  /\ formatEther 1500000000000000000 = "1.5"
  /\ formatEther 1 = "0.000000000000000001"
  /\ formatEther (-20000000000000000000) = "-20.0".
Proof. vm_compute. done. Qed.

Example toString36_of_a_timestamp :
  toString36 1700000000000 = "loyw3v28" /\ toString36 35 = "z" /\ toString36 (-36) = "-10".
Proof. done. Qed.

(** ** The application's use of the service over time

    What happens to the singleton: the UI calls [submitVote] or
    [cancelSubmission], or an armed retry timer fires.  In [lifetime] each
    operation is run to its end before the next one starts; what an operation
    returns or throws goes to its caller and is dropped here. *)
Inductive operation : Type :=
| submits (request : VoteSubmissionRequest)
| cancels (voteId : string)
| fires (n : nat).

Definition perform (op : operation) : task unit :=
  match op with
  | submits request => try_catch (submitVote request;; mret tt) (fun _ => mret tt)
  | cancels voteId => modify (fun s => (cancelSubmission voteId s).2)
  | fires n => timer_fires n
  end.

Fixpoint lifetime (ops : list operation) : task unit :=
  match ops with
  | [] => mret tt
  | op :: ops' => perform op;; lifetime ops'
  end.

(** ** Reading a trace *)

(** The ledger answered "this voter has voted" to a duplicate-vote query. *)
Definition reports_voted (o : obs ev) : bool :=
  match o with
  | Obs e x =>
      match e in ev X return X -> bool with
      | HasVoterVoted _ _ => fun x => match x with inr true => true | _ => false end
      | _ => fun _ => false
      end x
  end.

(** Calls that make [RealBlockchainService] send a transaction. *)
Definition is_transaction (o : obs ev) : bool :=
  match o with
  | Obs e _ =>
      match e with
      | RegisterVoter _ | CastVote _ => true
      | _ => false
      end
  end.

(** Calls of a [realBlockchainService] method. *)
Definition is_ledger_call (o : obs ev) : bool :=
  match o with
  | Obs e _ =>
      match e with
      | ConnectWallet _ | HasVoterVoted _ _ | IsVoterRegistered _ _
      | RegisterVoter _ | CastVote _ => true
      | _ => false
      end
  end.

Definition is_fetch (o : obs ev) : bool :=
  match o with
  | Obs e _ => match e with Fetch _ _ => true | _ => false end
  end.

Definition cast_request (o : obs ev) : option BlockchainVoteRequest :=
  match o with
  | Obs e _ =>
      match e with
      | CastVote request => Some request
      | _ => None
      end
  end.

(** What [submitToBlockchain] has seen when it calls [castVote] on contract
    [c] for address [a]: the registration query for [a] answered [true], or a
    [registerVoter] call on [c] reported success.  The [registerVoter] call
    names no address, so this says nothing of who was registered: which
    wallet a registration is for, and which wallet signs a vote, is read off
    the calls to the node ([ledger_call] below). *)
Inductive registration_evidence (c a : string) : obs ev -> Prop :=
| already_registered :
    registration_evidence c a (Obs (IsVoterRegistered c a) (inr true))
| just_registered r :
    br_success r = true ->
    registration_evidence c a (Obs (RegisterVoter c) (inr r)).

(** Every [castVote] in [t] has registration evidence among the calls seen
    before it, [before] being what was seen before [t] started. *)
Fixpoint ordered_after (before t : list (obs ev)) : Prop :=
  match t with
  | [] => True
  | o :: t' =>
      (forall rq, cast_request o = Some rq ->
         Exists (registration_evidence (bq_contractAddress rq) (bq_voterAddress rq)) before)
      /\ ordered_after (before ++ [o])%list t'
  end.

Create HintDb ledger.
#[local] Hint Constructors Exists registration_evidence : ledger.

(** ** General facts about runs *)

Section Runs.
Context {E : Type -> Type} {St W : Type} (h : handler E W).

Lemma run_mbind {A B : Type} (p : prog E St A) (f : A -> prog E St B) s w :
  run h (p ≫= f) s w = then_run h f (run h p s w).
Proof. apply run_bind. Qed.

Lemma then_run_returned {A B : Type} (f : A -> prog E St B) a s w t :
  then_run h f (mkResult (inr a) s w t) = prefixed t (run h (f a) s w).
Proof. reflexivity. Qed.

Lemma else_run_thrown {A : Type} (c : thrown -> prog E St A) x s w t :
  else_run h c (mkResult (inl x) s w t) = prefixed t (run h (c x) s w).
Proof. reflexivity. Qed.

Lemma else_run_returned {A : Type} (c : thrown -> prog E St A) a s w t :
  else_run h c (mkResult (inr a) s w t) = mkResult (inr a) s w t.
Proof. reflexivity. Qed.

Lemma then_run_thrown {A B : Type} (f : A -> prog E St B) x s w t :
  then_run h f (mkResult (inl x) s w t) = mkResult (inl x) s w t.
Proof. reflexivity. Qed.

End Runs.

Ltac exec h :=
  repeat (simpl;
    match goal with
    | |- context [h ?X ?e ?w] => destruct (h X e w) as [? ?] eqn:?
    | |- context [settle ?x] => destruct x eqn:?
    | |- context [match ?x with inl _ => _ | inr _ => _ end] => destruct x eqn:?
    | |- context [if ?b then _ else _] => destruct b eqn:?
    | |- context [match as_truthy ?v with _ => _ end] => destruct (as_truthy v) eqn:?
    end).

Ltac flip_negb :=
  repeat match goal with
    | H : negb _ = false |- _ => apply negb_false_iff in H
    | H : negb _ = true |- _ => apply negb_true_iff in H
    end.

(** ** The three stages of an attempt *)

Section Stages.
Context {W : Type} (h : handler ev W).

(** Validation reads the clock, pauses, and may ask the backend and the
    ledger; it changes nothing, never throws and sends no transaction.  When
    the ledger says the voter has voted, the verdict is the already-voted
    message. *)
Lemma validateSubmission_spec request s w :
  let r := run h (validateSubmission request) s w in
  final r = s /\
  exists v, outcome r = inr v /\
    existsb is_transaction (trace r) = false /\
    (valid v = false -> exists msg, message v = Some msg /\ as_truthy (Some msg) = Some msg) /\
    (existsb reports_voted (trace r) = true ->
     v = invalid "You have already voted in this election on the blockchain").
Proof.
  unfold validateSubmission, blockchain_precheck, checkExistingVote.
  exec h.
  all: split; [reflexivity | eexists; split; [reflexivity |]].
  all: repeat split; intros; simplify_eq/=; try done; eauto.
Qed.

(** When the clock reading validation takes is more than five minutes past
    the request's timestamp, validation rejects without asking the backend
    or the ledger. *)
Lemma validateSubmission_expired request s w :
  (h _ DateNow w).1 - rq_timestamp request > maxAge ->
  let r := run h (validateSubmission request) s w in
  exists v, outcome r = inr v /\ valid v = false /\
    existsb is_ledger_call (trace r) = false /\
    existsb is_fetch (trace r) = false.
Proof.
  intros Hclock. unfold validateSubmission, blockchain_precheck, checkExistingVote.
  exec h; try (eexists; split; [reflexivity | done]).
  all: match goal with
       | Hnow : h Z DateNow _ = (?now, _), Hage : (?now - _ >? _) = false |- _ =>
           try rewrite Hnow in Hclock; simpl in Hclock;
           rewrite Z.gtb_ltb in Hage; apply Z.ltb_ge in Hage; lia
       end.
Qed.

(** The ledger stage changes nothing and never throws; a "has voted"
    answer ends it with the already-voted message before any transaction;
    and it only casts a vote after registration evidence. *)
Lemma submitToBlockchain_spec request s w :
  let r := run h (submitToBlockchain request) s w in
  final r = s /\
  exists resp, outcome r = inr resp /\
    (existsb reports_voted (trace r) = true ->
     resp = failure "You have already voted in this election on the blockchain"
     /\ existsb is_transaction (trace r) = false).
Proof.
  unfold submitToBlockchain.
  exec h.
  all: split; [reflexivity | eexists; split; [reflexivity |]].
  all: intros; simplify_eq/=; done.
Qed.

(** The backend stage: pause, clock, one random draw. *)
Lemma submitToBackend_spec request txHash s w :
  let r := run h (submitToBackend request txHash) s w in
  let w1 := (h _ (Sleep 1000) w).2 in
  let now := h _ DateNow w1 in
  let random := h _ MathRandom now.2 in
  r = mkResult
        (inr (if above_2_percent random.1
              then {| rs_success := true; rs_voteId := None; rs_transactionHash := None;
                      rs_blockNumber := None;
                      rs_confirmationId :=
                        Some ("confirm_" ++ pretty now.1 ++ "_" ++ rq_candidateId request);
                      rs_message := Some "Backend submission successful";
                      rs_error := None; rs_retryAfter := None |}
              else failure "Backend service unavailable"))
        s random.2
        [Obs (Sleep 1000) (h _ (Sleep 1000) w).1; Obs DateNow now.1; Obs MathRandom random.1].
Proof.
  unfold submitToBackend. simpl.
  by destruct (above_2_percent _).
Qed.
End Stages.

(** ** One attempt, stage by stage *)

Section Attempt.
Context {W : Type} (h : handler ev W).

(** The state once [submitVote] has put the request in the queue and
    created its [pending] status. *)
Definition enqueued (submissionId : string) (request : VoteSubmissionRequest) (now : Z)
    (s : service) : service :=
  with_statusCache (insert submissionId (initial_status submissionId now))
    (with_submissionQueue (insert submissionId request) s).

Definition in_processing (submissionId : string) (request : VoteSubmissionRequest) (now : Z)
    (s : service) : service :=
  updateStatus submissionId processing [] (enqueued submissionId request now s).

Definition confirmed_state (submissionId : string) (request : VoteSubmissionRequest) (now : Z)
    (blockchainResult : VoteSubmissionResponse) (confirmedAt : Z) (s : service) : service :=
  with_retryAttempts (delete submissionId)
    (with_submissionQueue (delete submissionId)
       (updateStatus submissionId confirmed
          [transactionHash_is (rs_transactionHash blockchainResult);
           blockNumber_is (rs_blockNumber blockchainResult);
           confirmationCount_is (Some 1);
           confirmedAt_is (Some confirmedAt)]
          (in_processing submissionId request now s))).

(** The four ways the [try] block of [submitVote] ends. *)
Inductive attempt_run (id : string) (rq : VoteSubmissionRequest) (s : service) (w : W)
  : result ev service W VoteSubmissionResponse -> Prop :=
| stops_at_validation v wv tv :
    let now := h _ DateNow w in
    run h (validateSubmission rq) (enqueued id rq now.1 s) now.2
    = mkResult (inr v) (enqueued id rq now.1 s) wv tv ->
    valid v = false ->
    attempt_run id rq s w
      (mkResult (inl (JsError (or_else (message v) "Invalid vote submission")))
         (enqueued id rq now.1 s) wv (Obs DateNow now.1 :: tv))
| stops_at_ledger v wv tv b wb tb :
    let now := h _ DateNow w in
    run h (validateSubmission rq) (enqueued id rq now.1 s) now.2
    = mkResult (inr v) (enqueued id rq now.1 s) wv tv ->
    valid v = true ->
    run h (submitToBlockchain rq) (in_processing id rq now.1 s) wv
    = mkResult (inr b) (in_processing id rq now.1 s) wb tb ->
    rs_success b = false ->
    attempt_run id rq s w
      (mkResult (inl (JsError (or_else (rs_error b) "Blockchain submission failed")))
         (in_processing id rq now.1 s) wb (Obs DateNow now.1 :: tv ++ tb)%list)
| stops_at_backend v wv tv b wb tb k wk tk :
    let now := h _ DateNow w in
    run h (validateSubmission rq) (enqueued id rq now.1 s) now.2
    = mkResult (inr v) (enqueued id rq now.1 s) wv tv ->
    valid v = true ->
    run h (submitToBlockchain rq) (in_processing id rq now.1 s) wv
    = mkResult (inr b) (in_processing id rq now.1 s) wb tb ->
    rs_success b = true ->
    run h (submitToBackend rq (rs_transactionHash b)) (in_processing id rq now.1 s) wb
    = mkResult (inr k) (in_processing id rq now.1 s) wk tk ->
    rs_success k = false ->
    attempt_run id rq s w
      (mkResult (inl (JsError (or_else (rs_error k) "Backend submission failed")))
         (in_processing id rq now.1 s) wk (Obs DateNow now.1 :: tv ++ tb ++ tk)%list)
| confirms v wv tv b wb tb k wk tk :
    let now := h _ DateNow w in
    run h (validateSubmission rq) (enqueued id rq now.1 s) now.2
    = mkResult (inr v) (enqueued id rq now.1 s) wv tv ->
    valid v = true ->
    run h (submitToBlockchain rq) (in_processing id rq now.1 s) wv
    = mkResult (inr b) (in_processing id rq now.1 s) wb tb ->
    rs_success b = true ->
    run h (submitToBackend rq (rs_transactionHash b)) (in_processing id rq now.1 s) wb
    = mkResult (inr k) (in_processing id rq now.1 s) wk tk ->
    rs_success k = true ->
    let confirmedAt := h _ DateNow wk in
    attempt_run id rq s w
      (mkResult
         (inr {| rs_success := true; rs_voteId := Some id;
                 rs_transactionHash := rs_transactionHash b;
                 rs_blockNumber := rs_blockNumber b;
                 rs_confirmationId := rs_confirmationId k;
                 rs_message := Some "Vote submitted successfully";
                 rs_error := None; rs_retryAfter := None |})
         (confirmed_state id rq now.1 b confirmedAt.1 s) confirmedAt.2
         (Obs DateNow now.1 :: tv ++ tb ++ tk ++ [Obs DateNow confirmedAt.1])%list).

Lemma attempt_cases id rq s w : attempt_run id rq s w (run h (attempt id rq) s w).
Proof.
  unfold attempt. cbn. rewrite run_mbind.
  destruct (validateSubmission_spec h rq (enqueued id rq (h Z DateNow w).1 s) (h Z DateNow w).2)
    as (Hs & v & Hv & _).
  destruct (run h (validateSubmission rq) _ _) as [ov sv wv tv] eqn:Hrv.
  fold (enqueued id rq (h Z DateNow w).1 s) in *.
  cbn in Hs, Hv. subst ov sv.
  rewrite then_run_returned.
  destruct (valid v) eqn:Hvalid; cbn.
  2: { unfold logged, prefixed; cbn. rewrite app_nil_r. by eapply stops_at_validation. }
  rewrite run_mbind. fold (in_processing id rq (h Z DateNow w).1 s).
  destruct (submitToBlockchain_spec h rq (in_processing id rq (h Z DateNow w).1 s) wv)
    as (Hs & b & Hb & _).
  destruct (run h (submitToBlockchain rq) _ _) as [ob sb wb tb] eqn:Hrb.
  cbn in Hs, Hb. subst ob sb.
  rewrite then_run_returned.
  destruct (rs_success b) eqn:Hok; cbn.
  2: { unfold logged, prefixed; cbn. rewrite app_nil_r. by eapply stops_at_ledger. }
  rewrite run_mbind.
  pose proof (submitToBackend_spec h rq (rs_transactionHash b)
                (in_processing id rq (h Z DateNow w).1 s) wb) as Hk.
  cbn zeta in Hk.
  destruct (run h (submitToBackend rq _) _ _) as [ok' sk wk tk] eqn:Hrk.
  assert (sk = in_processing id rq (h Z DateNow w).1 s /\ exists k, ok' = inr k)
    as [-> [k ->]] by (injection Hk as -> -> _ _; eauto).
  clear Hk. rewrite then_run_returned.
  destruct (rs_success k) eqn:Hok'; cbn; unfold logged, prefixed; cbn.
  - by eapply confirms.
  - rewrite app_nil_r. by eapply stops_at_backend.
Qed.
End Attempt.

(** ** Field-by-field effect of the status updates *)

Section Fields.
Implicit Types (s : service) (id : string) (us : list field_update).

Lemma status_after_updates us (x : VoteSubmissionStatus) :
  st_status (fold_left apply_update us x) = st_status x.
Proof. revert x. induction us as [|[] us IH]; intros x; simpl; [done|by rewrite IH..]. Qed.

Lemma retryAttempts_updateStatus id new us s :
  retryAttempts (updateStatus id new us s) = retryAttempts s.
Proof. unfold updateStatus. by destruct (statusCache s !! id). Qed.

Lemma submissionQueue_updateStatus id new us s :
  submissionQueue (updateStatus id new us s) = submissionQueue s.
Proof. unfold updateStatus. by destruct (statusCache s !! id). Qed.

Lemma timers_updateStatus id new us s :
  timers (updateStatus id new us s) = timers s.
Proof. unfold updateStatus. by destruct (statusCache s !! id). Qed.

Lemma statusCache_updateStatus id new us s cur :
  statusCache s !! id = Some cur ->
  statusCache (updateStatus id new us s) !! id
  = Some (fold_left apply_update us (with_status new cur)).
Proof. intros H. unfold updateStatus. rewrite H. simpl. apply lookup_insert_eq. Qed.

Lemma statusCache_updateStatus_other id id' new us s :
  id <> id' ->
  statusCache (updateStatus id new us s) !! id' = statusCache s !! id'.
Proof.
  intros H. unfold updateStatus. destruct (statusCache s !! id); [|done].
  simpl. by rewrite lookup_insert_ne.
Qed.

(** [updateStatus] leaves an entry whose status is the new one, when there
    was an entry. *)
Lemma status_updateStatus id new us s :
  is_Some (statusCache s !! id) ->
  st_status <$> statusCache (updateStatus id new us s) !! id = Some new.
Proof.
  intros [cur H]. rewrite (statusCache_updateStatus _ _ _ _ _ H). simpl.
  by rewrite status_after_updates.
Qed.
End Fields.

(** ** The [catch] block and the whole of [submitVote] *)

Section SubmitVote.
Context {W : Type} (h : handler ev W).

Definition retry_response (msg : string) (count : Z) : VoteSubmissionResponse :=
  {| rs_success := false; rs_voteId := None; rs_transactionHash := None;
     rs_blockNumber := None; rs_confirmationId := None; rs_message := None;
     rs_error := Some msg; rs_retryAfter := Some (retryDelay * (count + 1)) |}.

Lemma run_recover id t s w :
  run h (recover id t) s w
  = let msg := error_message "Vote submission failed" t in
    let s1 := updateStatus id failed [error_is (Some msg)] s in
    let count := or_zero (retryAttempts s !! id) in
    if count <? maxRetries
    then mkResult (inr (retry_response msg count))
           (setTimeout {| retries := id; delay := retryDelay * (count + 1) |}
              (with_retryAttempts (insert id (count + 1)) s1)) w []
    else mkResult (inr (failure msg))
           (with_retryAttempts (delete id) (with_submissionQueue (delete id) s1)) w [].
Proof.
  unfold recover. cbn. rewrite retryAttempts_updateStatus.
  by destruct (or_zero (retryAttempts s !! id) <? maxRetries).
Qed.

Lemma run_submitVote rq s w :
  run h (submitVote rq) s w
  = let random := h _ MathRandom w in
    let id := submission_id rq random.1 in
    logged (Obs MathRandom random.1)
      (else_run h (recover id) (run h (attempt id rq) s random.2)).
Proof.
  unfold submitVote, generateSubmissionId. cbn. by rewrite run_try_catch.
Qed.

(** [submitVote] always resolves: every failure is turned into a response. *)
Lemma submitVote_returns rq s w :
  exists resp, outcome (run h (submitVote rq) s w) = inr resp.
Proof.
  rewrite run_submitVote. cbn zeta.
  destruct (attempt_cases h (submission_id rq (h _ MathRandom w).1) rq s (h _ MathRandom w).2).
  1-3: rewrite else_run_thrown, run_recover; cbn zeta;
       match goal with |- context [if ?b then _ else _] => destruct b end; cbn; eauto.
  rewrite else_run_returned. cbn. eauto.
Qed.
End SubmitVote.

(** ** Concrete environments *)

Definition receipt : BlockchainVoteResponse :=
  {| br_success := true; br_transactionHash := Some "0xfeed"; br_blockNumber := Some 42;
     br_gasUsed := Some "21000"; br_error := None |}.

Definition backend_body : json_body :=
  {| contract_address := Some "0xE1ec"; encrypted_private_key := Some "0xkey" |}.

(** An environment whose world counts the calls answered so far.  The clock
    advances one second per call; the [n]-th answer to [Math.random()] has
    the decimal digits of [n] as its base-36 digits. *)
Definition scripted (voted registered backend_up : bool) : handler ev nat :=
  fun X e n =>
    match e in ev X return X * nat with
    | DateNow => (1700000000000 + 1000 * Z.of_nat n, S n)
    | MathRandom => ({| base36_digits := pretty n; above_2_percent := backend_up |}, S n)
    | Sleep _ => (tt, S n)
    | Fetch _ _ => (inr {| ok := true; statusText := "OK"; json := inr backend_body |}, S n)
    | ConnectWallet key =>
        (inr {| address := "0xA11ce"; privateKey := key; balance := "1.0" |}, S n)
    | HasVoterVoted _ _ => (inr voted, S n)
    | IsVoterRegistered _ _ => (inr registered, S n)
    | RegisterVoter _ => (inr receipt, S n)
    | CastVote _ => (inr receipt, S n)
    end.

Definition ballot : VoteSubmissionRequest :=
  {| rq_electionId := "election-1"; rq_candidateId := "2"; rq_voterId := "voter-7";
     rq_verificationCode := Some "123456"; rq_biometricHash := Some "b10";
     rq_deviceId := Some "mobile-device"; rq_timestamp := 1700000000000;
     rq_voterAddress := None; rq_token := Some "jwt" |}.

(** [getStatistics()[st]]: how many status records have status [st]. *)
Definition getStatistics (s : service) (st : status) : nat :=
  length (filter (fun x => st_status x.2 = st) (map_to_list (statusCache s))).


(** ** The submission service on top of the blockchain service

    The environment of the submission service in which the five ledger calls
    are answered by the methods of [RealBlockchainService] above, run against
    an ethers environment [node]; the clock, the random source, pauses and
    [fetch] are answered by [app]. *)
Definition linked {Wn Wa : Type} (node : handler eth Wn) (app : handler ev Wa)
    : handler ev (chain * Wn * Wa) :=
  fun X e '(c, wn, wa) =>
    let method {R : Type} (p : chain_task R) : (thrown + R) * (chain * Wn * Wa) :=
      let r := run node p c wn in (outcome r, (final r, world r, wa)) in
    let other {R : Type} (e' : ev R) : R * (chain * Wn * Wa) :=
      let a := app _ e' wa in (a.1, (c, wn, a.2)) in
    match e in ev X return X * (chain * Wn * Wa) with
    | ConnectWallet key => method (connectWallet key)
    | HasVoterVoted contractAddress voterAddress =>
        method (hasVoterVoted contractAddress voterAddress)
    | IsVoterRegistered contractAddress voterAddress =>
        method (isVoterRegistered contractAddress voterAddress)
    | RegisterVoter contractAddress => method (registerVoter contractAddress)
    | CastVote request => method (castVote request)
    | DateNow => other DateNow
    | MathRandom => other MathRandom
    | Sleep ms => other (Sleep ms)
    | Fetch path token => other (Fetch path token)
    end.

(** A node whose [n]-th answer depends on [n] only for [voters]: it says
    [false] during the first eight calls (one full submission), then fails
    once (call 10, a timeout), then says [true]. *)
Definition flaky_node : handler eth nat :=
  fun X e n =>
    match e in eth X return X * nat with
    | NewWallet _ => (inr {| wallet_address := "0xA11ce" |}, S n)
    | GetBalance _ => (inr 1000000000000000000, S n)
    | Voters _ _ =>
        (if (n <? 8)%nat then inr false
         else if (n =? 10)%nat then inl (JsError "timeout")
         else inr true, S n)
    | SendRegisterVoter _ _ _ _ => (inr "0xbeef", S n)
    | SendVote _ _ _ _ => (inr "0xfeed", S n)
    | Wait tx =>
        (inr {| receipt_hash := tx; receipt_blockNumber := 42; receipt_gasUsed := 21000 |}, S n)
    end.

Definition connected_chain : chain := {| provider := Some "http://10.226.155.194:8545"; wallet := None |}.

(** ** Order of ledger calls *)

Section Order.

Lemma ordered_after_app before t1 t2 :
  ordered_after before (t1 ++ t2)%list
  <-> ordered_after before t1 /\ ordered_after (before ++ t1)%list t2.
Proof.
  revert before. induction t1 as [|o t1 IH]; intros before; simpl.
  - rewrite app_nil_r. tauto.
  - rewrite IH. rewrite <- app_assoc. simpl. tauto.
Qed.

Lemma ordered_after_split before pre o post rq :
  ordered_after before (pre ++ o :: post)%list ->
  cast_request o = Some rq ->
  Exists (registration_evidence (bq_contractAddress rq) (bq_voterAddress rq))
    (before ++ pre)%list.
Proof.
  rewrite ordered_after_app. simpl. intros (_ & Ho & _) Hrq. by apply Ho.
Qed.

(** The same requirement read off the program tree, whatever the
    environment answers: each [castVote] call of [p] has registration
    evidence among the calls made before it, [before] being the calls made
    before [p] started. *)
Fixpoint lawful_from {R : Type} (p : task R) (before : list (obs ev)) : Prop :=
  match p with
  | Ret _ | Throw _ => True
  | Get k => forall s, lawful_from (k s) before
  | Put _ k => lawful_from k before
  | Call e k =>
      forall x,
        (forall rq, cast_request (Obs e x) = Some rq ->
           Exists (registration_evidence (bq_contractAddress rq) (bq_voterAddress rq)) before)
        /\ lawful_from (k x) (before ++ [Obs e x])%list
  end.

Definition lawful {R : Type} (p : task R) : Prop :=
  forall before, lawful_from p before.

Lemma lawful_from_later {R : Type} (p : task R) before later :
  lawful_from p before -> before ⊆ later -> lawful_from p later.
Proof.
  revert before later.
  induction p as [a|t|k IH|s' k IH|X e k IH]; intros before later Hp Hincl; simpl in *.
  - done.
  - done.
  - intros s. by apply (IH s before).
  - by apply (IH before).
  - intros x. destruct (Hp x) as [Hcast Hk]. split.
    + intros rq Hrq. specialize (Hcast rq Hrq).
      apply Exists_exists in Hcast as (o & Ho & Hev). apply Exists_exists. eauto.
    + apply (IH x _ _ Hk).
      intros y [Hy|Hy]%elem_of_app; apply elem_of_app; [left; by apply Hincl | by right].
Qed.

Lemma lawful_from_run {W R : Type} (h : handler ev W) (p : task R) before s w :
  lawful_from p before -> ordered_after before (trace (run h p s w)).
Proof.
  revert before s w.
  induction p as [a|t|k IH|s' k IH|X e k IH]; intros before s w Hp; simpl in *.
  - done.
  - done.
  - by apply IH.
  - by apply IH.
  - destruct (Hp (h X e w).1) as [Hcast Hk]. split; [done | by apply IH].
Qed.

Lemma lawful_ret {R : Type} (r : R) : lawful (Ret r).
Proof. by intros before. Qed.

Lemma lawful_throw {R : Type} t : lawful (R := R) (Throw t).
Proof. by intros before. Qed.

Lemma lawful_get {R : Type} (k : service -> task R) :
  (forall s, lawful (k s)) -> lawful (Get k).
Proof. intros Hk before s. apply Hk. Qed.

Lemma lawful_put {R : Type} s' (k : task R) : lawful k -> lawful (Put s' k).
Proof. intros Hk before. apply Hk. Qed.

Lemma lawful_modify f : lawful (modify f).
Proof. by intros before s. Qed.

Lemma lawful_call {X R : Type} (e : ev X) (k : X -> task R) :
  (forall x, cast_request (Obs e x) = None) ->
  (forall x, lawful (k x)) -> lawful (Call e k).
Proof.
  intros He Hk before x. split.
  - intros rq Hrq. by rewrite He in Hrq.
  - apply Hk.
Qed.

Lemma lawful_await {X : Type} (e : ev (thrown + X)) :
  (forall x, cast_request (Obs e x) = None) -> lawful (await e).
Proof. intros He. apply lawful_call; [done|]. by intros [t|x] before. Qed.

Lemma lawful_from_bind {A B : Type} (p : task A) (f : A -> task B) before :
  lawful_from p before -> (forall a, lawful (f a)) -> lawful_from (p ≫= f) before.
Proof.
  intros Hp Hf. revert before Hp.
  induction p as [a|t|k IH|s' k IH|X e k IH]; intros before Hp; simpl in *.
  - apply Hf.
  - done.
  - intros s. by apply IH.
  - by apply IH.
  - intros x. destruct (Hp x) as [Hcast Hk]. split; [done|]. by apply IH.
Qed.

Lemma lawful_from_try_catch {A : Type} (p : task A) c before :
  lawful_from p before -> (forall t, lawful (c t)) -> lawful_from (try_catch p c) before.
Proof.
  intros Hp Hc. revert before Hp.
  induction p as [a|t|k IH|s' k IH|X e k IH]; intros before Hp; simpl in *.
  - done.
  - apply Hc.
  - intros s. by apply IH.
  - by apply IH.
  - intros x. destruct (Hp x) as [Hcast Hk]. split; [done|]. by apply IH.
Qed.

Lemma lawful_bind {A B : Type} (p : task A) (f : A -> task B) :
  lawful p -> (forall a, lawful (f a)) -> lawful (p ≫= f).
Proof. intros Hp Hf before. by apply lawful_from_bind. Qed.

Lemma lawful_try_catch {A : Type} (p : task A) c :
  lawful p -> (forall t, lawful (c t)) -> lawful (try_catch p c).
Proof. intros Hp Hc before. by apply lawful_from_try_catch. Qed.

Ltac lawful_step :=
  lazymatch goal with
  | |- lawful (Ret _) => apply lawful_ret
  | |- lawful (mret _) => apply lawful_ret
  | |- lawful (Throw _) => apply lawful_throw
  | |- lawful (modify _) => apply lawful_modify
  | |- lawful get => apply lawful_get; intros ?; apply lawful_ret
  | |- lawful (call _) => apply lawful_call; [done | intros ?; apply lawful_ret]
  | |- lawful (await _) => apply lawful_await; done
  | |- lawful (settle ?x) => destruct x; [apply lawful_throw | apply lawful_ret]
  | |- lawful (_ ≫= _) => apply lawful_bind; [|intros ?]
  | |- lawful (try_catch _ _) => apply lawful_try_catch; [|intros ?]
  | |- lawful (Get _) => apply lawful_get; intros ?
  | |- lawful (Put _ _) => apply lawful_put
  | |- lawful (Call _ _) => apply lawful_call; [done | intros ?]
  | |- lawful (if ?b then _ else _) => destruct b
  | |- lawful (match ?x with Some _ => _ | None => _ end) => destruct x
  | |- lawful (let _ := _ in _) => cbv zeta
  end.

Lemma lawful_validateSubmission rq : lawful (validateSubmission rq).
Proof.
  unfold validateSubmission, blockchain_precheck, checkExistingVote. repeat lawful_step.
Qed.

Lemma lawful_submitToBackend rq tx : lawful (submitToBackend rq tx).
Proof. unfold submitToBackend. repeat lawful_step. Qed.

(** The ledger stage is where the order matters: [castVote] is reached only
    through a [true] answer of [isVoterRegistered] or a successful
    [registerVoter]. *)
Lemma lawful_submitToBlockchain rq : lawful (submitToBlockchain rq).
Proof.
  intros before. unfold submitToBlockchain.
  repeat (cbn;
    match goal with
    | |- forall _, _ => intros ?
    | |- _ /\ _ => split
    | |- context [settle ?x] => destruct x eqn:?
    | |- context [match ?x with inl _ => _ | inr _ => _ end] => destruct x eqn:?
    | |- context [if ?b then _ else _] => destruct b eqn:?
    | |- context [match as_truthy ?v with _ => _ end] => destruct (as_truthy v) eqn:?
    end).
  all: try done.
  all: flip_negb; simplify_eq/=.
  all: rewrite ?Exists_app; eauto 14 with ledger.
Qed.

Lemma lawful_submitVote rq : lawful (submitVote rq).
Proof.
  unfold submitVote, generateSubmissionId, attempt, recover.
  repeat lawful_step;
    first [apply lawful_validateSubmission | apply lawful_submitToBlockchain
          | apply lawful_submitToBackend].
Qed.

Lemma lawful_perform op : lawful (perform op).
Proof.
  destruct op; unfold perform, timer_fires, retrySubmission.
  - repeat lawful_step. apply lawful_submitVote.
  - apply lawful_modify.
  - repeat lawful_step. apply lawful_submitVote.
Qed.

Lemma lawful_lifetime ops : lawful (lifetime ops).
Proof.
  induction ops as [|op ops IH]; simpl.
  - apply lawful_ret.
  - apply lawful_bind; [apply lawful_perform | by intros _].
Qed.
End Order.

(** ** The event loop

    Several operations can be under way at once: a task runs until it has to
    wait for an answer, and other tasks run meanwhile.  A turn of the loop
    either begins an operation (the UI calls the service, or a retry timer
    fires), which runs up to its first call of the outside world, or hands
    task [i] the answer to the call it is waiting for and lets it run up to
    its next call.  (The loop may switch tasks at every call, also at reads
    of the clock and of the random source, where JavaScript does not: the
    interleavings of the code are among those of the model.) *)
Inductive turn : Type :=
| begins (op : operation)
| resumes (i : nat).

Definition start {R : Type} (p : task R) (s : service) : task R * service :=
  let a := advance p s in (rest a.1, a.2).

Definition take_turn {W : Type} (h : handler ev W) (t : turn)
    (tasks : list (task unit)) (s : service) (w : W)
  : list (task unit) * service * W * list (obs ev) :=
  match t with
  | begins op =>
      let a := start (perform op) s in ((tasks ++ [a.1])%list, a.2, w, [])
  | resumes i =>
      match tasks !! i with
      | Some (Call e k) =>
          let x := h _ e w in
          let a := start (k x.1) s in
          (<[i := a.1]> tasks, a.2, x.2, [Obs e x.1])
      | _ => (tasks, s, w, [])
      end
  end.

(** The calls made during the given turns, in order. *)
Fixpoint event_loop {W : Type} (h : handler ev W) (turns : list turn)
    (tasks : list (task unit)) (s : service) (w : W) : list (obs ev) :=
  match turns with
  | [] => []
  | t :: turns' =>
      let a := take_turn h t tasks s w in
      (a.2 ++ event_loop h turns' a.1.1.1 a.1.1.2 a.1.2)%list
  end.

Section Loop.
Context {W : Type} (h : handler ev W).

Lemma lawful_from_start {R : Type} (p : task R) s before :
  lawful_from p before -> lawful_from (start p s).1 before.
Proof.
  revert s. unfold start.
  induction p as [a|t|k IH|s' k IH|X e k IH]; intros s Hp; simpl in *.
  - done.
  - done.
  - by apply IH.
  - by apply IH.
  - done.
Qed.

Lemma event_loop_ordered turns tasks s w before :
  Forall (fun p => lawful_from p before) tasks ->
  ordered_after before (event_loop h turns tasks s w).
Proof.
  revert tasks s w before.
  induction turns as [|t turns IH]; intros tasks s w before Htasks; [done|].
  destruct t as [op|i]; cbn [event_loop take_turn].
  - cbn. apply IH. apply Forall_app. split; [done|].
    apply Forall_singleton. apply lawful_from_start, lawful_perform.
  - destruct (tasks !! i) as [[a|t|k|s' k|X e k]|] eqn:Hi; cbn; try by apply IH.
    apply (Forall_lookup_1 _ _ _ _ Htasks) in Hi as Hp. cbn in Hp.
    destruct (Hp (h X e w).1) as [Hcast Hk].
    split; [done|]. apply IH.
    apply Forall_insert.
    + eapply Forall_impl; [exact Htasks|]. intros p Hlaw.
      apply (lawful_from_later p before); [done|].
      intros y Hy. apply elem_of_app. by left.
    + by apply lawful_from_start.
Qed.
End Loop.

(** ** How an attempt ends *)

Definition already_voted_message : string :=
  "You have already voted in this election on the blockchain".

(** The ledger accepted a [castVote]. *)
Definition vote_accepted (o : obs ev) : bool :=
  match o with
  | Obs e x =>
      match e in ev X return X -> bool with
      | CastVote _ => fun x => match x with inr r => br_success r | inl _ => false end
      | _ => fun _ => false
      end x
  end.

(** The states in which the [try] block of [submitVote] can be left by a
    [throw]: the request is in the queue and its status is [pending] or
    [processing]. *)
Definition mid_attempt (id : string) (rq : VoteSubmissionRequest) (s s' : service) : Prop :=
  exists now, s' = enqueued id rq now s \/ s' = in_processing id rq now s.

Section Acceptance.
Context {W : Type} (h : handler ev W).

Lemma submitToBlockchain_success request s w resp :
  let r := run h (submitToBlockchain request) s w in
  outcome r = inr resp -> rs_success resp = true ->
  existsb reports_voted (trace r) = false /\ existsb vote_accepted (trace r) = true.
Proof.
  unfold submitToBlockchain.
  exec h.
  all: intros; simplify_eq/=; flip_negb.
  all: split; [done|]; by match goal with H : br_success _ = true |- _ => rewrite H end.
Qed.

End Acceptance.

Section Endings.
Context {W : Type} (h : handler ev W).

Lemma mid_attempt_fields id rq s s' :
  mid_attempt id rq s s' ->
  retryAttempts s' = retryAttempts s /\ timers s' = timers s /\
  submissionQueue s' = <[id := rq]> (submissionQueue s) /\
  (exists st, statusCache s' !! id = Some st
              /\ (st_status st = pending \/ st_status st = processing)) /\
  (forall id', id <> id' -> statusCache s' !! id' = statusCache s !! id').
Proof.
  intros [now [-> | ->]]; unfold in_processing;
    rewrite ?retryAttempts_updateStatus, ?timers_updateStatus, ?submissionQueue_updateStatus.
  - repeat split; simpl.
    + eexists. rewrite lookup_insert_eq. eauto.
    + intros id' Hne. by rewrite lookup_insert_ne.
  - repeat split; simpl.
    + eexists. erewrite statusCache_updateStatus; [|apply lookup_insert_eq]. simpl. eauto.
    + intros id' Hne. rewrite statusCache_updateStatus_other by done.
      simpl. by rewrite lookup_insert_ne.
Qed.

(** Whatever a stage run returned, bring what its specification says. *)
Ltac stage_facts :=
  repeat match goal with
    | H : run h (validateSubmission ?rq) ?s ?w = _ |- _ =>
        let F := fresh "Hvalidation" in
        pose proof (validateSubmission_spec h rq s w) as F; cbn zeta in F;
        rewrite H in F; cbn in F; destruct F as (_ & ? & ? & ? & ? & ?);
        simplify_eq; revert H
    | H : run h (submitToBlockchain ?rq) ?s ?w = _ |- _ =>
        let F := fresh "Hledger" in let G := fresh "Hledger" in
        pose proof (submitToBlockchain_spec h rq s w) as F;
        pose proof (submitToBlockchain_success h rq s w) as G; cbn zeta in F, G;
        rewrite H in F, G; cbn in F, G; destruct F as (_ & ? & ? & ?);
        simplify_eq; revert H
    | H : run h (submitToBackend ?rq ?tx) ?s ?w = _ |- _ =>
        let F := fresh "Hbackend" in
        pose proof (submitToBackend_spec h rq tx s w) as F; cbn zeta in F;
        rewrite H in F;
        let F1 := fresh "Hbackend" in let F2 := fresh "Hbackend" in
        pose proof (f_equal outcome F) as F1; pose proof (f_equal trace F) as F2;
        cbn in F1, F2; clear F; revert H
    end; intros.

Lemma mid_attempt_enqueued id rq s now : mid_attempt id rq s (enqueued id rq now s).
Proof. exists now. by left. Qed.

Lemma mid_attempt_in_processing id rq s now : mid_attempt id rq s (in_processing id rq now s).
Proof. exists now. by right. Qed.

(** A "has voted" answer anywhere in an attempt ends it with the
    already-voted error before any transaction. *)
Lemma voted_report_stops_attempt id rq s w :
  let r := run h (attempt id rq) s w in
  existsb reports_voted (trace r) = true ->
  outcome r = inl (JsError already_voted_message) /\
  existsb is_transaction (trace r) = false /\
  mid_attempt id rq s (final r).
Proof.
  cbn zeta. destruct (attempt_cases h id rq s w); cbn; rewrite ?existsb_app; intros Hvoted;
    stage_facts; cbn in Hvoted; rewrite ?orb_false_r in Hvoted.
  - match goal with H : _ -> _ = invalid _ |- _ => rewrite (H Hvoted) end.
    eauto using mid_attempt_enqueued.
  - apply orb_true_iff in Hvoted as [Hvoted | Hvoted].
    { match goal with H : _ -> _ = invalid _ |- _ => rewrite (H Hvoted) in * end. done. }
    match goal with H : _ -> _ = failure _ /\ _ |- _ => destruct (H Hvoted) as [-> ->] end.
    rewrite orb_false_r. eauto using mid_attempt_in_processing.
  - subst tk. cbn in Hvoted. rewrite orb_false_r in Hvoted.
    apply orb_true_iff in Hvoted as [Hvoted | Hvoted].
    { match goal with H : _ -> _ = invalid _ |- _ => rewrite (H Hvoted) in * end. done. }
    match goal with H : _ -> _ = failure _ /\ _ |- _ => destruct (H Hvoted) as [-> _] end.
    done.
  - subst tk. cbn in Hvoted. rewrite !orb_false_r in Hvoted.
    apply orb_true_iff in Hvoted as [Hvoted | Hvoted].
    { match goal with H : _ -> _ = invalid _ |- _ => rewrite (H Hvoted) in * end. done. }
    match goal with H : _ -> _ = failure _ /\ _ |- _ => destruct (H Hvoted) as [-> _] end.
    done.
Qed.

(** An attempt that throws throws an [Error], with the request still queued. *)
Lemma attempt_throws id rq s w t :
  let r := run h (attempt id rq) s w in
  outcome r = inl t ->
  (exists msg, t = JsError msg) /\ mid_attempt id rq s (final r).
Proof.
  cbn zeta. destruct (attempt_cases h id rq s w); cbn; intros; simplify_eq;
    eauto using mid_attempt_enqueued, mid_attempt_in_processing.
Qed.

(** An attempt that returns has had its vote accepted by a ledger that did
    not report an earlier vote, and leaves a confirmed record. *)
Lemma attempt_returns id rq s w resp :
  let r := run h (attempt id rq) s w in
  outcome r = inr resp ->
  rs_success resp = true /\ rs_voteId resp = Some id /\
  existsb reports_voted (trace r) = false /\
  existsb vote_accepted (trace r) = true /\
  (exists now b confirmedAt, final r = confirmed_state id rq now b confirmedAt s).
Proof.
  cbn zeta. destruct (attempt_cases h id rq s w); cbn; intros; simplify_eq.
  rewrite !existsb_app. stage_facts. subst tk. cbn.
  match goal with H : forall resp, inr _ = inr resp -> _ |- _ =>
    destruct (H _ eq_refl) as [Hquiet Haccepted]; [done|] end.
  rewrite Hquiet, Haccepted, orb_true_r.
  repeat split; eauto.
  destruct (existsb reports_voted tv) eqn:Htv; [|done].
  match goal with H : _ -> _ = invalid _ |- _ => rewrite (H eq_refl) in * end. done.
Qed.
End Endings.

(** ** What [submitVote] returns and leaves behind *)

Section Verdicts.
Context {W : Type} (h : handler ev W).

Definition retry_timer (id : string) (count : Z) : timer :=
  {| retries := id; delay := retryDelay * (count + 1) |}.

(** When the attempt throws: the record is marked [failed] with the message,
    and, while the retry count stored for this id is below [maxRetries], the
    count is incremented and a retry timer is armed; otherwise the request
    leaves the queue. *)
Lemma submitVote_after_throw rq s w msg :
  let random := h _ MathRandom w in
  let id := submission_id rq random.1 in
  let a := run h (attempt id rq) s random.2 in
  outcome a = inl (JsError msg) ->
  let r := run h (submitVote rq) s w in
  let count := or_zero (retryAttempts s !! id) in
  outcome r = inr (if count <? maxRetries then retry_response msg count else failure msg) /\
  trace r = Obs MathRandom random.1 :: trace a /\
  world r = world a /\
  st_status <$> statusCache (final r) !! id = Some failed /\
  st_error <$> statusCache (final r) !! id = Some (Some msg) /\
  retryAttempts (final r) !! id = (if count <? maxRetries then Some (count + 1) else None) /\
  timers (final r)
  = (if count <? maxRetries then (timers s ++ [retry_timer id count])%list else timers s) /\
  submissionQueue (final r) !! id = (if count <? maxRetries then Some rq else None) /\
  retryAttempts (final r)
  = (if count <? maxRetries then <[id := count + 1]> (retryAttempts s)
     else delete id (retryAttempts s)) /\
  submissionQueue (final r)
  = (if count <? maxRetries then <[id := rq]> (submissionQueue s)
     else delete id (<[id := rq]> (submissionQueue s))).
Proof.
  cbn zeta. intros Hthrow. rewrite run_submitVote. cbn zeta.
  set (id := submission_id rq (h _ MathRandom w).1) in *.
  destruct (attempt_throws h id rq s (h _ MathRandom w).2 _ Hthrow) as [_ Hmid].
  apply mid_attempt_fields in Hmid as (Hretry & Htimers & Hqueue & (st & Hst & _) & _).
  destruct (run h (attempt id rq) s _) as [o sa wa ta]. cbn in *. subst o.
  rewrite else_run_thrown, run_recover. cbn zeta. rewrite Hretry.
  destruct (or_zero (retryAttempts s !! id) <? maxRetries); cbn;
    rewrite ?app_nil_r, ?lookup_insert_eq, ?lookup_delete_eq,
      ?submissionQueue_updateStatus, ?timers_updateStatus, ?Htimers, ?Hqueue,
      ?lookup_insert_eq, ?lookup_delete_eq,
      ?retryAttempts_updateStatus, ?Hretry,
      (statusCache_updateStatus _ _ _ _ _ Hst); done.
Qed.

Lemma submitVote_after_return rq s w resp :
  let random := h _ MathRandom w in
  let id := submission_id rq random.1 in
  let a := run h (attempt id rq) s random.2 in
  outcome a = inr resp ->
  let r := run h (submitVote rq) s w in
  outcome r = inr resp /\ trace r = Obs MathRandom random.1 :: trace a /\
  world r = world a /\ final r = final a.
Proof.
  cbn zeta. intros Hreturn. rewrite run_submitVote. cbn zeta.
  destruct (run h (attempt _ rq) s _) as [o sa wa ta]. cbn in *. subst o.
  by rewrite else_run_returned.
Qed.

Lemma confirmed_state_status id rq now b confirmedAt s :
  st_status <$> statusCache (confirmed_state id rq now b confirmedAt s) !! id = Some confirmed.
Proof.
  unfold confirmed_state. cbn.
  apply status_updateStatus.
  destruct (mid_attempt_fields id rq s _ (mid_attempt_in_processing id rq s now))
    as (_ & _ & _ & (st & -> & _) & _). eauto.
Qed.
End Verdicts.

(** ** The claims about retry, duplicates and expiry *)

Definition response_of {W : Type} (r : result ev service W VoteSubmissionResponse)
    : option VoteSubmissionResponse :=
  match outcome r with
  | inr resp => Some resp
  | inl _ => None
  end.

(** The ballot, ten minutes after it was filled in. *)
Definition stale_ballot : VoteSubmissionRequest :=
  {| rq_electionId := "election-1"; rq_candidateId := "2"; rq_voterId := "voter-7";
     rq_verificationCode := Some "123456"; rq_biometricHash := Some "b10";
     rq_deviceId := Some "mobile-device"; rq_timestamp := 1700000000000 - 600000;
     rq_voterAddress := None; rq_token := Some "jwt" |}.

(** C4, as amended: when a [submitVote] call fails while the retry count [r]
    stored for its submission id is below [maxRetries], the record's status
    is set to [failed] (not back to [pending]) with the error attached, the
    stored count becomes [r + 1], a retry timer with delay exactly
    [5000 * (r + 1)] ms is armed, and the response announces that delay.
    This holds for every failure: the code does not classify errors. *)
Theorem failed_attempt_is_retried_with_linear_backoff
    (W : Type) (h : handler ev W) (rq : VoteSubmissionRequest) (s : service) (w : W)
    (resp : VoteSubmissionResponse) :
  let r := run h (submitVote rq) s w in
  let id := submission_id rq (h _ MathRandom w).1 in
  let count := or_zero (retryAttempts s !! id) in
  outcome r = inr resp -> rs_success resp = false -> count < maxRetries ->
  st_status <$> statusCache (final r) !! id = Some failed /\
  st_error <$> statusCache (final r) !! id = Some (rs_error resp) /\
  retryAttempts (final r) !! id = Some (count + 1) /\
  timers (final r) = (timers s ++ [{| retries := id; delay := 5000 * (count + 1) |}])%list /\
  rs_retryAfter resp = Some (5000 * (count + 1)).
Proof.
  cbn zeta. intros Hout Hfail Hcount.
  destruct (outcome (run h (attempt (submission_id rq (h _ MathRandom w).1) rq) s
                       (h _ MathRandom w).2))
    as [t|resp'] eqn:Ha.
  - destruct (attempt_throws h _ rq s _ _ Ha) as [[msg ->] _].
    destruct (submitVote_after_throw h rq s w msg Ha) as (Hr & _ & _ & Hst & Herr & Hre & Hti & _).
    apply Z.ltb_lt in Hcount. rewrite Hcount in Hr, Hre, Hti.
    rewrite Hout in Hr. injection Hr as ->. done.
  - destruct (submitVote_after_return h rq s w resp' Ha) as (Hr & _).
    destruct (attempt_returns h _ rq s _ _ Ha) as (Hok & _).
    congruence.
Qed.

Lemma failed_attempt_is_retried_witness :
  let r := run (scripted false false false) (submitVote ballot) new_service 0%nat in
  timers (final r) = [{| retries := "vote_loyw3v28_0"; delay := 5000 |}]
  /\ rs_retryAfter <$> response_of r = Some (Some 5000).
Proof.
  pose proof (failed_attempt_is_retried_with_linear_backoff nat (scripted false false false)
                ballot new_service 0%nat (retry_response "Backend service unavailable" 0)) as H.
  cbn zeta in H.
  destruct H as (_ & _ & _ & H & _); [vm_compute; reflexivity | reflexivity | reflexivity |].
  split; [exact H | vm_compute; reflexivity].
Defined.

(** C4, as the claim has it, fails: the backend is unavailable (a retryable
    error) and the retry count is [0 < maxRetries]; after the failed attempt
    the record is [failed], not [pending]. *)
Lemma failed_attempt_is_not_pending :
  let r := run (scripted false false false) (submitVote ballot) new_service 0%nat in
  rs_error <$> response_of r = Some (Some "Backend service unavailable")
  /\ or_zero (retryAttempts new_service !! "vote_loyw3v28_0") = 0
  /\ st_status <$> statusCache (final r) !! "vote_loyw3v28_0" = Some failed
  /\ st_status <$> statusCache (final r) !! "vote_loyw3v28_0" <> Some pending.
Proof. vm_compute. repeat split; congruence. Qed.

Lemma submitVote_trace {W : Type} (h : handler ev W) rq s w :
  trace (run h (submitVote rq) s w)
  = Obs MathRandom (h _ MathRandom w).1
    :: trace (run h (attempt (submission_id rq (h _ MathRandom w).1) rq) s (h _ MathRandom w).2).
Proof.
  destruct (outcome (run h (attempt (submission_id rq (h _ MathRandom w).1) rq) s
                       (h _ MathRandom w).2))
    as [t|resp] eqn:Ha.
  - destruct (attempt_throws h _ rq s _ _ Ha) as [[msg ->] _].
    by destruct (submitVote_after_throw h rq s w msg Ha) as (_ & -> & _).
  - by destruct (submitVote_after_return h rq s w resp Ha) as (_ & -> & _).
Qed.

(** C2, as amended: when the ledger answers "has voted" to a duplicate-vote
    query of a [submitVote] call, the call fails with the already-voted
    message, the record is [failed] and no transaction has been sent; but
    the failure is treated like any other: while the retry count stored for
    the id is below [maxRetries] a retry timer is armed. *)
Theorem ledger_reported_vote_fails_without_transaction
    (W : Type) (h : handler ev W) (rq : VoteSubmissionRequest) (s : service) (w : W) :
  let r := run h (submitVote rq) s w in
  let id := submission_id rq (h _ MathRandom w).1 in
  let count := or_zero (retryAttempts s !! id) in
  existsb reports_voted (trace r) = true ->
  outcome r = inr (if count <? maxRetries
                   then retry_response already_voted_message count
                   else failure already_voted_message) /\
  existsb is_transaction (trace r) = false /\
  st_status <$> statusCache (final r) !! id = Some failed /\
  timers (final r)
  = (if count <? maxRetries then (timers s ++ [retry_timer id count])%list else timers s) /\
  submissionQueue (final r) !! id = (if count <? maxRetries then Some rq else None).
Proof.
  cbn zeta. rewrite submitVote_trace. cbn. intros Hvoted.
  destruct (voted_report_stops_attempt h _ rq s _ Hvoted) as (Ha & Hquiet & _).
  destruct (submitVote_after_throw h rq s w _ Ha)
    as (Hr & _ & _ & Hst & _ & _ & Hti & Hq & _).
  done.
Qed.

Lemma ledger_reported_vote_witness :
  let r := run (scripted true false true) (submitVote ballot) new_service 0%nat in
  rs_error <$> response_of r = Some (Some already_voted_message)
  /\ existsb is_transaction (trace r) = false.
Proof.
  pose proof (ledger_reported_vote_fails_without_transaction nat (scripted true false true)
                ballot new_service 0%nat) as H.
  cbn zeta in H. destruct H as (H1 & H2 & _); [vm_compute; reflexivity |].
  split; [unfold response_of; rewrite H1; vm_compute; reflexivity | exact H2].
Defined.

Definition is_duplicate_query (o : obs ev) : bool :=
  match o with
  | Obs e _ => match e with HasVoterVoted _ _ => true | _ => false end
  end.

(** How many duplicate-vote queries a trace holds. *)
Definition duplicate_queries (t : list (obs ev)) : nat :=
  length (List.filter is_duplicate_query t).

(** C2, as the claim has it, fails: with the ledger reporting "has voted", the
    failed submission is scheduled for retry, and when the timer fires the
    whole attempt runs again (the ledger is asked a second time) and is
    scheduled once more. *)
Lemma already_voted_submission_is_retried :
  let first := run (scripted true false true) (submitVote ballot) new_service 0%nat in
  let later := run (scripted true false true) (lifetime [submits ballot; fires 0%nat])
                 new_service 0%nat in
  existsb reports_voted (trace first) = true
  /\ timers (final first) = [{| retries := "vote_loyw3v28_0"; delay := 5000 |}]
  /\ rs_retryAfter <$> response_of first = Some (Some 5000)
  /\ duplicate_queries (trace later) = 2%nat
  /\ length (timers (final later)) = 1%nat.
Proof. vm_compute. done. Qed.

(** An attempt on a request that is too old when validation reads the clock
    stops at validation, having asked neither the backend nor the ledger. *)
Lemma expired_attempt_stops_at_validation {W : Type} (h : handler ev W) id rq s w :
  (h _ DateNow (h _ DateNow w).2).1 - rq_timestamp rq > maxAge ->
  let r := run h (attempt id rq) s w in
  (exists msg, outcome r = inl (JsError msg)) /\
  existsb is_ledger_call (trace r) = false /\
  existsb is_fetch (trace r) = false.
Proof.
  intros Hclock. cbn zeta.
  destruct (attempt_cases h id rq s w);
    match goal with
    | H : run h (validateSubmission _) ?s0 ?w0 = _ |- _ =>
        destruct (validateSubmission_expired h rq s0 w0 Hclock) as (v' & Hv' & Hinvalid & Hl & Hf);
        rewrite H in Hv', Hl, Hf; cbn in Hv', Hl, Hf; simplify_eq
    end; try congruence.
  cbn. eauto.
Qed.

(** C7, as amended: a request whose timestamp is more than five minutes
    behind the clock when validation reads it ([now], the second reading of
    the call) is rejected by [submitVote] at validation: the call fails, its
    record is [failed], and in that call neither the backend is fetched nor
    any ledger method invoked ([submitToBlockchain] does not start).  The
    rejection is not terminal: as for any failure, a retry timer is armed
    while the retry count stored for the id is below [maxRetries]. *)
Theorem expired_request_is_rejected_at_validation
    (W : Type) (h : handler ev W) (rq : VoteSubmissionRequest) (s : service) (w : W) :
  let r := run h (submitVote rq) s w in
  let id := submission_id rq (h _ MathRandom w).1 in
  let count := or_zero (retryAttempts s !! id) in
  let now := (h _ DateNow (h _ DateNow (h _ MathRandom w).2).2).1 in
  now - rq_timestamp rq > maxAge ->
  (exists msg, outcome r = inr (if count <? maxRetries
                                then retry_response msg count else failure msg)) /\
  existsb is_ledger_call (trace r) = false /\
  existsb is_fetch (trace r) = false /\
  st_status <$> statusCache (final r) !! id = Some failed /\
  timers (final r)
  = (if count <? maxRetries then (timers s ++ [retry_timer id count])%list else timers s).
Proof.
  cbn zeta. intros Hclock. rewrite submitVote_trace. cbn.
  destruct (expired_attempt_stops_at_validation h (submission_id rq (h _ MathRandom w).1)
              rq s (h _ MathRandom w).2 Hclock) as ([msg Ha] & Hl & Hf).
  destruct (submitVote_after_throw h rq s w _ Ha) as (Hr & _ & _ & Hst & _ & _ & Hti & _).
  eauto 10.
Qed.

Lemma expired_request_witness :
  let r := run (scripted false false true) (submitVote stale_ballot) new_service 0%nat in
  rs_success <$> response_of r = Some false
  /\ existsb is_ledger_call (trace r) = false.
Proof.
  pose proof (expired_request_is_rejected_at_validation nat (scripted false false true)
                stale_ballot new_service 0%nat) as H.
  cbn zeta in H. destruct H as ([msg H1] & H2 & _).
  - reflexivity.
  - split; [unfold response_of; rewrite H1; reflexivity | exact H2].
Defined.

(** C7, as the claim has it, fails: the rejection of an expired request is
    answered with a retry delay and a retry timer is armed. *)
Lemma expired_request_is_scheduled_for_retry :
  let r := run (scripted false false true) (submitVote stale_ballot) new_service 0%nat in
  response_of r = Some (retry_response "Submission expired" 0)
  /\ timers (final r) = [{| retries := "vote_loyvr03k_0"; delay := 5000 |}]
  /\ submissionQueue (final r) !! "vote_loyvr03k_0" = Some stale_ballot.
Proof. vm_compute. done. Qed.

(** C1, as amended: a [submitVote] call ends [confirmed] only when no
    duplicate-vote query of that call was answered "has voted" and the ledger
    accepted its [castVote].  The service keeps no record per
    (electionId, voterId) and its backend-history check always answers "not
    voted", so whether a second submission for the same pair is refused rests
    on the ledger's answer alone. *)
Theorem confirmed_only_when_ledger_reports_no_vote
    (W : Type) (h : handler ev W) (rq : VoteSubmissionRequest) (s : service) (w : W)
    (resp : VoteSubmissionResponse) :
  let r := run h (submitVote rq) s w in
  let id := submission_id rq (h _ MathRandom w).1 in
  outcome r = inr resp -> rs_success resp = true ->
  existsb reports_voted (trace r) = false /\
  existsb vote_accepted (trace r) = true /\
  rs_voteId resp = Some id /\
  st_status <$> statusCache (final r) !! id = Some confirmed /\
  (forall electionId voterId s' w',
     outcome (run h (checkExistingVote electionId voterId) s' w') = inr false).
Proof.
  cbn zeta. intros Hout Hok. rewrite submitVote_trace. cbn.
  destruct (outcome (run h (attempt (submission_id rq (h _ MathRandom w).1) rq) s
                       (h _ MathRandom w).2))
    as [t|resp'] eqn:Ha.
  - destruct (attempt_throws h _ rq s _ _ Ha) as [[msg ->] _].
    destruct (submitVote_after_throw h rq s w msg Ha) as (Hr & _).
    rewrite Hout in Hr. injection Hr as ->.
    by destruct (_ <? _).
  - destruct (submitVote_after_return h rq s w resp' Ha) as (Hr & _ & _ & ->).
    destruct (attempt_returns h _ rq s _ _ Ha) as (_ & Hid & Hquiet & Hacc & now & b & at' & ->).
    rewrite Hout in Hr. injection Hr as ->.
    rewrite confirmed_state_status. done.
Qed.

Lemma confirmed_only_when_ledger_reports_no_vote_witness :
  let r := run (scripted false false true) (submitVote ballot) new_service 0%nat in
  existsb reports_voted (trace r) = false
  /\ st_status <$> statusCache (final r) !! "vote_loyw3v28_0" = Some confirmed.
Proof.
  pose proof (confirmed_only_when_ledger_reports_no_vote nat (scripted false false true)
                ballot new_service 0%nat
                {| rs_success := true; rs_voteId := Some "vote_loyw3v28_0";
                   rs_transactionHash := Some "0xfeed"; rs_blockNumber := Some 42;
                   rs_confirmationId := Some "confirm_1700000012000_2";
                   rs_message := Some "Vote submitted successfully";
                   rs_error := None; rs_retryAfter := None |}) as H.
  cbn zeta in H.
  destruct H as (H1 & _ & _ & H2 & _); [vm_compute; reflexivity | reflexivity |].
  split; [exact H1 | exact H2].
Defined.

(** ** Registration before voting *)

(** Run one after the other, the operations of a lifetime cast votes only
    after registration. *)
Lemma lifetime_is_ordered {W : Type} (h : handler ev W) ops s w :
  ordered_after [] (trace (run h (lifetime ops) s w)).
Proof. apply lawful_from_run, lawful_lifetime. Qed.

(** X23.  The order of the calls, in any execution of the event loop (any
    number of [submitVote] calls, cancellations and retry-timer firings,
    interleaved in any way, from any state of the service and in any
    environment): every [castVote] call comes after a registration query for
    the contract and address of its request that answered [true], or after a
    [registerVoter] call on that contract that reported success (whichever
    task made it: the call names no address). *)
Theorem castVote_comes_after_registration_evidence
    (W : Type) (h : handler ev W) (turns : list turn) (s : service) (w : W)
    (pre post : list (obs ev)) (request : BlockchainVoteRequest)
    (answer : thrown + BlockchainVoteResponse) :
  event_loop h turns [] s w = (pre ++ Obs (CastVote request) answer :: post)%list ->
  Exists (registration_evidence (bq_contractAddress request) (bq_voterAddress request)) pre.
Proof.
  intros Ht.
  pose proof (event_loop_ordered h turns [] s w [] (Forall_nil_2 _)) as Hord.
  rewrite Ht in Hord.
  by apply (ordered_after_split [] pre _ post request) in Hord.
Qed.

(** Two submissions of the same ballot begin together and take turns. *)
Definition two_at_once : list turn :=
  begins (submits ballot) :: begins (submits ballot)
  :: flat_map (fun _ => [resumes 0%nat; resumes 1%nat]) (seq 0 15).

Lemma castVote_comes_after_registration_evidence_witness :
  Exists (registration_evidence "0xE1ec" "0xA11ce")
    (firstn 20 (event_loop (scripted false false true) two_at_once [] new_service 0%nat)).
Proof.
  apply (castVote_comes_after_registration_evidence nat (scripted false false true)
           two_at_once new_service 0%nat
           (firstn 20 (event_loop (scripted false false true) two_at_once [] new_service 0%nat))
           (skipn 21 (event_loop (scripted false false true) two_at_once [] new_service 0%nat))
           {| bq_electionId := "election-1"; bq_candidateId := "2";
              bq_voterAddress := "0xA11ce"; bq_contractAddress := "0xE1ec" |}
           (inr receipt)).
  vm_compute. reflexivity.
Defined.

(** *** Whose vote it is

    [submitToBlockchain] asks about, and passes to [castVote], the address of
    the wallet it connected.  [registerVoter] and [castVote] do not take the
    wallet from their caller: they use [this.wallet] of the singleton, as it
    is when they run. *)

(** A node that also keeps the list of the calls it has answered. *)
Definition recording {Wn : Type} (node : handler eth Wn) : handler eth (Wn * list (obs eth)) :=
  fun X e '(wn, answered) =>
    let a := node X e wn in (a.1, (a.2, (answered ++ [Obs e a.1])%list)).

(** What a call to the node says about registration and votes: a query of
    the [voters] mapping with its answer, or a transaction with the address
    of the wallet that signs it. *)
Inductive ledger_call : Type :=
| asks_voters (voterAddress : string) (answer : thrown + bool)
| signs_registration (signer voter : string)
| signs_vote (signer : string) (candidateId : number).

Definition ledger_call_of (o : obs eth) : option ledger_call :=
  match o with
  | Obs e x =>
      match e in eth X return X -> option ledger_call with
      | Voters _ voterAddress => fun x => Some (asks_voters voterAddress x)
      | SendRegisterVoter signer _ voter _ =>
          fun _ => Some (signs_registration (wallet_address signer) voter)
      | SendVote signer _ candidateId _ =>
          fun _ => Some (signs_vote (wallet_address signer) candidateId)
      | _ => fun _ => None
      end x
  end.

(** The request of the [castVote] call a task is about to make. *)
Definition awaited_castVote {R : Type} (p : paused ev service R)
    : option BlockchainVoteRequest :=
  match p with
  | Awaiting e _ => match e with CastVote request => Some request | _ => None end
  | Finished _ => None
  end.

(** A node on which nobody is registered: the wallet of a key has the key in
    its address, [voters] answers [false], and every transaction is mined. *)
Definition fresh_node : handler eth unit :=
  fun X e _ =>
    match e in eth X return X * unit with
    | NewWallet key => (inr {| wallet_address := "0x" ++ key |}, tt)
    | GetBalance _ => (inr 1000000000000000000, tt)
    | Voters _ _ => (inr false, tt)
    | SendRegisterVoter _ _ _ _ => (inr "0xbeef", tt)
    | SendVote _ _ _ _ => (inr "0xfeed", tt)
    | Wait tx =>
        (inr {| receipt_hash := tx; receipt_blockNumber := 42; receipt_gasUsed := 21000 |}, tt)
    end.

(** The application environment [scripted], with a backend whose profile
    carries the key of the user the token belongs to. *)
Definition keyed_backend : handler ev nat :=
  fun X e n =>
    match e in ev X return X * nat with
    | Fetch _ token =>
        (inr {| ok := true; statusText := "OK";
                json := inr {| contract_address := Some "0xE1ec";
                               encrypted_private_key := Some ("key-" ++ template token) |} |},
         S n)
    | DateNow => scripted false false true _ DateNow n
    | MathRandom => scripted false false true _ MathRandom n
    | Sleep ms => scripted false false true _ (Sleep ms) n
    | ConnectWallet key => scripted false false true _ (ConnectWallet key) n
    | HasVoterVoted c a => scripted false false true _ (HasVoterVoted c a) n
    | IsVoterRegistered c a => scripted false false true _ (IsVoterRegistered c a) n
    | RegisterVoter c => scripted false false true _ (RegisterVoter c) n
    | CastVote request => scripted false false true _ (CastVote request) n
    end.

Definition ballot_of_alice : VoteSubmissionRequest :=
  {| rq_electionId := "election-1"; rq_candidateId := "2"; rq_voterId := "alice";
     rq_verificationCode := Some "123456"; rq_biometricHash := Some "b10";
     rq_deviceId := Some "mobile-device"; rq_timestamp := 1700000000000;
     rq_voterAddress := None; rq_token := Some "alice" |}.

Definition ballot_of_bob : VoteSubmissionRequest :=
  {| rq_electionId := "election-1"; rq_candidateId := "1"; rq_voterId := "bob";
     rq_verificationCode := Some "654321"; rq_biometricHash := Some "b0b";
     rq_deviceId := Some "mobile-device"; rq_timestamp := 1700000000000;
     rq_voterAddress := None; rq_token := Some "bob" |}.

(** C5 fails on the code: a vote is sent for an identity that is not
    registered.  Two [submitVote] calls are in flight on the singleton.
    Alice's call has connected her wallet, found her address neither voted
    nor registered, had her registration mined, and is about to call
    [castVote] with her address in the request.  Meanwhile Bob's call has
    fetched his key and connected his wallet (in JavaScript:
    [connectWallet] assigns [this.wallet] while Alice's call awaits her
    registration transaction).  Alice's [castVote] then signs with
    [this.wallet], which is Bob's: the vote for Alice's candidate is sent
    from Bob's address, for which no registration query has answered [true]
    and no registration has been sent, and her call ends in success.  When
    Bob's call goes on, his address is registered only then, and his own
    vote is the second one his wallet signs. *)
Theorem vote_is_signed_by_a_wallet_nobody_registered :
  let env := linked (recording fresh_node) keyed_backend in
  let calls (w : chain * (unit * list (obs eth)) * nat) := omap ledger_call_of w.1.2.2 in
  let '(alice, s1, w1) :=
    run_until 10 env (submitVote ballot_of_alice) new_service (connected_chain, (tt, []), 0%nat) in
  let '(bob, s2, w2) := run_until 7 env (submitVote ballot_of_bob) s1 w1 in
  let voted := run env (rest alice) s2 w2 in
  let finished := run env (rest bob) (final voted) (world voted) in
  bq_voterAddress <$> awaited_castVote alice = Some "0xkey-alice"
  /\ wallet w1.1.1 = Some {| wallet_address := "0xkey-alice" |}
  /\ calls w1 = [asks_voters "0xkey-alice" (inr false); asks_voters "0xkey-alice" (inr false);
                 signs_registration "0xkey-alice" "0xkey-alice"]
  /\ wallet w2.1.1 = Some {| wallet_address := "0xkey-bob" |}
  /\ calls w2 = calls w1
  /\ calls (world voted) = (calls w1 ++ [signs_vote "0xkey-bob" (integer 2)])%list
  /\ rs_success <$> response_of voted = Some true
  /\ calls (world finished)
     = (calls (world voted)
        ++ [asks_voters "0xkey-bob" (inr false); asks_voters "0xkey-bob" (inr false);
            signs_registration "0xkey-bob" "0xkey-bob"; signs_vote "0xkey-bob" (integer 1)])%list.
Proof. vm_compute. done. Qed.

(** ** Cancellation *)

Definition awaits_castVote {R : Type} (p : paused ev service R) : bool :=
  match p with
  | Awaiting e _ => match e with CastVote _ => true | _ => false end
  | Finished _ => false
  end.

(** C9, as amended: [cancelSubmission] succeeds exactly when the id is in the
    submission queue, whatever the status of its record ([pending],
    [processing] while the call is in flight, or [failed] while a retry timer
    is armed).  Then the id leaves the queue and the retry counts, its record
    (if any) becomes [rejected], and armed timers stay armed.  When the id is
    not in the queue the call returns [false] and changes nothing. *)
Theorem cancel_succeeds_exactly_when_queued (voteId : string) (s : service) :
  let r := cancelSubmission voteId s in
  (r.1 = true <-> is_Some (submissionQueue s !! voteId)) /\
  (r.1 = false -> r.2 = s) /\
  (r.1 = true ->
   submissionQueue r.2 !! voteId = None /\
   retryAttempts r.2 !! voteId = None /\
   timers r.2 = timers s /\
   (is_Some (statusCache s !! voteId) ->
    st_status <$> statusCache r.2 !! voteId = Some rejected)).
Proof.
  cbn zeta. unfold cancelSubmission.
  destruct (submissionQueue s !! voteId) as [rq|] eqn:Hq; cbn.
  - split; [by eauto|]. split; [done|]. intros _.
    rewrite submissionQueue_updateStatus, retryAttempts_updateStatus, timers_updateStatus.
    cbn. rewrite !lookup_delete_eq. repeat split.
    intros Hst. by apply status_updateStatus.
  - split; [|done]. split; [done|]. by intros [? ?].
Qed.

(** C9, as the claim has it, fails: a submission that is mid-flight (status
    [processing], the task waiting for the ledger to answer [castVote]) is
    cancelled successfully; when the ledger then answers, the task goes on
    and overwrites [rejected] with [confirmed]. *)
Lemma cancel_succeeds_mid_flight :
  let '(p, s, w) := run_until 10 (scripted false false true) (submitVote ballot)
                      new_service 0%nat in
  let cancelled := cancelSubmission "vote_loyw3v28_0" s in
  let resumed := run (scripted false false true) (rest p) cancelled.2 w in
  awaits_castVote p = true
  /\ st_status <$> statusCache s !! "vote_loyw3v28_0" = Some processing
  /\ cancelled.1 = true
  /\ st_status <$> statusCache cancelled.2 !! "vote_loyw3v28_0" = Some rejected
  /\ rs_success <$> response_of resumed = Some true
  /\ st_status <$> statusCache (final resumed) !! "vote_loyw3v28_0" = Some confirmed.
Proof. vm_compute. done. Qed.

(** ** What [submitVote] looks at *)

Section Stateless.
Context {E : Type -> Type} {St W : Type} (h : handler E W).

(** A program that neither reads nor writes the object's fields. *)
Fixpoint stateless {R : Type} (p : prog E St R) : Prop :=
  match p with
  | Ret _ | Throw _ => True
  | Get _ | Put _ _ => False
  | Call _ k => forall x, stateless (k x)
  end.

Definition relocated {R : Type} (s : St) (r : result E St W R) : result E St W R :=
  mkResult (outcome r) s (world r) (trace r).

Lemma stateless_run {R : Type} (p : prog E St R) s s' w :
  stateless p -> run h p s w = relocated s (run h p s' w).
Proof.
  revert w. induction p as [a|t|k IH|s0 k IH|X e k IH]; intros w Hp; simpl in *; try done.
  by rewrite (IH _ _ (Hp _)).
Qed.

Lemma stateless_bind {A B : Type} (p : prog E St A) (f : A -> prog E St B) :
  stateless p -> (forall a, stateless (f a)) -> stateless (p ≫= f).
Proof.
  intros Hp Hf. induction p as [a|t|k IH|s0 k IH|X e k IH]; simpl in *; try done.
  intros x. by apply IH.
Qed.

Lemma stateless_try_catch {A : Type} (p : prog E St A) c :
  stateless p -> (forall t, stateless (c t)) -> stateless (try_catch p c).
Proof.
  intros Hp Hc. induction p as [a|t|k IH|s0 k IH|X e k IH]; simpl in *; try done.
  intros x. by apply IH.
Qed.

Lemma stateless_call {X : Type} (e : E X) : stateless (call e).
Proof. by intros x. Qed.

Lemma stateless_await {X : Type} (e : E (thrown + X)) : stateless (await e).
Proof. by intros [t|x]. Qed.
End Stateless.

Ltac stateless_step :=
  lazymatch goal with
  | |- stateless (Ret _) => exact I
  | |- stateless (mret _) => exact I
  | |- stateless (Throw _) => exact I
  | |- stateless (call _) => apply stateless_call
  | |- stateless (await _) => apply stateless_await
  | |- stateless (settle ?x) => destruct x; exact I
  | |- stateless (_ ≫= _) => apply stateless_bind; [|intros ?]
  | |- stateless (try_catch _ _) => apply stateless_try_catch; [|intros ?]
  | |- stateless (if ?b then _ else _) => destruct b
  | |- stateless (match ?x with Some _ => _ | None => _ end) => destruct x
  | |- stateless (let _ := _ in _) => cbv zeta
  end.

Section Independence.
Context {W : Type} (h : handler ev W).

Lemma stateless_validateSubmission rq : stateless (validateSubmission rq).
Proof.
  unfold validateSubmission, blockchain_precheck, checkExistingVote. repeat stateless_step.
Qed.

Lemma stateless_submitToBlockchain rq : stateless (submitToBlockchain rq).
Proof. unfold submitToBlockchain. repeat stateless_step. Qed.

Lemma stateless_submitToBackend rq tx : stateless (submitToBackend rq tx).
Proof. unfold submitToBackend. repeat stateless_step. Qed.

(** What an attempt returns or throws, what it asks the outside world and in
    which order do not depend on the state of the service. *)
Lemma attempt_ignores_state id rq s s' w :
  let r := run h (attempt id rq) s w in
  let r' := run h (attempt id rq) s' w in
  outcome r = outcome r' /\ trace r = trace r' /\ world r = world r'.
Proof.
  unfold attempt. cbn. rewrite !run_mbind.
  rewrite (stateless_run h (validateSubmission rq) _ s' _ (stateless_validateSubmission rq)).
  rewrite (stateless_run h (validateSubmission rq)
             (with_statusCache _ (with_submissionQueue _ s')) s' _
             (stateless_validateSubmission rq)).
  destruct (run h (validateSubmission rq) s' _) as [[t|v] sv wv tv]; cbn; [done|].
  unfold then_run, relocated; cbn.
  destruct (valid v); cbn; [|done].
  rewrite !run_mbind.
  rewrite (stateless_run h (submitToBlockchain rq) _ s' _ (stateless_submitToBlockchain rq)).
  rewrite (stateless_run h (submitToBlockchain rq) (updateStatus _ _ _ (with_statusCache _ (with_submissionQueue _ s'))) s' _
             (stateless_submitToBlockchain rq)).
  destruct (run h (submitToBlockchain rq) s' _) as [[t|b] sb wb tb]; cbn; [done|].
  unfold then_run, relocated; cbn.
  destruct (rs_success b); cbn; [|done].
  rewrite !run_mbind.
  rewrite (stateless_run h (submitToBackend rq _) _ s' _ (stateless_submitToBackend rq _)).
  rewrite (stateless_run h (submitToBackend rq _) (updateStatus _ _ _ (with_statusCache _ (with_submissionQueue _ s'))) s' _
             (stateless_submitToBackend rq _)).
  destruct (run h (submitToBackend rq _) s' _) as [[t|k] sk wk tk]; cbn; [done|].
  unfold then_run, relocated; cbn.
  destruct (rs_success k); cbn; done.
Qed.
End Independence.

(** C6, as amended: [submitVote] makes no in-flight check.  What a call
    answers, what it asks the clock, the backend and the ledger, and in which
    order, do not depend on the submission queue or the status cache: the one
    field that bears on the response is the retry count stored for the id
    generated for this call.  A second call for a pair already in flight is
    therefore enqueued and processed like the first. *)
Theorem submitVote_ignores_submissions_in_flight
    (W : Type) (h : handler ev W) (rq : VoteSubmissionRequest) (s s' : service) (w : W) :
  let id := submission_id rq (h _ MathRandom w).1 in
  retryAttempts s !! id = retryAttempts s' !! id ->
  let r := run h (submitVote rq) s w in
  let r' := run h (submitVote rq) s' w in
  outcome r = outcome r' /\ trace r = trace r' /\ world r = world r'.
Proof.
  cbn zeta. intros Hcount.
  destruct (attempt_ignores_state h (submission_id rq (h _ MathRandom w).1) rq s s'
              (h _ MathRandom w).2) as (Ho & Ht & Hw).
  destruct (outcome (run h (attempt (submission_id rq (h _ MathRandom w).1) rq) s
                       (h _ MathRandom w).2))
    as [t|resp] eqn:Ha; symmetry in Ho.
  - destruct (attempt_throws h _ rq s _ _ Ha) as [[msg ->] _].
    destruct (submitVote_after_throw h rq s w msg Ha) as (-> & -> & -> & _).
    destruct (submitVote_after_throw h rq s' w msg Ho) as (-> & -> & -> & _).
    by rewrite Hcount, Ht, Hw.
  - destruct (submitVote_after_return h rq s w resp Ha) as (-> & -> & -> & _).
    destruct (submitVote_after_return h rq s' w resp Ho) as (-> & -> & -> & _).
    by rewrite Ht, Hw.
Qed.

(** The service with one submission of [ballot] mid-flight: the first call
    waits for the ledger to answer [castVote]. *)
Definition first_in_flight : paused ev service VoteSubmissionResponse * service * nat :=
  run_until 10 (scripted false false true) (submitVote ballot) new_service 0%nat.

Lemma submitVote_ignores_submissions_in_flight_witness :
  let '(_, s, w) := first_in_flight in
  outcome (run (scripted false false true) (submitVote ballot) s w)
  = outcome (run (scripted false false true) (submitVote ballot) new_service w).
Proof.
  pose proof (submitVote_ignores_submissions_in_flight nat (scripted false false true) ballot
                first_in_flight.1.2 new_service first_in_flight.2) as H.
  cbn zeta in H. destruct H as (H & _); [vm_compute; reflexivity |].
  exact H.
Defined.

(** C6, as the claim has it, fails: while a submission of a ballot is
    mid-flight ([processing], waiting for [castVote]), a second [submitVote]
    for the same election and voter is enqueued next to it, reaches
    [processing] as well, and completes successfully; so does the first. *)
Lemma second_submission_runs_beside_the_first :
  let '(p1, s1, w1) := first_in_flight in
  let '(p2, s2, w2) := run_until 10 (scripted false false true) (submitVote ballot) s1 w1 in
  let r2 := run (scripted false false true) (rest p2) s2 w2 in
  let r1 := run (scripted false false true) (rest p1) (final r2) (world r2) in
  awaits_castVote p1 = true /\ awaits_castVote p2 = true
  /\ st_status <$> statusCache s1 !! "vote_loyw3v28_0" = Some processing
  /\ submissionQueue s2 !! "vote_loyw3v28_0" = Some ballot
  /\ submissionQueue s2 !! "vote_loyw3v28_10" = Some ballot
  /\ st_status <$> statusCache s2 !! "vote_loyw3v28_0" = Some processing
  /\ st_status <$> statusCache s2 !! "vote_loyw3v28_10" = Some processing
  /\ rs_success <$> response_of r2 = Some true
  /\ rs_success <$> response_of r1 = Some true
  /\ getStatistics (final r1) confirmed = 2%nat.
Proof. vm_compute. done. Qed.

(** ** Numerals and separators *)

Lemma string_app_length (s1 s2 : string) :
  String.length (s1 ++ s2) = (String.length s1 + String.length s2)%nat.
Proof.
  induction s1 as [|a s1 IH]; [done|].
  change (S (String.length (s1 ++ s2)) = S (String.length s1 + String.length s2)).
  by rewrite IH.
Qed.

(** The string has no character [c]. *)
Fixpoint avoids (c : ascii) (s : string) : Prop :=
  match s with
  | EmptyString => True
  | String c' s' => c' <> c /\ avoids c s'
  end.

(** Two strings cut at their first underscore. *)
Lemma split_at_underscore (a a' b b' : string) :
  avoids "_" a -> avoids "_" a' ->
  a ++ String "_" b = a' ++ String "_" b' -> a = a' /\ b = b'.
Proof.
  revert a'. induction a as [|x a IH]; intros [|x' a'] Ha Ha' H.
  - by injection H as ->.
  - change (String "_" b = String x' (a' ++ String "_" b')) in H.
    injection H as <- _. by destruct Ha'.
  - change (String x (a ++ String "_" b) = String "_" b') in H.
    injection H as -> _. by destruct Ha.
  - change (String x (a ++ String "_" b) = String x' (a' ++ String "_" b')) in H.
    injection H as -> H. destruct Ha as [_ Ha], Ha' as [_ Ha'].
    by destruct (IH a' Ha Ha' H) as [-> ->].
Qed.
Definition is_digit (c : ascii) : bool :=
  ((48 <=? N_of_ascii c) && (N_of_ascii c <=? 57))%N.

Fixpoint all_digits (s : string) : Prop :=
  match s with
  | EmptyString => True
  | String c s' => is_digit c = true /\ all_digits s'
  end.

Lemma pretty_N_char_is_digit (x : N) : is_digit (pretty_N_char x) = true.
Proof. unfold pretty_N_char. by repeat case_match. Qed.

Lemma pretty_N_char_value (x : N) :
  (x < 10)%N -> digit_value 10 (pretty_N_char x) = Some x.
Proof.
  intros Hx.
  assert (x = 0 \/ x = 1 \/ x = 2 \/ x = 3 \/ x = 4 \/ x = 5 \/ x = 6 \/ x = 7 \/ x = 8
          \/ x = 9)%N as Hcases by lia.
  by destruct_or!; subst x.
Qed.

Lemma pretty_N_go_digits (x : N) (s : string) : all_digits s -> all_digits (pretty_N_go x s).
Proof.
  revert s. induction (N.lt_wf_0 x) as [x _ IH]; intros s Hs.
  destruct (decide (x = 0)%N) as [->|Hx]; [by rewrite pretty_N_go_0|].
  rewrite pretty_N_go_step by lia.
  apply IH; [apply N.div_lt; lia|]. split; [apply pretty_N_char_is_digit|done].
Qed.

Lemma digits_avoid_underscore (s : string) : all_digits s -> avoids "_" s.
Proof.
  induction s as [|c s IH]; [done|]. intros [Hc Hs]. split; [|by apply IH].
  intros ->. discriminate Hc.
Qed.

(** The decimal numeral of an integer has no underscore. *)
Lemma pretty_avoids_underscore (z : Z) : avoids "_" (pretty z).
Proof.
  assert (forall p, avoids "_" (pretty_N_go (N.pos p) "")) as Hpos.
  { intros p. apply digits_avoid_underscore, pretty_N_go_digits. exact I. }
  destruct z as [|p|p].
  - by split.
  - apply Hpos.
  - split; [done|]. apply Hpos.
Qed.

(** ** The backend confirmation *)

(** The confirmation id of a successful backend step, from the clock reading. *)
Definition confirmationId_at (now : Z) (request : VoteSubmissionRequest) : string :=
  "confirm_" ++ pretty now ++ "_" ++ rq_candidateId request.

(** C8, as amended: [submitToBackend] is a mock that records nothing: it
    leaves the service unchanged and calls nothing but the pause, the clock
    and the random source.  When it succeeds, its [confirmationId] is made of
    the clock reading and the candidate id alone: [electionId], [voterId] and
    [transactionHash] play no part.  So two calls, for whatever requests and
    transaction hashes, return the same id exactly when they read the same
    clock value and their requests name the same candidate. *)
Theorem confirmation_id_is_clock_and_candidate
    (W : Type) (h : handler ev W) (rq rq' : VoteSubmissionRequest) (tx tx' : option string)
    (s s' : service) (w w' : W) :
  let r := run h (submitToBackend rq tx) s w in
  let r' := run h (submitToBackend rq' tx') s' w' in
  let now := (h _ DateNow (h _ (Sleep 1000) w).2).1 in
  let now' := (h _ DateNow (h _ (Sleep 1000) w').2).1 in
  final r = s /\
  existsb is_fetch (trace r) = false /\ existsb is_ledger_call (trace r) = false /\
  (exists resp, outcome r = inr resp /\
     (rs_success resp = true -> rs_confirmationId resp = Some (confirmationId_at now rq))) /\
  (forall resp resp',
     outcome r = inr resp -> outcome r' = inr resp' ->
     rs_success resp = true -> rs_success resp' = true ->
     (rs_confirmationId resp = rs_confirmationId resp'
      <-> now = now' /\ rq_candidateId rq = rq_candidateId rq')).
Proof.
  cbn zeta.
  rewrite (submitToBackend_spec h rq tx s w), (submitToBackend_spec h rq' tx' s' w'). cbn.
  split_and!; [done..| |].
  - eexists. split; [reflexivity|]. by destruct (above_2_percent _).
  - intros resp resp' [= <-] [= <-].
    destruct (above_2_percent _); [|done]. destruct (above_2_percent _); [|done].
    cbn. intros _ _. split.
    + intros H. apply (inj Some) in H.
      apply (inj (String.app "confirm_")) in H.
      apply split_at_underscore in H as [H ?]; [|apply pretty_avoids_underscore..].
      by apply (inj pretty) in H.
    + by intros [-> ->].
Qed.

(** C8, as the claim has it, fails: two backend confirmations of the same
    ballot with the same transaction hash, three clock ticks apart, return
    different confirmation ids. *)
Lemma same_submission_gets_two_confirmation_ids :
  let first := run (scripted false false true) (submitToBackend ballot (Some "0xfeed"))
                 new_service 0%nat in
  let second := run (scripted false false true) (submitToBackend ballot (Some "0xfeed"))
                  (final first) (world first) in
  rs_confirmationId <$> response_of first = Some (Some "confirm_1700000001000_2")
  /\ rs_confirmationId <$> response_of second = Some (Some "confirm_1700000004000_2")
  /\ rs_confirmationId <$> response_of first <> rs_confirmationId <$> response_of second.
Proof. vm_compute. repeat split; congruence. Qed.

(** ** The duplicate-vote query *)

(** C10: [hasVoterVoted] never propagates an error.  It leaves the service
    untouched and always resolves to a boolean: [false] without any call when
    the provider is not initialized, [false] when the contract call throws,
    and the contract's answer otherwise.  A failed check therefore gives the
    caller exactly what a "has not voted" report gives. *)
Theorem hasVoterVoted_never_throws
    (W : Type) (h : handler eth W) (contractAddress voterAddress : string)
    (s : chain) (w : W) :
  let r := run h (hasVoterVoted contractAddress voterAddress) s w in
  let answer := (h _ (Voters contractAddress voterAddress) w).1 in
  final r = s /\
  outcome r = inr match provider s, answer with
                  | None, _ => false
                  | Some _, inl _ => false
                  | Some _, inr hasVoted => hasVoted
                  end /\
  trace r = match provider s with
            | None => []
            | Some _ => [Obs (Voters contractAddress voterAddress) answer]
            end.
Proof.
  cbn zeta. unfold hasVoterVoted. cbn.
  destruct (provider s); cbn; [|done].
  by destruct (h _ (Voters contractAddress voterAddress) w) as [[t|b] w'].
Qed.

(** ** One voter, two confirmed records *)

(** C1, as the claim has it, fails: the same voter submits the same ballot
    twice.  The node answers the first submission normally; at the second,
    the duplicate-vote query times out once, which [hasVoterVoted] turns into
    "has not voted", and the node accepts the second [vote] transaction.  The
    second call passes validation and both records end [confirmed]. *)
Lemma same_voter_confirmed_twice :
  let env := linked flaky_node (scripted false false true) in
  let first := run env (submitVote ballot) new_service (connected_chain, 0%nat, 0%nat) in
  let second := run env (submitVote ballot) (final first) (world first) in
  (flaky_node _ (Voters "0xE1ec" "0xA11ce") 10%nat).1 = inl (JsError "timeout")
  /\ rs_success <$> response_of first = Some true
  /\ rs_success <$> response_of second = Some true
  /\ existsb reports_voted (trace second) = false
  /\ st_status <$> statusCache (final second) !! "vote_loyw3v28_0" = Some confirmed
  /\ st_status <$> statusCache (final second) !! "vote_loyw3v28_10" = Some confirmed
  /\ getStatistics (final second) confirmed = 2%nat.
Proof. vm_compute. done. Qed.

(** ** The retry budget *)

(** The request the voting hook builds: it carries no verification code, so
    validation rejects it on every attempt. *)
Definition hook_request : VoteSubmissionRequest :=
  {| rq_electionId := "election-1"; rq_candidateId := "2"; rq_voterId := "voter-7";
     rq_verificationCode := None; rq_biometricHash := None; rq_deviceId := None;
     rq_timestamp := 1700000000000; rq_voterAddress := Some "0xA11ce";
     rq_token := Some "jwt" |}.

(** An environment whose world counts the random draws: the [n]-th draw has
    base-36 digits [digits n].  The clock stands still and nothing else
    answers. *)
Definition drawing (digits : nat -> string) : handler ev nat :=
  fun X e n =>
    match e in ev X return X * nat with
    | MathRandom => ({| base36_digits := digits n; above_2_percent := true |}, S n)
    | DateNow => (1700000000000, n)
    | Sleep _ => (tt, n)
    | Fetch _ _ => (inl (JsError "Network request failed"), n)
    | ConnectWallet _ => (inl (JsError "Failed to connect wallet: offline"), n)
    | HasVoterVoted _ _ => (inr false, n)
    | IsVoterRegistered _ _ => (inr false, n)
    | RegisterVoter _ => (inr (error_response "Registration failed"), n)
    | CastVote _ => (inr (error_response "Vote casting failed"), n)
    end.

Section Budget.
Context {W : Type} (h : handler ev W).

Lemma perform_returns op s w : outcome (run h (perform op) s w) = inr tt.
Proof.
  destruct op as [rq|id|n]; unfold perform.
  - rewrite run_try_catch, run_mbind.
    destruct (submitVote_returns h rq s w) as [resp Hr].
    destruct (run h (submitVote rq) s w) as [o sf wf tf]. cbn in Hr. by subst o.
  - done.
  - unfold timer_fires. cbn. destruct (timers s !! n) as [t|]; cbn; [|done].
    unfold retrySubmission. cbn.
    destruct (submissionQueue _ !! _) as [rq|]; cbn; [|done].
    rewrite run_try_catch, run_mbind.
    destruct (submitVote_returns h rq (with_timers (delete n) s) w) as [resp Hr].
    destruct (run h (submitVote rq) _ w) as [o sf wf tf]. cbn in Hr. by subst o.
Qed.

Lemma lifetime_snoc ops op s w :
  let before := run h (lifetime ops) s w in
  let last := run h (perform op) (final before) (world before) in
  let r := run h (lifetime (ops ++ [op])%list) s w in
  outcome before = inr tt /\ final r = final last /\ world r = world last.
Proof.
  cbn zeta. revert s w. induction ops as [|op' ops IH]; intros s w; cbn.
  - rewrite run_mbind. pose proof (perform_returns op s w) as Hop.
    destruct (run h (perform op) s w) as [o sf wf tf]. cbn in Hop. subst o. done.
  - rewrite !run_mbind. pose proof (perform_returns op' s w) as Hop.
    destruct (run h (perform op') s w) as [o sf wf tf]. cbn in Hop. subst o. cbn.
    apply IH.
Qed.
End Budget.

(** ** Expired requests over the retries *)

(** For [rq] every reading of the clock is past the expiry window. *)
Definition stays_expired {W : Type} (h : handler ev W) (rq : VoteSubmissionRequest) : Prop :=
  forall w, (h _ DateNow w).1 - rq_timestamp rq > maxAge.

(** Every armed timer retries a request that is, and stays, expired. *)
Definition retries_only_expired {W : Type} (h : handler ev W) (s : service) : Prop :=
  forall t rq, t ∈ timers s -> submissionQueue s !! retries t = Some rq -> stays_expired h rq.

(** The run reached neither the ledger nor the backend. *)
Definition stays_local {W R : Type} (r : result ev service W R) : Prop :=
  existsb is_ledger_call (trace r) = false /\ existsb is_fetch (trace r) = false.

Section Expiry.
Context {W : Type} (h : handler ev W).

Lemma absorbed {R : Type} (p : task R) s w :
  let r := run h p s w in
  let r' := run h (try_catch (p;; mret tt) (fun _ => mret tt)) s w in
  outcome r' = inr tt /\ final r' = final r /\ world r' = world r /\ trace r' = trace r.
Proof.
  cbn zeta. rewrite run_try_catch, run_mbind.
  destruct (run h p s w) as [[t|a] sf wf tf]; cbn; rewrite ?app_nil_r; done.
Qed.

Lemma expired_submitVote rq s w :
  stays_expired h rq -> retries_only_expired h s ->
  let r := run h (submitVote rq) s w in
  retries_only_expired h (final r) /\ stays_local r.
Proof.
  intros Hexp Hinv. cbn zeta.
  set (id := submission_id rq (h _ MathRandom w).1).
  destruct (expired_attempt_stops_at_validation h id rq s (h _ MathRandom w).2 (Hexp _))
    as ([msg Ha] & Hl & Hf).
  destruct (submitVote_after_throw h rq s w msg Ha)
    as (_ & Htr & _ & _ & _ & _ & Hti & _ & _ & Hq).
  fold id in Htr, Hti, Hq. split.
  - intros t rq' Ht Hrq'. rewrite Hti in Ht. rewrite Hq in Hrq'.
    destruct (or_zero (retryAttempts s !! id) <? maxRetries).
    + apply lookup_insert_Some in Hrq' as [[_ <-]|[Hne Hrq']]; [done|].
      apply elem_of_app in Ht as [Ht|Ht]; [by eapply Hinv|].
      apply list_elem_of_singleton in Ht. by subst t.
    + apply lookup_delete_Some in Hrq' as [Hne Hrq'].
      rewrite lookup_insert_ne in Hrq' by done. by eapply Hinv.
  - unfold stays_local. rewrite Htr. done.
Qed.

Lemma expired_perform n s w :
  retries_only_expired h s ->
  let r := run h (perform (fires n)) s w in
  retries_only_expired h (final r) /\ stays_local r.
Proof.
  intros Hinv. cbn zeta. unfold perform, timer_fires. cbn.
  destruct (timers s !! n) as [t|] eqn:Ht; cbn; [|done].
  assert (retries_only_expired h (with_timers (delete n) s)) as Hinv'.
  { intros t' rq' Ht' Hrq'. apply (Hinv t' rq'); [|done].
    by apply (list_subseteq_delete n (timers s)). }
  unfold retrySubmission. cbn.
  destruct (submissionQueue s !! retries t) as [rq|] eqn:Hrq; cbn; [|done].
  destruct (absorbed (submitVote rq) (with_timers (delete n) s) w) as (_ & Hs & _ & Htr).
  cbn zeta in Hs, Htr.
  assert (stays_expired h rq) as Hexp
    by (apply (Hinv t rq); [by eapply list_elem_of_lookup_2|done]).
  destruct (expired_submitVote rq _ w Hexp Hinv') as [Hinv'' [Hl Hf]].
  unfold stays_local.
  destruct (run h (try_catch _ _) _ w) as [o sf wf tf]. cbn in *. subst sf tf. done.
Qed.

Lemma expired_lifetime firings s w :
  retries_only_expired h s ->
  stays_local (run h (lifetime (fires <$> firings)) s w).
Proof.
  revert s w. induction firings as [|n firings IH]; intros s w Hinv; [done|].
  change (lifetime (fires <$> n :: firings))
    with (perform (fires n);; lifetime (fires <$> firings)).
  rewrite run_mbind.
  destruct (expired_perform n s w Hinv) as [Hinv' [Hl Hf]].
  pose proof (perform_returns h (fires n) s w) as Hop.
  destruct (run h (perform (fires n)) s w) as [o sf wf tf]. cbn in *. subst o. cbn.
  destruct (IH sf wf Hinv') as [Hl' Hf'].
  unfold stays_local. cbn. rewrite !existsb_app, Hl, Hf, Hl', Hf'. done.
Qed.
End Expiry.

(** X9.  An expired request never reaches the ledger, however often it is
    retried: with no timer armed at the start, a submission of a request
    for which every reading of the clock is more than five minutes past its
    timestamp, followed by any firings of retry timers, calls neither the
    ledger nor the backend.  (A retry re-submits the stored request with its
    original timestamp.) *)
Theorem expired_request_never_reaches_the_ledger
    {W : Type} (h : handler ev W) (rq : VoteSubmissionRequest) (firings : list nat)
    (s : service) (w : W) :
  stays_expired h rq -> timers s = [] ->
  stays_local (run h (lifetime (submits rq :: (fires <$> firings))) s w).
Proof.
  intros Hexp Hnone.
  assert (retries_only_expired h s) as Hinv.
  { intros t rq' Ht. rewrite Hnone in Ht. by apply elem_of_nil in Ht. }
  change (lifetime (submits rq :: (fires <$> firings)))
    with (perform (submits rq);; lifetime (fires <$> firings)).
  rewrite run_mbind. unfold perform.
  destruct (absorbed h (submitVote rq) s w) as (Ho & Hs & _ & Htr). cbn zeta in *.
  destruct (expired_submitVote h rq s w Hexp Hinv) as [Hinv' [Hl Hf]].
  destruct (run h (try_catch _ _) s w) as [o sf wf tf]. cbn in *. subst o sf tf. cbn.
  destruct (expired_lifetime h firings _ wf Hinv') as [Hl' Hf'].
  unfold stays_local. cbn. rewrite !existsb_app, Hl, Hf, Hl', Hf'. done.
Qed.

Lemma expired_request_never_reaches_the_ledger_witness :
  stays_local (run (scripted false true true)
                 (lifetime (submits stale_ballot :: (fires <$> [0; 0; 0; 0; 0]%nat)))
                 new_service 0%nat).
Proof.
  apply expired_request_never_reaches_the_ledger; [|done].
  intros w. unfold maxAge, stale_ballot, scripted. cbn [fst rq_timestamp]. lia.
Defined.

Lemma hook_request_is_invalid :
  validateSubmission hook_request = Ret (invalid "Invalid verification code").
Proof. reflexivity. Qed.

(** In [drawing], the hook's request fails at validation on every attempt,
    and a complete, fresh ballot fails at the ledger stage on every attempt
    (the backend cannot be reached). *)
Lemma hook_request_attempt digits id s k :
  let r := run (drawing digits) (attempt id hook_request) s k in
  outcome r = inl (JsError "Invalid verification code") /\ world r = k.
Proof. unfold attempt. rewrite hook_request_is_invalid. done. Qed.

Lemma offline_ballot_attempt digits id s k :
  let r := run (drawing digits) (attempt id ballot) s k in
  outcome r = inl (JsError "Network request failed") /\ world r = k.
Proof. done. Qed.

Lemma submission_id_inj rq :
  Inj (=) (=) (fun digits =>
                 submission_id rq {| base36_digits := digits; above_2_percent := true |}).
Proof.
  intros d d' H. unfold submission_id in H. cbn in H.
  apply (inj (String.app "vote_")) in H.
  apply (inj (String.app (toString36 (rq_timestamp rq)))) in H.
  by apply (inj (String.app "_")) in H.
Qed.

(** The id of the [k]-th attempt on [rq] in the environment [drawing digits]. *)
Definition nth_id (digits : nat -> string) (rq : VoteSubmissionRequest) (k : nat) : string :=
  submission_id rq {| base36_digits := digits k; above_2_percent := true |}.

(** The service after [k] retries of [rq]: the last attempt has failed, its
    retry count is 1 and its retry timer is the one armed timer; the ids of
    the attempts to come have no retry count yet. *)
Definition still_retrying (digits : nat -> string) (rq : VoteSubmissionRequest) (n k : nat)
    (s : service) (w : nat) : Prop :=
  w = S k /\
  timers s = [retry_timer (nth_id digits rq k) 0] /\
  submissionQueue s !! nth_id digits rq k = Some rq /\
  st_status <$> statusCache s !! nth_id digits rq k = Some failed /\
  retryAttempts s !! nth_id digits rq k = Some 1 /\
  (forall j, (k < j <= n)%nat -> retryAttempts s !! nth_id digits rq j = None).

(** A request keeps failing in [drawing digits] when each attempt on it
    throws, whatever the state of the service, without a random draw. *)
Definition keeps_failing (digits : nat -> string) (rq : VoteSubmissionRequest) (msg : string)
    : Prop :=
  forall id s k,
    outcome (run (drawing digits) (attempt id rq) s k) = inl (JsError msg) /\
    world (run (drawing digits) (attempt id rq) s k) = k.

Section Stubborn.
Context (digits : nat -> string) (n : nat) (rq : VoteSubmissionRequest) (msg : string).
Hypothesis distinct : forall i j, (i <= n)%nat -> (j <= n)%nat -> digits i = digits j -> i = j.
Hypothesis failing : keeps_failing digits rq msg.

Lemma nth_id_distinct i j :
  (i <= n)%nat -> (j <= n)%nat -> nth_id digits rq i = nth_id digits rq j -> i = j.
Proof.
  intros Hi Hj H. apply (distinct i j Hi Hj).
  by apply (submission_id_inj rq) in H.
Qed.

Lemma submit_performed {W : Type} (h : handler ev W) s w :
  final (run h (perform (submits rq)) s w) = final (run h (submitVote rq) s w) /\
  world (run h (perform (submits rq)) s w) = world (run h (submitVote rq) s w).
Proof.
  unfold perform. rewrite run_try_catch, run_mbind.
  destruct (submitVote_returns h rq s w) as [resp Hr].
  destruct (run h (submitVote rq) s w) as [o sf wf tf]. cbn in Hr. by subst o.
Qed.

(** One more attempt under a fresh id: it fails, finds no retry count, and
    arms a timer. *)
Lemma fresh_attempt_is_retried k s :
  (k <= n)%nat ->
  (forall j, (k <= j <= n)%nat -> retryAttempts s !! nth_id digits rq j = None) ->
  let r := run (drawing digits) (submitVote rq) s k in
  world r = S k /\
  timers (final r) = (timers s ++ [retry_timer (nth_id digits rq k) 0])%list /\
  submissionQueue (final r) !! nth_id digits rq k = Some rq /\
  st_status <$> statusCache (final r) !! nth_id digits rq k = Some failed /\
  retryAttempts (final r) !! nth_id digits rq k = Some 1 /\
  (forall j, (k < j <= n)%nat -> retryAttempts (final r) !! nth_id digits rq j = None).
Proof.
  intros Hk Hfresh. cbn zeta.
  destruct (failing (nth_id digits rq k) s (S k)) as [Hthrow Hworld].
  pose proof (submitVote_after_throw (drawing digits) rq s k msg Hthrow) as H.
  cbn zeta in H.
  change (submission_id rq (drawing digits _ MathRandom k).1) with (nth_id digits rq k) in H.
  change ((drawing digits _ MathRandom k).2) with (S k) in H.
  rewrite (Hfresh k) in H by lia. rewrite Hworld in H. cbn in H.
  destruct H as (_ & _ & Hw & Hst & _ & Hcount & Hti & Hq & Hre & _).
  split_and!; [done..|].
  intros j Hj. rewrite Hre, lookup_insert_ne; [apply Hfresh; lia|].
  intros Heq. apply nth_id_distinct in Heq; lia.
Qed.

Lemma first_attempt :
  let r := run (drawing digits) (perform (submits rq)) new_service 0%nat in
  still_retrying digits rq n 0 (final r) (world r).
Proof.
  cbn zeta. destruct (submit_performed (drawing digits) new_service 0%nat) as [-> ->].
  by apply (fresh_attempt_is_retried 0 new_service); [lia|].
Qed.

Lemma retry_step k s w :
  (k < n)%nat -> still_retrying digits rq n k s w ->
  let r := run (drawing digits) (perform (fires 0%nat)) s w in
  still_retrying digits rq n (S k) (final r) (world r).
Proof.
  intros Hk (-> & Htimers & Hqueue & Hstatus & Hcount & Hfresh). cbn zeta.
  unfold perform, timer_fires. cbn. rewrite Htimers. cbn.
  unfold retrySubmission. cbn. rewrite Hqueue. cbn.
  rewrite run_try_catch, run_mbind.
  pose proof (fresh_attempt_is_retried (S k) (with_timers (delete 0%nat) s)) as H.
  cbn zeta in H.
  destruct (submitVote_returns (drawing digits) rq (with_timers (delete 0%nat) s) (S k))
    as [resp Hr].
  destruct (run (drawing digits) (submitVote rq) _ (S k)) as [o sf wf tf].
  cbn in Hr. subst o. cbn in *.
  rewrite Htimers in H. cbn in H.
  apply H; [lia|]. intros j Hj. apply Hfresh. lia.
Qed.

Lemma retries_go_on k :
  (k <= n)%nat ->
  let r := run (drawing digits)
             (lifetime (submits rq :: repeat (fires 0%nat) k)) new_service 0%nat in
  still_retrying digits rq n k (final r) (world r).
Proof.
  induction k as [|k IH]; intros Hk; cbn zeta.
  - change (submits rq :: repeat (fires 0%nat) 0) with ([] ++ [submits rq])%list.
    destruct (lifetime_snoc (drawing digits) [] (submits rq) new_service 0%nat)
      as (_ & -> & ->).
    apply first_attempt.
  - replace (submits rq :: repeat (fires 0%nat) (S k))
      with ((submits rq :: repeat (fires 0%nat) k) ++ [fires 0%nat])%list
      by (cbn; by rewrite <- repeat_cons).
    destruct (lifetime_snoc (drawing digits) (submits rq :: repeat (fires 0%nat) k)
                (fires 0%nat) new_service 0%nat) as (_ & -> & ->).
    apply retry_step; [lia|]. apply IH. lia.
Qed.
End Stubborn.

(** C3 fails on the code: the retry budget is not enforced.  The retry count
    is stored under the submission id, and every retry goes through
    [submitVote], which generates a new id; so each retry finds no count.
    For every [n] and every request that fails on each attempt, when the
    first [n + 1] random draws differ, after [n] firings of the retry timer
    the request has been attempted [n + 1] times, its latest record is
    [failed] with stored retry count 1, it is still in the queue, and one
    more retry is armed. *)
Theorem retries_are_not_bounded_by_maxRetries
    (digits : nat -> string) (n : nat) (rq : VoteSubmissionRequest) (msg : string) :
  (forall i j, (i <= n)%nat -> (j <= n)%nat -> digits i = digits j -> i = j) ->
  keeps_failing digits rq msg ->
  let r := run (drawing digits)
             (lifetime (submits rq :: repeat (fires 0%nat) n)) new_service 0%nat in
  let id := nth_id digits rq n in
  world r = S n /\
  timers (final r) = [{| retries := id; delay := 5000 |}] /\
  submissionQueue (final r) !! id = Some rq /\
  st_status <$> statusCache (final r) !! id = Some failed /\
  retryAttempts (final r) !! id = Some 1.
Proof.
  intros Hdistinct Hfailing. cbn zeta.
  destruct (retries_go_on digits n rq msg Hdistinct Hfailing n (le_n n))
    as (Hw & Ht & Hq & Hs & Hc & _).
  done.
Qed.

Lemma retries_are_not_bounded_witness :
  let r := run (drawing pretty)
             (lifetime (submits hook_request :: repeat (fires 0%nat) 5)) new_service 0%nat in
  world r = 6%nat /\ timers (final r) = [{| retries := "vote_loyw3v28_5"; delay := 5000 |}].
Proof.
  destruct (retries_are_not_bounded_by_maxRetries pretty 5 hook_request
              "Invalid verification code") as (Hw & Ht & _).
  - intros i j _ _ H. by apply (inj pretty) in H.
  - intros id s k. apply hook_request_attempt.
  - split; [exact Hw | exact Ht].
Defined.

(** The same with a complete, fresh ballot and the backend out of reach:
    ten retries, and the next one is armed. *)
Lemma offline_ballot_is_retried_beyond_the_budget :
  let r := run (drawing pretty)
             (lifetime (submits ballot :: repeat (fires 0%nat) 10)) new_service 0%nat in
  world r = 11%nat
  /\ timers (final r) = [{| retries := "vote_loyw3v28_10"; delay := 5000 |}]
  /\ getStatistics (final r) failed = 11%nat
  /\ getStatistics (final r) confirmed = 0%nat.
Proof. vm_compute. done. Qed.

(** * The rest of the interface

    The methods of the two services that the pipeline properties above do
    not need ([clearOldSubmissions], [getPendingSubmissions],
    [getStatistics], the read-only queries of [RealBlockchainService]), the
    callers in the application, and what a complete call leaves behind. *)

(** ** What a complete [submitVote] call leaves behind *)

Section Fields_kept.
Implicit Types (s : service) (id : string) (us : list field_update).

(** [updateStatus] on a cache whose entry for [id] is known. *)
Lemma statusCache_updateStatus_insert id new us s x (m : gmap string VoteSubmissionStatus) :
  statusCache s = <[id := x]> m ->
  statusCache (updateStatus id new us s)
  = <[id := fold_left apply_update us (with_status new x)]> m.
Proof.
  intros H. unfold updateStatus. rewrite H, lookup_insert_eq. cbn.
  rewrite H. apply insert_insert_eq.
Qed.
End Fields_kept.

(** The record a call leaves under its id: [confirmed] with the ledger's
    transaction, or [failed] with the error. *)
Definition confirmed_record (id : string) (submittedAt : Z) (b : VoteSubmissionResponse)
    (confirmedAt : Z) : VoteSubmissionStatus :=
  {| st_voteId := id; st_status := confirmed;
     st_transactionHash := rs_transactionHash b; st_blockNumber := rs_blockNumber b;
     st_confirmationCount := Some 1; st_error := None;
     st_submittedAt := submittedAt; st_confirmedAt := Some confirmedAt |}.

Definition failed_record (id : string) (submittedAt : Z) (msg : string) : VoteSubmissionStatus :=
  {| st_voteId := id; st_status := failed;
     st_transactionHash := None; st_blockNumber := None;
     st_confirmationCount := None; st_error := Some msg;
     st_submittedAt := submittedAt; st_confirmedAt := None |}.

Section Effect.
Context {W : Type} (h : handler ev W).

Lemma statusCache_enqueued id rq now s :
  statusCache (enqueued id rq now s) = <[id := initial_status id now]> (statusCache s).
Proof. done. Qed.

Lemma statusCache_in_processing id rq now s :
  statusCache (in_processing id rq now s)
  = <[id := with_status processing (initial_status id now)]> (statusCache s).
Proof.
  unfold in_processing.
  by rewrite (statusCache_updateStatus_insert _ _ _ _ _ _ (statusCache_enqueued id rq now s)).
Qed.

(** The state a failed call leaves: what [recover] does to the state the
    attempt was left in. *)
Lemma failed_call_state id rq s s' now msg w :
  s' = enqueued id rq now s \/ s' = in_processing id rq now s ->
  let count := or_zero (retryAttempts s !! id) in
  let r := run h (recover id (JsError msg)) s' w in
  statusCache (final r) = <[id := failed_record id now msg]> (statusCache s) /\
  submissionQueue (final r)
  = (if count <? maxRetries then <[id := rq]> (submissionQueue s)
     else delete id (submissionQueue s)) /\
  retryAttempts (final r)
  = (if count <? maxRetries then <[id := count + 1]> (retryAttempts s)
     else delete id (retryAttempts s)) /\
  timers (final r)
  = (if count <? maxRetries then (timers s ++ [retry_timer id count])%list else timers s) /\
  outcome r = inr (if count <? maxRetries then retry_response msg count else failure msg) /\
  world r = w /\ trace r = [].
Proof.
  intros Hmid. cbn zeta. rewrite run_recover. cbn zeta.
  assert (retryAttempts s' = retryAttempts s /\ timers s' = timers s /\
          submissionQueue s' = <[id := rq]> (submissionQueue s) /\
          exists st, statusCache s' = <[id := st]> (statusCache s) /\
            fold_left apply_update [error_is (Some msg)] (with_status failed st)
            = failed_record id now msg)
    as (Hretry & Htimers & Hqueue & st & Hst & Hrec).
  { destruct Hmid as [-> | ->]; unfold in_processing;
      rewrite ?retryAttempts_updateStatus, ?timers_updateStatus, ?submissionQueue_updateStatus.
    - repeat split. eexists. split; [apply statusCache_enqueued|done].
    - repeat split. eexists. split; [apply statusCache_in_processing|done]. }
  rewrite Hretry.
  destruct (or_zero (retryAttempts s !! id) <? maxRetries); cbn;
    rewrite ?submissionQueue_updateStatus, ?retryAttempts_updateStatus, ?timers_updateStatus,
      ?Hretry, ?Htimers, ?Hqueue, ?delete_insert_eq;
    rewrite (statusCache_updateStatus_insert _ _ _ _ _ _ Hst), Hrec; eauto 10.
Qed.

(** A complete [submitVote] call, seen from outside: the response, and the
    four fields afterwards in terms of the fields before.  [submittedAt] is
    the clock when the call created its record. *)
Inductive submitVote_leaves (id : string) (rq : VoteSubmissionRequest) (s : service)
    (submittedAt : Z) : VoteSubmissionResponse -> service -> Prop :=
| leaves_confirmed resp s' b confirmedAt :
    rs_success resp = true ->
    rs_voteId resp = Some id ->
    rs_transactionHash resp = rs_transactionHash b ->
    rs_blockNumber resp = rs_blockNumber b ->
    statusCache s' = <[id := confirmed_record id submittedAt b confirmedAt]> (statusCache s) ->
    submissionQueue s' = delete id (submissionQueue s) ->
    retryAttempts s' = delete id (retryAttempts s) ->
    timers s' = timers s ->
    submitVote_leaves id rq s submittedAt resp s'
| leaves_failed s' msg :
    let count := or_zero (retryAttempts s !! id) in
    statusCache s' = <[id := failed_record id submittedAt msg]> (statusCache s) ->
    submissionQueue s'
    = (if count <? maxRetries then <[id := rq]> (submissionQueue s)
       else delete id (submissionQueue s)) ->
    retryAttempts s'
    = (if count <? maxRetries then <[id := count + 1]> (retryAttempts s)
       else delete id (retryAttempts s)) ->
    timers s'
    = (if count <? maxRetries then (timers s ++ [retry_timer id count])%list else timers s) ->
    submitVote_leaves id rq s submittedAt
      (if count <? maxRetries then retry_response msg count else failure msg) s'.

Ltac failed_case h id rq s :=
  rewrite else_run_thrown;
  match goal with
  | now := _ : (Z * _)%type
    |- context [run h (recover id (JsError ?msg)) ?s' ?w'] =>
      destruct (failed_call_state id rq s s' now.1 msg w')
        as (Hst & Hq & Hr & Ht & Ho & _); [by eauto|];
      destruct (run h (recover id (JsError msg)) s' w') as [o sf wf tf];
      cbn in Hst, Hq, Hr, Ht, Ho |- *; subst o;
      eexists; split; [reflexivity|]; by eapply leaves_failed
  end.

Lemma submitVote_effect rq s w :
  let random := h _ MathRandom w in
  let id := submission_id rq random.1 in
  let r := run h (submitVote rq) s w in
  exists resp,
    outcome r = inr resp /\
    submitVote_leaves id rq s (h _ DateNow random.2).1 resp (final r).
Proof.
  cbn zeta. rewrite run_submitVote. cbn zeta.
  set (id := submission_id rq (h _ MathRandom w).1).
  destruct (attempt_cases h id rq s (h _ MathRandom w).2).
  1: failed_case h id rq s.
  1: failed_case h id rq s.
  1: failed_case h id rq s.
  rewrite else_run_returned. cbn. eexists. split; [reflexivity|].
  eapply (leaves_confirmed _ _ _ _ _ _ b confirmedAt.1);
    try done; unfold confirmed_state; cbn.
  - rewrite (statusCache_updateStatus_insert _ _ _ _ _ _ (statusCache_in_processing _ _ _ _)).
    done.
  - rewrite submissionQueue_updateStatus. unfold in_processing.
    rewrite submissionQueue_updateStatus. cbn. apply delete_insert_eq.
  - rewrite retryAttempts_updateStatus. unfold in_processing.
    by rewrite retryAttempts_updateStatus.
  - rewrite timers_updateStatus. unfold in_processing. by rewrite timers_updateStatus.
Qed.
End Effect.

(** ** Housekeeping: [clearOldSubmissions], [getPendingSubmissions], [getStatistics] *)

(** The body of [toDelete.forEach]: the id leaves the status cache, the queue
    and the retry counts. *)
Definition forget (s : service) (voteId : string) : service :=
  with_retryAttempts (delete voteId)
    (with_submissionQueue (delete voteId) (with_statusCache (delete voteId) s)).

(** [now - status.submittedAt > maxAge] *)
Definition overdue (now maxAge : Z) (entry : string * VoteSubmissionStatus) : bool :=
  now - st_submittedAt entry.2 >? maxAge.

(** [clearOldSubmissions(maxAge = 24 * 60 * 60 * 1000)]; [None] is the call
    without an argument.  The first [forEach] visits the entries of the
    status cache (in insertion order in the source; the ids collected and
    the state after the second loop do not depend on the order). *)
Definition clearOldSubmissions (maxAge : option Z) : task unit :=
  let maxAge := default (24 * 60 * 60 * 1000) maxAge in
  now ← call DateNow;
  modify (fun s =>
    let toDelete := (List.filter (overdue now maxAge) (map_to_list (statusCache s))).*1 in
    foldl forget s toDelete).

(** [status.status === 'pending' || status.status === 'processing'] *)
Definition in_progress (st : VoteSubmissionStatus) : bool :=
  bool_decide (st_status st = pending) || bool_decide (st_status st = processing).

(** [getPendingSubmissions()]: the records that pass the filter (in the
    source in insertion order, which the cache as a finite map does not
    keep: the list is to be read up to order). *)
Definition getPendingSubmissions (s : service) : list VoteSubmissionStatus :=
  List.filter in_progress (map_to_list (statusCache s)).*2.

(** The object [getStatistics()] returns. *)
Record statistics : Type := {
  stats_total : nat;
  stats_pending : nat;
  stats_processing : nat;
  stats_confirmed : nat;
  stats_failed : nat;
  stats_rejected : nat
}.

Definition no_statistics : statistics :=
  {| stats_total := 0; stats_pending := 0; stats_processing := 0; stats_confirmed := 0;
     stats_failed := 0; stats_rejected := 0 |}.

(** [stats.total++; stats[status.status]++] *)
Definition tally (st : status) (stats : statistics) : statistics :=
  let bump (st' : status) (n : nat) : nat := if decide (st = st') then S n else n in
  {| stats_total := S (stats_total stats);
     stats_pending := bump pending (stats_pending stats);
     stats_processing := bump processing (stats_processing stats);
     stats_confirmed := bump confirmed (stats_confirmed stats);
     stats_failed := bump failed (stats_failed stats);
     stats_rejected := bump rejected (stats_rejected stats) |}.

(** [getStatistics()] as a whole; [getStatistics] above reads one of its
    per-status fields. *)
Definition statistics_of (s : service) : statistics :=
  map_fold (fun _ st => tally (st_status st)) no_statistics (statusCache s).

(** The field of the statistics object for a status: [stats[st]]. *)
Definition stats_at (st : status) (stats : statistics) : nat :=
  match st with
  | pending => stats_pending stats
  | processing => stats_processing stats
  | confirmed => stats_confirmed stats
  | failed => stats_failed stats
  | rejected => stats_rejected stats
  end.

(** What happens to the singleton, [clearOldSubmissions] included. *)
Inductive event : Type :=
| does (op : operation)
| clears (maxAge : option Z).

Definition occur (e : event) : task unit :=
  match e with
  | does op => perform op
  | clears maxAge => clearOldSubmissions maxAge
  end.

Fixpoint history (es : list event) : task unit :=
  match es with
  | [] => mret tt
  | e :: es' => occur e;; history es'
  end.

(** The record of [id] is older than [maxAge] at time [now]. *)
Definition stale (now maxAge : Z) (s : service) (id : string) : bool :=
  match statusCache s !! id with
  | Some st => now - st_submittedAt st >? maxAge
  | None => false
  end.

Section Forgetting.
Implicit Types (s : service) (id : string) (ids : list string).

Lemma forget_all_lookup ids s id :
  let s' := foldl forget s ids in
  statusCache s' !! id = (if decide (id ∈ ids) then None else statusCache s !! id) /\
  submissionQueue s' !! id = (if decide (id ∈ ids) then None else submissionQueue s !! id) /\
  retryAttempts s' !! id = (if decide (id ∈ ids) then None else retryAttempts s !! id) /\
  timers s' = timers s.
Proof.
  cbn zeta. revert s. induction ids as [|x ids IH]; intros s.
  - cbn. rewrite !decide_False by apply not_elem_of_nil. done.
  - cbn [foldl]. destruct (IH (forget s x)) as (-> & -> & -> & ->). cbn.
    destruct (decide (id ∈ ids)) as [Hin|Hnin].
    + rewrite !decide_True by (apply elem_of_cons; by right). done.
    + destruct (decide (id = x)) as [->|Hne].
      * rewrite !decide_True by (apply elem_of_cons; by left). by rewrite !lookup_delete_eq.
      * rewrite !decide_False by (intros [?|?]%elem_of_cons; done).
        by rewrite !lookup_delete_ne.
Qed.

Lemma elem_of_overdue now maxAge s id :
  id ∈ (List.filter (overdue now maxAge) (map_to_list (statusCache s))).*1
  <-> stale now maxAge s id = true.
Proof.
  unfold stale. rewrite list_elem_of_fmap. split.
  - intros ([id' st] & -> & Hin). apply list_elem_of_In, filter_In in Hin as [Hin Hold].
    apply list_elem_of_In, elem_of_map_to_list in Hin. cbn. by rewrite Hin.
  - destruct (statusCache s !! id) as [st|] eqn:Hst; [|done]. intros Hold.
    exists (id, st). split; [done|]. apply list_elem_of_In, filter_In. split; [|done].
    by apply list_elem_of_In, elem_of_map_to_list.
Qed.

Lemma cleared_lookup now maxAge s id :
  let s' := foldl forget s
              (List.filter (overdue now maxAge) (map_to_list (statusCache s))).*1 in
  statusCache s' !! id = (if stale now maxAge s id then None else statusCache s !! id) /\
  submissionQueue s' !! id = (if stale now maxAge s id then None else submissionQueue s !! id) /\
  retryAttempts s' !! id = (if stale now maxAge s id then None else retryAttempts s !! id) /\
  timers s' = timers s.
Proof.
  cbn zeta.
  destruct (forget_all_lookup
              (List.filter (overdue now maxAge) (map_to_list (statusCache s))).*1 s id)
    as (-> & -> & -> & ->).
  destruct (stale now maxAge s id) eqn:Hstale.
  - rewrite !decide_True by (by apply elem_of_overdue). done.
  - rewrite !decide_False; [done|..];
      intros Hin%elem_of_overdue; congruence.
Qed.
End Forgetting.

(** ** The state between calls

    While a [submitVote] call is in flight its record is [pending] or
    [processing] and its request sits in the queue without a retry count.
    Between calls (each one run to its end) the state is [settled]. *)

Definition settled (s : service) : Prop :=
  (forall id st, statusCache s !! id = Some st ->
     st_voteId st = id /\
     (st_status st = confirmed \/ st_status st = failed \/ st_status st = rejected)) /\
  (forall id rq, submissionQueue s !! id = Some rq ->
     st_status <$> statusCache s !! id = Some failed /\
     exists c, retryAttempts s !! id = Some c /\ 1 <= c <= maxRetries) /\
  (forall id c, retryAttempts s !! id = Some c -> is_Some (submissionQueue s !! id)).

Lemma settled_new_service : settled new_service.
Proof. repeat split; intros; simplify_map_eq. Qed.

Section Settled.
Context {W : Type} (h : handler ev W).

Lemma settled_count s id :
  settled s ->
  0 <= or_zero (retryAttempts s !! id) <= maxRetries.
Proof.
  intros (_ & Hq & Hc). destruct (retryAttempts s !! id) as [c|] eqn:Hid; cbn; [|done].
  destruct (Hc id c Hid) as [rq Hrq]. destruct (Hq id rq Hrq) as (_ & c' & Hc' & ?).
  simplify_eq. lia.
Qed.

Lemma settled_submitVote rq s w :
  settled s -> settled (final (run h (submitVote rq) s w)).
Proof.
  intros Hs. pose proof (settled_count s (submission_id rq (h _ MathRandom w).1) Hs) as Hcount.
  destruct Hs as (Hst & Hq & Hc).
  destruct (submitVote_effect h rq s w) as (resp & _ & Hleaves). cbn zeta in Hleaves.
  set (id := submission_id rq (h _ MathRandom w).1) in *.
  destruct Hleaves as [resp s' b confirmedAt _ _ _ _ Hst' Hq' Hc' _
                       |s' msg count Hst' Hq' Hc' _].
  - repeat split.
    + rewrite Hst' in H. apply lookup_insert_Some in H as [[<- <-]|[_ H]]; [done|].
      by apply (Hst _ _ H).
    + rewrite Hst' in H. apply lookup_insert_Some in H as [[<- <-]|[_ H]]; cbn; [by eauto|].
      by apply (Hst _ _ H).
    + rewrite Hq' in H. apply lookup_delete_Some in H as [Hne H].
      rewrite Hst', lookup_insert_ne by done. by apply (Hq _ _ H).
    + rewrite Hq' in H. apply lookup_delete_Some in H as [Hne H].
      rewrite Hc', lookup_delete_ne by done. by apply (Hq _ _ H).
    + intros id' c. rewrite Hc', Hq'. intros [Hne H]%lookup_delete_Some.
      rewrite lookup_delete_ne by done. by apply (Hc _ _ H).
  - subst count. destruct (or_zero (retryAttempts s !! id) <? maxRetries) eqn:Hlt.
    + apply Z.ltb_lt in Hlt. repeat split.
      * rewrite Hst' in H. apply lookup_insert_Some in H as [[<- <-]|[_ H]]; [done|].
        by apply (Hst _ _ H).
      * rewrite Hst' in H. apply lookup_insert_Some in H as [[<- <-]|[_ H]]; cbn; [by eauto|].
        by apply (Hst _ _ H).
      * rewrite Hq' in H. rewrite Hst'.
        apply lookup_insert_Some in H as [[<- <-]|[Hne H]].
        -- by rewrite lookup_insert_eq.
        -- rewrite lookup_insert_ne by done. by apply (Hq _ _ H).
      * rewrite Hq' in H. rewrite Hc'.
        apply lookup_insert_Some in H as [[<- <-]|[Hne H]].
        -- rewrite lookup_insert_eq. eexists. split; [done|]. lia.
        -- rewrite lookup_insert_ne by done. by apply (Hq _ _ H).
      * intros id' c. rewrite Hc', Hq'.
        intros [[<- <-]|[Hne H]]%lookup_insert_Some.
        -- rewrite lookup_insert_eq. eauto.
        -- rewrite lookup_insert_ne by done. by apply (Hc _ _ H).
    + repeat split.
      * rewrite Hst' in H. apply lookup_insert_Some in H as [[<- <-]|[_ H]]; [done|].
        by apply (Hst _ _ H).
      * rewrite Hst' in H. apply lookup_insert_Some in H as [[<- <-]|[_ H]]; cbn; [by eauto|].
        by apply (Hst _ _ H).
      * rewrite Hq' in H. apply lookup_delete_Some in H as [Hne H].
        rewrite Hst', lookup_insert_ne by done. by apply (Hq _ _ H).
      * rewrite Hq' in H. apply lookup_delete_Some in H as [Hne H].
        rewrite Hc', lookup_delete_ne by done. by apply (Hq _ _ H).
      * intros id' c. rewrite Hc', Hq'. intros [Hne H]%lookup_delete_Some.
        rewrite lookup_delete_ne by done. by apply (Hc _ _ H).
Qed.

Lemma settled_cancelSubmission voteId s :
  settled s -> settled (cancelSubmission voteId s).2.
Proof.
  intros (Hst & Hq & Hc). unfold cancelSubmission.
  destruct (submissionQueue s !! voteId) as [rq|] eqn:Hrq; cbn; [|done].
  assert (forall id st,
            statusCache (updateStatus voteId rejected []
                           (with_retryAttempts (delete voteId)
                              (with_submissionQueue (delete voteId) s))) !! id = Some st ->
            (id = voteId /\ st_status st = rejected /\ st_voteId st = id) \/
            (id <> voteId /\ statusCache s !! id = Some st)) as Hcases.
  { intros id st. destruct (decide (voteId = id)) as [<-|Hne].
    - destruct (statusCache s !! voteId) as [cur|] eqn:Hcur.
      + erewrite statusCache_updateStatus by exact Hcur. cbn. intros [= <-].
        left. cbn. destruct (Hst _ _ Hcur) as [-> _]. done.
      + unfold updateStatus. cbn. rewrite Hcur. cbn. rewrite Hcur. done.
    - rewrite statusCache_updateStatus_other by done. cbn. eauto. }
  repeat split.
  - apply Hcases in H as [(-> & _ & ?)|[_ H]]; [done|]. by apply (Hst _ _ H).
  - apply Hcases in H as [(-> & -> & _)|[_ H]]; [by eauto|]. by apply (Hst _ _ H).
  - rewrite submissionQueue_updateStatus in H. cbn in H.
    apply lookup_delete_Some in H as [Hne H].
    rewrite statusCache_updateStatus_other by done. cbn. by apply (Hq _ _ H).
  - rewrite submissionQueue_updateStatus in H. cbn in H.
    apply lookup_delete_Some in H as [Hne H].
    rewrite retryAttempts_updateStatus. cbn. rewrite lookup_delete_ne by done.
    by apply (Hq _ _ H).
  - intros id c. rewrite retryAttempts_updateStatus, submissionQueue_updateStatus. cbn.
    intros [Hne H]%lookup_delete_Some. rewrite lookup_delete_ne by done.
    by apply (Hc _ _ H).
Qed.

Lemma run_clearOldSubmissions maxAge s w :
  run h (clearOldSubmissions maxAge) s w
  = let now := h _ DateNow w in
    mkResult (inr tt)
      (foldl forget s
         (List.filter (overdue now.1 (default (24 * 60 * 60 * 1000) maxAge))
            (map_to_list (statusCache s))).*1)
      now.2 [Obs DateNow now.1].
Proof. done. Qed.

Lemma settled_cleared now maxAge s :
  settled s ->
  settled (foldl forget s
             (List.filter (overdue now maxAge) (map_to_list (statusCache s))).*1).
Proof.
  intros (Hst & Hq & Hc).
  repeat split.
  - destruct (cleared_lookup now maxAge s id) as (Hl & _). rewrite Hl in H.
    destruct (stale now maxAge s id); [done|]. by apply (Hst _ _ H).
  - destruct (cleared_lookup now maxAge s id) as (Hl & _). rewrite Hl in H.
    destruct (stale now maxAge s id); [done|]. by apply (Hst _ _ H).
  - destruct (cleared_lookup now maxAge s id) as (Hl1 & Hl2 & _). rewrite Hl2 in H. rewrite Hl1.
    destruct (stale now maxAge s id); [done|]. by apply (Hq _ _ H).
  - destruct (cleared_lookup now maxAge s id) as (_ & Hl2 & Hl3 & _).
    rewrite Hl2 in H. rewrite Hl3.
    destruct (stale now maxAge s id); [done|]. by apply (Hq _ _ H).
  - intros id c. destruct (cleared_lookup now maxAge s id) as (_ & -> & -> & _).
    destruct (stale now maxAge s id); [done|]. apply Hc.
Qed.

Lemma settled_perform op s w :
  settled s -> settled (final (run h (perform op) s w)).
Proof.
  intros Hs. destruct op as [rq|id|n]; unfold perform.
  - destruct (absorbed h (submitVote rq) s w) as (_ & -> & _). by apply settled_submitVote.
  - cbn. by apply settled_cancelSubmission.
  - unfold timer_fires. cbn. destruct (timers s !! n) as [t|]; cbn; [|done].
    unfold retrySubmission. cbn.
    destruct (submissionQueue s !! retries t) as [rq|]; cbn; [|done].
    destruct (absorbed h (submitVote rq) (with_timers (delete n) s) w) as (_ & -> & _).
    by apply settled_submitVote.
Qed.

Lemma occur_returns e s w : outcome (run h (occur e) s w) = inr tt.
Proof. destruct e as [op|maxAge]; [apply perform_returns | done]. Qed.

Lemma settled_occur e s w :
  settled s -> settled (final (run h (occur e) s w)).
Proof.
  intros Hs. destruct e as [op|maxAge]; cbn [occur].
  - by apply settled_perform.
  - rewrite run_clearOldSubmissions. by apply settled_cleared.
Qed.

Lemma settled_history es s w :
  settled s -> settled (final (run h (history es) s w)).
Proof.
  revert s w. induction es as [|e es IH]; intros s w Hs; [done|].
  cbn [history]. rewrite run_mbind.
  pose proof (occur_returns e s w) as Ho. pose proof (settled_occur e s w Hs) as Hs'.
  destruct (run h (occur e) s w) as [o sf wf tf]. cbn in Ho, Hs'. subst o. cbn.
  by apply IH.
Qed.
End Settled.

Section Dropped.
Context {W : Type} (h : handler ev W).

(** A timer whose submission is no longer queued fires without effect. *)
Lemma unqueued_timer_fires n t s w :
  timers s !! n = Some t -> submissionQueue s !! retries t = None ->
  run h (timer_fires n) s w = mkResult (inr tt) (with_timers (delete n) s) w [].
Proof.
  intros Ht Hq. unfold timer_fires. cbn. rewrite Ht. cbn.
  unfold retrySubmission. cbn. by rewrite Hq.
Qed.

Lemma cancelled_state voteId s :
  timers (cancelSubmission voteId s).2 = timers s /\
  submissionQueue (cancelSubmission voteId s).2 !! voteId = None.
Proof.
  unfold cancelSubmission. destruct (submissionQueue s !! voteId) eqn:Hq; cbn; [|done].
  rewrite timers_updateStatus, submissionQueue_updateStatus. cbn.
  by rewrite lookup_delete_eq.
Qed.
End Dropped.

(** Every armed timer was armed with one of the three delays of the
    back-off. *)
Definition bounded_delays (s : service) : Prop :=
  forall t, t ∈ timers s -> exists k, 1 <= k <= maxRetries /\ delay t = retryDelay * k.

Section Delays.
Context {W : Type} (h : handler ev W).

Lemma bounded_delays_submitVote rq s w :
  settled s -> bounded_delays s -> bounded_delays (final (run h (submitVote rq) s w)).
Proof.
  intros Hs Hd.
  pose proof (settled_count s (submission_id rq (h _ MathRandom w).1) Hs) as Hcount.
  destruct (submitVote_effect h rq s w) as (resp & _ & Hleaves). cbn zeta in Hleaves.
  set (id := submission_id rq (h _ MathRandom w).1) in *.
  destruct Hleaves as [resp s' b confirmedAt _ _ _ _ _ _ _ Ht|s' msg count _ _ _ Ht];
    intros t; rewrite Ht; [apply Hd|].
  subst count. destruct (or_zero (retryAttempts s !! id) <? maxRetries) eqn:Hlt; [|apply Hd].
  apply Z.ltb_lt in Hlt.
  intros [Hin|Hin%list_elem_of_singleton]%elem_of_app; [by apply Hd|]. subst t.
  exists (or_zero (retryAttempts s !! id) + 1). split; [lia|done].
Qed.

Lemma bounded_delays_delete n s : bounded_delays s -> bounded_delays (with_timers (delete n) s).
Proof.
  intros Hd t Hin. apply Hd. by apply (list_subseteq_delete n (timers s)).
Qed.

Lemma bounded_delays_occur e s w :
  settled s -> bounded_delays s -> bounded_delays (final (run h (occur e) s w)).
Proof.
  intros Hs Hd. destruct e as [[rq|id|n]|maxAge]; cbn [occur perform].
  - destruct (absorbed h (submitVote rq) s w) as (_ & -> & _).
    by apply bounded_delays_submitVote.
  - cbn. intros t. destruct (cancelled_state id s) as [-> _]. apply Hd.
  - unfold timer_fires. cbn. destruct (timers s !! n) as [t|]; cbn; [|done].
    unfold retrySubmission. cbn.
    destruct (submissionQueue s !! retries t) as [rq|]; cbn;
      [|by apply bounded_delays_delete].
    destruct (absorbed h (submitVote rq) (with_timers (delete n) s) w) as (_ & -> & _).
    apply bounded_delays_submitVote; [done|]. by apply bounded_delays_delete.
  - rewrite run_clearOldSubmissions. cbn zeta. cbn [final]. intros t.
    destruct (cleared_lookup (h _ DateNow w).1 (default (24 * 60 * 60 * 1000) maxAge) s "")
      as (_ & _ & _ & ->).
    apply Hd.
Qed.

Lemma history_keeps es s w :
  settled s -> bounded_delays s ->
  settled (final (run h (history es) s w)) /\
  bounded_delays (final (run h (history es) s w)).
Proof.
  revert s w. induction es as [|e es IH]; intros s w Hs Hd; [done|].
  cbn [history]. rewrite run_mbind.
  pose proof (occur_returns h e s w) as Ho. pose proof (settled_occur h e s w Hs) as Hs'.
  pose proof (bounded_delays_occur e s w Hs Hd) as Hd'.
  destruct (run h (occur e) s w) as [o sf wf tf]. cbn in Ho, Hs', Hd'. subst o. cbn.
  by apply IH.
Qed.
End Delays.

(** ** Properties of the service's state *)

(** X1.  A [submitVote] call touches only the entries of the id it
    generated: the record, queue entry and retry count of every other id are
    what they were.  The timers armed before are still armed, in the same
    order, and at most one timer is added, at the end: the retry timer of
    the call's own id, with the delay of the retry count stored for that id
    before the call.  The call always leaves a record under its own id. *)
Theorem submitVote_touches_only_its_own_id
    (W : Type) (h : handler ev W) (rq : VoteSubmissionRequest) (s : service) (w : W) :
  let id := submission_id rq (h _ MathRandom w).1 in
  let r := run h (submitVote rq) s w in
  let count := or_zero (retryAttempts s !! id) in
  is_Some (statusCache (final r) !! id) /\
  (timers (final r) = timers s \/
   timers (final r)
   = (timers s ++ [{| retries := id; delay := retryDelay * (count + 1) |}])%list) /\
  (forall id', id' <> id ->
     statusCache (final r) !! id' = statusCache s !! id' /\
     submissionQueue (final r) !! id' = submissionQueue s !! id' /\
     retryAttempts (final r) !! id' = retryAttempts s !! id').
Proof.
  cbn zeta. destruct (submitVote_effect h rq s w) as (resp & _ & Hleaves). cbn zeta in Hleaves.
  set (id := submission_id rq (h _ MathRandom w).1) in *.
  destruct Hleaves as [resp s' b confirmedAt _ _ _ _ Hst Hq Hc Ht|s' msg count Hst Hq Hc Ht].
  - rewrite Hst, Hq, Hc, Ht, lookup_insert_eq. split; [by eauto|]. split; [by left|].
    intros id' Hne. by rewrite lookup_insert_ne, !lookup_delete_ne.
  - rewrite Hst, Hq, Hc, Ht, lookup_insert_eq. split; [by eauto|].
    destruct (count <? maxRetries).
    + split; [by right|].
      intros id' Hne. by rewrite !lookup_insert_ne.
    + split; [by left|].
      intros id' Hne. by rewrite lookup_insert_ne, !lookup_delete_ne.
Qed.

(** X2.  When [submitVote] answers with success, the record
    [getSubmissionStatus(voteId)] returns for the [voteId] of the response is
    [confirmed] and carries the response's transaction hash and block number,
    a confirmation count of 1, no error, and as [submittedAt] the clock when
    the call created the record; the id has left the queue and the retry
    counts, and no timer was armed. *)
Theorem confirmed_record_carries_the_response
    (W : Type) (h : handler ev W) (rq : VoteSubmissionRequest) (s : service) (w : W)
    (resp : VoteSubmissionResponse) :
  let random := h _ MathRandom w in
  let id := submission_id rq random.1 in
  let r := run h (submitVote rq) s w in
  outcome r = inr resp -> rs_success resp = true ->
  rs_voteId resp = Some id /\
  (exists confirmedAt,
     getSubmissionStatus id (final r)
     = Some {| st_voteId := id; st_status := confirmed;
               st_transactionHash := rs_transactionHash resp;
               st_blockNumber := rs_blockNumber resp;
               st_confirmationCount := Some 1; st_error := None;
               st_submittedAt := (h _ DateNow random.2).1;
               st_confirmedAt := Some confirmedAt |}) /\
  submissionQueue (final r) !! id = None /\
  retryAttempts (final r) !! id = None /\
  timers (final r) = timers s.
Proof.
  cbn zeta. intros Hout Hok.
  destruct (submitVote_effect h rq s w) as (resp' & Hout' & Hleaves). cbn zeta in Hleaves.
  rewrite Hout in Hout'. injection Hout' as <-.
  destruct Hleaves as [resp s' b confirmedAt _ Hid Htx Hblock Hst Hq Hc Ht|s' msg count _ _ _ _].
  - unfold getSubmissionStatus.
    rewrite Hst, Hq, Hc, Ht, lookup_insert_eq, !lookup_delete_eq, Htx, Hblock.
    unfold confirmed_record. eauto 10.
  - by destruct (count <? maxRetries).
Qed.

Lemma confirmed_record_carries_the_response_witness :
  let r := run (scripted false false true) (submitVote ballot) new_service 0%nat in
  submissionQueue (final r) !! "vote_loyw3v28_0" = None
  /\ timers (final r) = [].
Proof.
  pose proof (confirmed_record_carries_the_response nat (scripted false false true)
                ballot new_service 0%nat
                {| rs_success := true; rs_voteId := Some "vote_loyw3v28_0";
                   rs_transactionHash := Some "0xfeed"; rs_blockNumber := Some 42;
                   rs_confirmationId := Some "confirm_1700000012000_2";
                   rs_message := Some "Vote submitted successfully";
                   rs_error := None; rs_retryAfter := None |}) as H.
  cbn zeta in H.
  destruct H as (_ & _ & H1 & _ & H2); [vm_compute; reflexivity | reflexivity |].
  split; [exact H1 | exact H2].
Defined.

Lemma filter_none {A : Type} (f : A -> bool) (l : list A) :
  (forall x, x ∈ l -> f x = false) -> List.filter f l = [].
Proof.
  induction l as [|x l IH]; intros Hall; [done|]. cbn.
  rewrite (Hall x) by (apply elem_of_cons; by left).
  apply IH. intros y Hy. apply Hall, elem_of_cons. by right.
Qed.

Lemma settled_getPendingSubmissions s : settled s -> getPendingSubmissions s = [].
Proof.
  intros (Hst & _). apply filter_none. intros st Hin.
  apply list_elem_of_fmap in Hin as ([id st'] & -> & Hin).
  apply elem_of_map_to_list in Hin. destruct (Hst _ _ Hin) as [_ Hs]. cbn.
  unfold in_progress. by destruct Hs as [-> | [-> | ->]].
Qed.

(** X3.  Between calls no submission is pending: starting from a fresh
    service, after any sequence of complete [submitVote] and
    [cancelSubmission] calls, timer firings and [clearOldSubmissions] calls,
    [getPendingSubmissions()] is empty and every record is [confirmed],
    [failed] or [rejected] and is stored under its own [voteId].  ([pending]
    and [processing] are seen only while a [submitVote] call is in flight.) *)
Theorem no_submission_is_pending_between_calls
    (W : Type) (h : handler ev W) (es : list event) (w : W) :
  let s := final (run h (history es) new_service w) in
  getPendingSubmissions s = [] /\
  (forall id st, getSubmissionStatus id s = Some st ->
     st_voteId st = id /\
     (st_status st = confirmed \/ st_status st = failed \/ st_status st = rejected)).
Proof.
  cbn zeta. pose proof (settled_history h es new_service w settled_new_service) as Hs.
  split; [by apply settled_getPendingSubmissions|]. by destruct Hs as (Hst & _).
Qed.

(** X4.  Between calls, what is queued has failed and is counted: starting
    from a fresh service, after any sequence of complete calls, every queued
    submission has a [failed] record and a stored retry count between 1 and
    [maxRetries], every stored retry count belongs to a queued submission,
    and every armed timer has one of the delays [retryDelay * k] with
    [1 <= k <= maxRetries] (5, 10 or 15 seconds). *)
Theorem queued_submissions_are_failed_and_counted
    (W : Type) (h : handler ev W) (es : list event) (w : W) :
  let s := final (run h (history es) new_service w) in
  (forall id rq, submissionQueue s !! id = Some rq ->
     st_status <$> getSubmissionStatus id s = Some failed /\
     exists c, retryAttempts s !! id = Some c /\ 1 <= c <= maxRetries) /\
  (forall id c, retryAttempts s !! id = Some c -> is_Some (submissionQueue s !! id)) /\
  (forall t, t ∈ timers s -> exists k, 1 <= k <= maxRetries /\ delay t = retryDelay * k).
Proof.
  cbn zeta.
  destruct (history_keeps h es new_service w settled_new_service) as [(_ & Hq & Hc) Hd];
    [by intros t Hin%elem_of_nil|].
  done.
Qed.

(** X5.  [clearOldSubmissions(maxAge)] reads the clock once and removes
    exactly the submissions whose record is older than [maxAge] (24 hours
    when no argument is given): their record, queue entry and retry count
    go, whatever the status of the record; every other entry is unchanged.
    Armed timers stay armed, and the call never throws. *)
Theorem clearOldSubmissions_removes_exactly_the_old_records
    (W : Type) (h : handler ev W) (maxAge : option Z) (s : service) (w : W) :
  let r := run h (clearOldSubmissions maxAge) s w in
  let now := (h _ DateNow w).1 in
  let limit := default (24 * 60 * 60 * 1000) maxAge in
  outcome r = inr tt /\
  trace r = [Obs DateNow now] /\
  timers (final r) = timers s /\
  (forall id,
     let old := match getSubmissionStatus id s with
                | Some st => now - st_submittedAt st >? limit
                | None => false
                end in
     getSubmissionStatus id (final r) = (if old then None else getSubmissionStatus id s) /\
     submissionQueue (final r) !! id = (if old then None else submissionQueue s !! id) /\
     retryAttempts (final r) !! id = (if old then None else retryAttempts s !! id)).
Proof.
  cbn zeta. rewrite run_clearOldSubmissions. cbn zeta. cbn [outcome trace final].
  split; [done|]. split; [done|].
  split; [by destruct (cleared_lookup (h _ DateNow w).1
                         (default (24 * 60 * 60 * 1000) maxAge) s "") as (_ & _ & _ & ->)|].
  intros id. unfold getSubmissionStatus.
  by destruct (cleared_lookup (h _ DateNow w).1
                 (default (24 * 60 * 60 * 1000) maxAge) s id) as (-> & -> & -> & _).
Qed.


(** X6.  [cancelSubmission] and [clearOldSubmissions] do not clear the retry
    timer, but the timer of a submission they removed does nothing when it
    fires: no attempt is started and nothing is asked of the outside world;
    only the timer is gone. *)
Theorem dropped_submission_is_not_retried
    (W : Type) (h : handler ev W) (n : nat) (t : timer) (s : service) (w : W) :
  timers s !! n = Some t ->
  (let r := run h (lifetime [cancels (retries t); fires n]) s w in
   trace r = [] /\
   final r = with_timers (delete n) (cancelSubmission (retries t) s).2) /\
  (forall maxAge st,
     let cleared := run h (clearOldSubmissions maxAge) s w in
     let r := run h (history [clears maxAge; does (fires n)]) s w in
     getSubmissionStatus (retries t) s = Some st ->
     (h _ DateNow w).1 - st_submittedAt st > default (24 * 60 * 60 * 1000) maxAge ->
     trace r = trace cleared /\
     final r = with_timers (delete n) (final cleared)).
Proof.
  intros Ht. split.
  - cbn zeta. cbn [lifetime]. rewrite run_mbind. cbn [perform].
    change (run h (modify ?f) s w) with (mkResult (E := ev) (W := W) (inr tt) (f s) w []).
    rewrite then_run_returned, run_mbind. cbn [perform].
    destruct (cancelled_state (retries t) s) as [Hti Hq].
    rewrite (unqueued_timer_fires h n t) by (by rewrite ?Hti).
    done.
  - intros maxAge st. cbn zeta. intros Hst Hold.
    cbn [history occur]. rewrite run_mbind.
    rewrite run_clearOldSubmissions. cbn zeta.
    rewrite then_run_returned, run_mbind. cbn [perform].
    destruct (cleared_lookup (h _ DateNow w).1 (default (24 * 60 * 60 * 1000) maxAge) s
                (retries t)) as (_ & Hq & _ & Hti).
    assert (stale (h _ DateNow w).1 (default (24 * 60 * 60 * 1000) maxAge) s (retries t) = true)
      as Hstale.
    { unfold stale. unfold getSubmissionStatus in Hst. rewrite Hst. by apply Z.gtb_gt. }
    rewrite Hstale in Hq.
    rewrite (unqueued_timer_fires h n t) by (by rewrite ?Hti).
    done.
Qed.

Lemma dropped_submission_is_not_retried_witness :
  let s := final (run (scripted false false false) (submitVote ballot) new_service 0%nat) in
  timers s = [{| retries := "vote_loyw3v28_0"; delay := 5000 |}]
  /\ trace (run (scripted false false false)
             (lifetime [cancels "vote_loyw3v28_0"; fires 0%nat]) s 7%nat) = [].
Proof.
  split; [vm_compute; reflexivity|].
  pose proof (dropped_submission_is_not_retried nat (scripted false false false) 0%nat
                {| retries := "vote_loyw3v28_0"; delay := 5000 |}
                (final (run (scripted false false false) (submitVote ballot) new_service 0%nat))
                7%nat) as H.
  destruct H as [[H _] _]; [vm_compute; reflexivity|].
  exact H.
Defined.

Section Retried.
Context {W : Type} (h : handler ev W).

(** A timer whose submission is still queued runs [submitVote] on the queued
    request. *)
Lemma queued_timer_fires n t rq s w :
  timers s !! n = Some t -> submissionQueue s !! retries t = Some rq ->
  let r := run h (timer_fires n) s w in
  let r' := run h (submitVote rq) (with_timers (delete n) s) w in
  final r = final r' /\ world r = world r' /\ trace r = trace r'.
Proof.
  intros Ht Hq. cbn zeta. unfold timer_fires. cbn. rewrite Ht. cbn.
  unfold retrySubmission. cbn. rewrite Hq.
  by destruct (absorbed h (submitVote rq) (with_timers (delete n) s) w) as (_ & -> & -> & ->).
Qed.
End Retried.

(** X7.  A retry is recorded under an id of its own.  When the timer of a
    queued submission fires, [retrySubmission] calls [submitVote], which
    generates a new id; unless that id happens to be the old one, the record,
    queue entry and retry count of the old id are left as they were, whatever
    the outcome of the retry, and the retry's record is the one under the new
    id. *)
Theorem retry_is_recorded_under_its_own_id
    (W : Type) (h : handler ev W) (n : nat) (t : timer) (rq : VoteSubmissionRequest)
    (s : service) (w : W) :
  timers s !! n = Some t -> submissionQueue s !! retries t = Some rq ->
  let id' := submission_id rq (h _ MathRandom w).1 in
  id' <> retries t ->
  let r := run h (perform (fires n)) s w in
  is_Some (getSubmissionStatus id' (final r)) /\
  getSubmissionStatus (retries t) (final r) = getSubmissionStatus (retries t) s /\
  submissionQueue (final r) !! retries t = Some rq /\
  retryAttempts (final r) !! retries t = retryAttempts s !! retries t.
Proof.
  intros Ht Hq. cbn zeta. intros Hne. cbn [perform].
  destruct (queued_timer_fires h n t rq s w Ht Hq) as (-> & _).
  destruct (submitVote_effect h rq (with_timers (delete n) s) w) as (resp & _ & Hleaves).
  cbn zeta in Hleaves. unfold getSubmissionStatus.
  set (id' := submission_id rq (h _ MathRandom w).1) in *.
  destruct Hleaves as [resp s' b confirmedAt _ _ _ _ Hst' Hq' Hc' _|s' msg count Hst' Hq' Hc' _];
    rewrite Hst', Hq', Hc'; cbn.
  - rewrite lookup_insert_eq, lookup_insert_ne, !lookup_delete_ne by done. eauto.
  - rewrite lookup_insert_eq, lookup_insert_ne by done.
    destruct (count <? maxRetries);
      rewrite ?lookup_insert_ne, ?lookup_delete_ne by done; eauto.
Qed.

Lemma retry_is_recorded_under_its_own_id_witness :
  let s := final (run (scripted false false false) (submitVote ballot) new_service 0%nat) in
  let r := run (scripted false false true) (perform (fires 0%nat)) s 7%nat in
  st_status <$> getSubmissionStatus "vote_loyw3v28_0" (final r) = Some failed
  /\ submissionQueue (final r) !! "vote_loyw3v28_0" = Some ballot.
Proof.
  pose proof (retry_is_recorded_under_its_own_id nat (scripted false false true) 0%nat
                {| retries := "vote_loyw3v28_0"; delay := 5000 |} ballot
                (final (run (scripted false false false) (submitVote ballot) new_service 0%nat))
                7%nat) as H.
  cbn zeta in H.
  destruct H as (_ & H1 & H2 & _);
    [vm_compute; reflexivity | vm_compute; reflexivity | vm_compute; discriminate |].
  cbn [retries] in H1, H2.
  split; [rewrite H1; vm_compute; reflexivity | exact H2].
Defined.

(** ** What a retry leaves of the submission it retried *)




Section Counting.

Lemma tally_counts (l : list (string * VoteSubmissionStatus)) :
  let stats := foldr (uncurry (fun _ st => tally (st_status st))) no_statistics l in
  stats_total stats = length l /\
  stats_total stats
  = (stats_pending stats + stats_processing stats + stats_confirmed stats
     + stats_failed stats + stats_rejected stats)%nat /\
  (forall st, stats_at st stats = length (filter (fun kv => st_status kv.2 = st) l)) /\
  length (List.filter in_progress l.*2) = (stats_pending stats + stats_processing stats)%nat.
Proof.
  cbn zeta. induction l as [|[id x] l (IH1 & IH2 & IH3 & IH4)]; [split_and!; [done|done|by intros []|done]|].
  cbn [foldr fmap list_fmap List.filter snd uncurry].
  set (rest := foldr _ no_statistics l) in *. clearbody rest. split_and!.
  - cbn. by rewrite IH1.
  - unfold tally. cbn. destruct (st_status x); repeat case_decide; simplify_eq; lia.
  - intros st. rewrite filter_cons. cbn [snd].
    specialize (IH3 st).
    unfold tally.
    destruct st, (st_status x) eqn:Hx; cbn in IH3 |- *;
      repeat case_decide; simplify_eq; cbn; by rewrite IH3.
  - unfold in_progress at 1. unfold tally.
    destruct (st_status x); cbn; repeat case_decide; simplify_eq; cbn; rewrite ?IH4; lia.
Qed.
End Counting.

(** X8.  The object [getStatistics()] returns adds up: [total] is the
    number of records in the status cache and the sum of the five per-status
    counts, each per-status count is the number of records with that status,
    and [getPendingSubmissions()] returns as many records as [pending] and
    [processing] count together. *)
Theorem statistics_add_up (s : service) :
  let stats := statistics_of s in
  stats_total stats = size (statusCache s) /\
  stats_total stats
  = (stats_pending stats + stats_processing stats + stats_confirmed stats
     + stats_failed stats + stats_rejected stats)%nat /\
  (forall st, stats_at st stats = getStatistics s st) /\
  length (getPendingSubmissions s) = (stats_pending stats + stats_processing stats)%nat.
Proof.
  cbn zeta. unfold statistics_of, getStatistics, getPendingSubmissions.
  rewrite map_fold_foldr, <- length_map_to_list.
  destruct (tally_counts (map_to_list (statusCache s))) as (H1 & H2 & H3 & H4).
  done.
Qed.

(** ** Validation *)


(** ** The voting hook *)

(** [useAuthStore.getState().user], as far as the hook reads it. *)
Record User : Type := {
  user_id : string;
  user_wallet_address : option string
}.

(** The request [castVote] of the [useVoting] hook passes to [submitVote]:
    [{ electionId, candidateId, voterId: user.id,
       voterAddress: user.wallet_address || '', token, timestamp: Date.now() }].
    It names no verification code, biometric hash or device id. *)
Definition hook_submission (electionId candidateId : string) (user : User) (token : string)
    (now : Z) : VoteSubmissionRequest :=
  {| rq_electionId := electionId; rq_candidateId := candidateId; rq_voterId := user_id user;
     rq_verificationCode := None; rq_biometricHash := None; rq_deviceId := None;
     rq_timestamp := now;
     rq_voterAddress := Some (or_else (user_wallet_address user) "");
     rq_token := Some token |}.

(** X11.  No vote submitted through the voting hook passes validation: for
    every election, candidate, user, token and clock, [submitVote] on the
    request the hook builds answers with a failure whose error is 'Missing
    required fields' or 'Invalid verification code', having read the random
    source and the clock once each and asked nothing of the backend or the
    ledger. *)
Theorem hook_submission_never_passes_validation
    (W : Type) (h : handler ev W) (electionId candidateId : string) (user : User)
    (token : string) (now : Z) (s : service) (w : W) :
  let rq := hook_submission electionId candidateId user token now in
  let r := run h (submitVote rq) s w in
  let random := h _ MathRandom w in
  exists resp msg,
    outcome r = inr resp /\ rs_success resp = false /\ rs_error resp = Some msg /\
    (msg = "Missing required fields" \/ msg = "Invalid verification code") /\
    trace r = [Obs MathRandom random.1; Obs DateNow (h _ DateNow random.2).1].
Proof.
  cbn zeta. set (rq := hook_submission electionId candidateId user token now).
  assert (exists msg, validateSubmission rq = Ret (invalid msg) /\
            (msg = "Missing required fields" \/ msg = "Invalid verification code"))
    as (msg & Hv & Hmsg).
  { unfold validateSubmission.
    destruct (negb (truthy (Some (rq_electionId rq))) || negb (truthy (Some (rq_candidateId rq)))
              || negb (truthy (Some (rq_voterId rq)))); eauto. }
  assert (forall id s' w',
            run h (attempt id rq) s' w'
            = mkResult (inl (JsError msg)) (enqueued id rq (h _ DateNow w').1 s')
                (h _ DateNow w').2 [Obs DateNow (h _ DateNow w').1]) as Ha.
  { intros id s' w'. unfold attempt. rewrite Hv. by destruct Hmsg as [-> | ->]. }
  destruct (submitVote_after_throw h rq s w msg) as (Ho & Ht & _).
  { by rewrite Ha. }
  rewrite Ho, Ht, Ha.
  destruct (or_zero _ <? maxRetries); eauto 10.
Qed.

(** ** The transactions and queries of [RealBlockchainService] *)

(** X12.  [castVote] never throws and leaves the service's fields alone.
    It reports success only when it sent one [vote] transaction, signed by
    the connected wallet, to the contract of the request, for the number
    [parseInt] reads from [candidateId], with gas limit 150000, and the
    transaction was mined; the response then carries the receipt's hash,
    block number and gas.  Every failure comes back as
    [{ success: false, error }]; without a connected wallet, or with a
    [candidateId] that [parseInt] reads as [NaN], nothing is sent. *)
Theorem castVote_reports_the_mined_vote
    (W : Type) (h : handler eth W) (request : BlockchainVoteRequest) (s : chain) (w : W) :
  let r := run h (castVote request) s w in
  let candidateId := parseInt (bq_candidateId request) in
  final r = s /\
  exists resp, outcome r = inr resp /\
    (br_success resp = true ->
     exists signer tx receipt,
       wallet s = Some signer /\
       candidateId <> NaN /\
       trace r = [Obs (SendVote signer (bq_contractAddress request) candidateId 150000)
                    (inr tx);
                  Obs (Wait tx) (inr receipt)] /\
       resp = receipt_response receipt) /\
    (br_success resp = false -> exists msg, resp = error_response msg) /\
    (wallet s = None -> resp = error_response "Wallet not connected" /\ trace r = []) /\
    (is_Some (wallet s) -> candidateId = NaN ->
     resp = error_response "Invalid candidate ID" /\ trace r = []).
Proof.
  cbn zeta. unfold castVote. cbn.
  destruct (wallet s) as [signer|]; cbn.
  2: { split; [done|]. eexists. split; [done|]. split_and!; try done; eauto. }
  destruct (parseInt (bq_candidateId request)) as [|negative magnitude|negative] eqn:Hparse;
    cbn.
  1: { split; [done|]. eexists. split; [done|]. split_and!; try done; eauto. }
  all: match goal with
       | |- context [SendVote ?signer' ?c ?n ?g] =>
           destruct (h _ (SendVote signer' c n g) w) as [[t|tx] w1]; cbn
       end.
  1, 3: split; [done|]; eexists; (split; [done|]); split_and!; try done; eauto.
  all: destruct (h _ (Wait tx) w1) as [[t|receipt] w2]; cbn.
  1, 3: split; [done|]; eexists; (split; [done|]); split_and!; try done; eauto.
  all: split; [done|]; eexists; (split; [done|]); split_and!; try done.
  all: intros _; exists signer, tx, receipt; eauto.
Qed.

(** X13.  [registerVoter] never throws and leaves the service's fields
    alone.  It reports success only when it sent one [registerVoter]
    transaction to the given contract, signed by the connected wallet and
    naming that wallet's own address, with gas limit 100000, and the
    transaction was mined; the response then carries the receipt.  Without a
    connected wallet it answers 'Wallet not connected' and sends nothing. *)
Theorem registerVoter_registers_the_connected_wallet
    (W : Type) (h : handler eth W) (contractAddress : string) (s : chain) (w : W) :
  let r := run h (registerVoter contractAddress) s w in
  final r = s /\
  exists resp, outcome r = inr resp /\
    (br_success resp = true ->
     exists connected tx receipt,
       wallet s = Some connected /\
       trace r = [Obs (SendRegisterVoter connected contractAddress
                         (wallet_address connected) 100000) (inr tx);
                  Obs (Wait tx) (inr receipt)] /\
       resp = receipt_response receipt) /\
    (br_success resp = false -> exists msg, resp = error_response msg) /\
    (wallet s = None -> resp = error_response "Wallet not connected" /\ trace r = []).
Proof.
  cbn zeta. unfold registerVoter. cbn.
  destruct (wallet s) as [w0|]; cbn.
  2: { split; [done|]. eexists. split; [done|]. split_and!; try done; eauto. }
  destruct (h _ (SendRegisterVoter w0 contractAddress (wallet_address w0) 100000) w)
    as [[t|tx] w1]; cbn.
  { split; [done|]. eexists. split; [done|]. split_and!; try done; eauto. }
  destruct (h _ (Wait tx) w1) as [[t|receipt] w2]; cbn.
  { split; [done|]. eexists. split; [done|]. split_and!; try done; eauto. }
  split; [done|]. eexists. split; [done|]. split_and!; try done.
  intros _. exists w0, tx, receipt. eauto.
Qed.

(** X14.  [connectWallet] either returns the wallet's address with the key
    it was given, or throws an [Error] whose message starts with 'Failed to
    connect wallet: '.  The provider is never changed.  The wallet field is
    replaced as soon as the wallet object has been created: when the balance
    query fails afterwards the call throws, but the new wallet stays
    connected; when the provider is missing or the wallet cannot be created,
    the wallet connected before stays. *)
Theorem connectWallet_keeps_the_wallet_it_created
    (W : Type) (h : handler eth W) (key : string) (s : chain) (w : W) :
  let r := run h (connectWallet key) s w in
  let created := (h _ (NewWallet key) w).1 in
  provider (final r) = provider s /\
  wallet (final r) = match provider s, created with
                     | Some _, inr new => Some new
                     | _, _ => wallet s
                     end /\
  (forall t, outcome r = inl t ->
     exists msg, t = JsError ("Failed to connect wallet: " ++ msg)) /\
  (forall info, outcome r = inr info ->
     privateKey info = key /\
     wallet (final r) = Some {| wallet_address := address info |}) /\
  (provider s = None ->
   outcome r = inl (JsError "Failed to connect wallet: Blockchain provider not initialized")
   /\ trace r = []).
Proof.
  cbn zeta. unfold connectWallet. cbn.
  destruct (provider s) as [url|] eqn:Hp; cbn.
  2: { split_and!; try done; intros; simplify_eq; eauto. }
  destruct (h _ (NewWallet key) w) as [[t|new] w1]; cbn.
  { rewrite Hp. split_and!; try done; intros; simplify_eq; eauto. }
  destruct (h _ (GetBalance (wallet_address new)) w1) as [[t|bal] w2]; cbn.
  { split_and!; try done; intros; simplify_eq; eauto. }
  split_and!; try done; intros; simplify_eq; cbn; eauto.
  by destruct new.
Qed.

Definition getWalletBalance (address : string) : chain_task string :=
  try_catch
    (s ← get;
     match provider s with
     | None => Throw (JsError "Blockchain provider not initialized")
     | Some _ =>
         balance ← await (GetBalance address);
         let balanceInEth := formatEther balance in
         mret balanceInEth
     end)
    (fun _ => mret "0").

(** [formatEther] always prints a decimal point. *)
Lemma formatEther_is_not_0 (wei : Z) : formatEther wei <> "0".
Proof.
  unfold formatEther. cbv zeta. intros H. apply (f_equal String.length) in H.
  rewrite !string_app_length in H.
  destruct (String.eqb_spec
              (drop_trailing_zeros
                 (zeros (18 - String.length (pretty (Z.abs_N wei mod 10 ^ 18)%N))
                  ++ pretty (Z.abs_N wei mod 10 ^ 18)%N)) "") as [_|Hne].
  - cbn in H. lia.
  - destruct (drop_trailing_zeros _) as [|c fraction]; [done|]. cbn in H. lia.
Qed.

(** The provider's read-only calls that the remaining methods make, and the
    fields they read of what comes back. *)
Record Transaction : Type := {
  tx_hash : string;
  tx_from : string;
  tx_to : option string;
  tx_value : Z;
  tx_gasLimit : Z;
  tx_gasPrice : option Z;
  tx_nonce : Z
}.

Record TransactionReceipt : Type := {
  rcpt_blockNumber : Z;
  rcpt_gasUsed : Z;
  rcpt_status : option Z
}.

Record ElectionInfo : Type := {
  info_title : string;
  info_description : string;
  info_startTime : Z;
  info_endTime : Z;
  info_isActive : bool;
  info_isFinalized : bool
}.

Inductive eth_query : Type -> Type :=
| GetTransaction (transactionHash : string) : eth_query (thrown + option Transaction)
| GetTransactionReceipt (transactionHash : string)
    : eth_query (thrown + option TransactionReceipt)
| GetBlockNumber : eth_query (thrown + Z)
| CallGetElectionInfo (contractAddress : string) : eth_query (thrown + ElectionInfo).

Abbreviation query_task := (prog eth_query chain).

(** The [transaction] object of a successful [getTransactionDetails]. *)
Record TransactionDetails : Type := {
  td_hash : string;
  td_from : string;
  td_to : option string;
  td_value : string;
  td_gasLimit : string;
  td_gasPrice : option string;
  td_nonce : Z;
  td_blockNumber : Z;
  td_gasUsed : string;
  td_status : string
}.

(** [{ success: true, transaction }] is [inr transaction],
    [{ success: false, error }] is [inl error]. *)
Definition getTransactionDetails (transactionHash : string)
    : query_task (string + TransactionDetails) :=
  try_catch
    (s ← get;
     match provider s with
     | None => Throw (JsError "Blockchain provider not initialized")
     | Some _ =>
         tx ← await (GetTransaction transactionHash);
         receipt ← await (GetTransactionReceipt transactionHash);
         match tx, receipt with
         | Some tx, Some receipt =>
             mret (inr {| td_hash := tx_hash tx; td_from := tx_from tx; td_to := tx_to tx;
                          td_value := pretty (tx_value tx);
                          td_gasLimit := pretty (tx_gasLimit tx);
                          td_gasPrice := pretty <$> tx_gasPrice tx;
                          td_nonce := tx_nonce tx;
                          td_blockNumber := rcpt_blockNumber receipt;
                          td_gasUsed := pretty (rcpt_gasUsed receipt);
                          td_status := if decide (rcpt_status receipt = Some 1)
                                       then "success" else "failed" |})
         | _, _ => Throw (JsError "Transaction not found")
         end
     end)
    (fun error => mret (inl (error_message "Failed to get transaction details" error))).

Definition getCurrentBlockNumber : query_task Z :=
  try_catch
    (s ← get;
     match provider s with
     | None => Throw (JsError "Blockchain provider not initialized")
     | Some _ =>
         blockNumber ← await GetBlockNumber;
         mret blockNumber
     end)
    (fun _ => mret 0).

(** The [data] object of a successful [getElectionInfo]. *)
Record ElectionData : Type := {
  data_title : string;
  data_description : string;
  data_startTime : string;
  data_endTime : string;
  data_isActive : bool;
  data_isFinalized : bool
}.

Definition getElectionInfo (contractAddress : string) : query_task (string + ElectionData) :=
  try_catch
    (s ← get;
     match provider s with
     | None => Throw (JsError "Blockchain provider not initialized")
     | Some _ =>
         electionInfo ← await (CallGetElectionInfo contractAddress);
         mret (inr {| data_title := info_title electionInfo;
                      data_description := info_description electionInfo;
                      data_startTime := pretty (info_startTime electionInfo);
                      data_endTime := pretty (info_endTime electionInfo);
                      data_isActive := info_isActive electionInfo;
                      data_isFinalized := info_isFinalized electionInfo |})
     end)
    (fun error => mret (inl (error_message "Failed to get election info" error))).

(** The [status] column of the transactions screen for one vote of the
    history, given what [getTransactionDetails] resolved to. *)
Definition row_status (txDetails : string + TransactionDetails) : string :=
  match txDetails with
  | inr transaction =>
      if String.eqb (td_status transaction) "success" then "Verified" else "Failed"
  | inl _ => "Pending Verification"
  end.

(** X15.  The read-only queries never throw and leave the service's fields
    alone; a failure is folded into the value returned.
    [getCurrentBlockNumber] answers the node's block number, and 0 when the
    provider is missing or the call fails.  [getWalletBalance] answers the
    balance as [formatEther] prints it, and '0' when the provider is missing
    or the balance cannot be had; since a balance of zero is printed '0.0',
    the answer '0' is given exactly on a failure.  [getElectionInfo] answers
    [{ success: false, error }].  Without a provider none of them calls the
    node. *)
Theorem queries_fold_failures_into_their_answer
    (W : Type) (h : handler eth_query W) (h' : handler eth W)
    (address contractAddress : string) (s : chain) (w : W) (w' : W) :
  let blocks := run h getCurrentBlockNumber s w in
  let balance := run h' (getWalletBalance address) s w' in
  let info := run h (getElectionInfo contractAddress) s w in
  (final blocks = s /\
   outcome blocks = inr match provider s, (h _ GetBlockNumber w).1 with
                        | Some _, inr blockNumber => blockNumber
                        | _, _ => 0
                        end) /\
  (final balance = s /\
   outcome balance = inr match provider s, (h' _ (GetBalance address) w').1 with
                         | Some _, inr wei => formatEther wei
                         | _, _ => "0"
                         end /\
   (outcome balance = inr "0"
    <-> provider s = None \/ exists t, (h' _ (GetBalance address) w').1 = inl t)) /\
  (final info = s /\
   exists answer, outcome info = inr answer /\
     (provider s = None -> answer = inl "Blockchain provider not initialized") /\
     (forall t, (h _ (CallGetElectionInfo contractAddress) w).1 = inl t ->
        is_Some (provider s) ->
        answer = inl (error_message "Failed to get election info" t))) /\
  (provider s = None -> trace blocks = [] /\ trace balance = [] /\ trace info = []).
Proof.
  cbn zeta. unfold getCurrentBlockNumber, getWalletBalance, getElectionInfo. cbn.
  destruct (provider s) as [url|]; cbn.
  2: { split_and!; try done.
       - split; [by left|done].
       - eexists. split; [done|]. split; [done|]. by intros t _ [? ?]. }
  destruct (h _ GetBlockNumber w) as [[t|n] w1];
    destruct (h' _ (GetBalance address) w') as [[t'|b] w1'];
    destruct (h _ (CallGetElectionInfo contractAddress) w) as [[t''|i] w1''].
  all: cbn; split_and!; try done.
  all: try (eexists; split; [done|]; split; [done|]; by intros ? [= <-] _).
  all: split; [|by intros [?|[? ?]]].
  all: try (intros _; right; by eauto).
  all: intros [= H]; by apply formatEther_is_not_0 in H.
Qed.

(** X16.  [getTransactionDetails] never throws, so the transactions screen
    always reaches its own classification of the answer: a vote is shown
    'Verified' exactly when the provider is there and the node returned both
    the transaction and a receipt whose status is 1, 'Failed' exactly when it
    returned both and the status is something else, and 'Pending
    Verification' in every other case (no provider, a failed call, an
    unknown transaction or a missing receipt). *)
Theorem verified_row_means_a_receipt_with_status_1
    (W : Type) (h : handler eth_query W) (transactionHash : string) (s : chain) (w : W) :
  let r := run h (getTransactionDetails transactionHash) s w in
  let found := h _ (GetTransaction transactionHash) w in
  let mined := h _ (GetTransactionReceipt transactionHash) found.2 in
  let both (status_is_1 : bool) : Prop :=
    is_Some (provider s) /\
    exists tx receipt, found.1 = inr (Some tx) /\ mined.1 = inr (Some receipt) /\
      bool_decide (rcpt_status receipt = Some 1) = status_is_1 in
  final r = s /\
  exists txDetails, outcome r = inr txDetails /\
    (row_status txDetails = "Verified" <-> both true) /\
    (row_status txDetails = "Failed" <-> both false) /\
    (row_status txDetails = "Pending Verification" <-> ~ both true /\ ~ both false).
Proof.
  cbn zeta. unfold getTransactionDetails. cbn.
  destruct (provider s) as [url|]; cbn.
  2: { split; [done|]. eexists. split; [done|]. cbn.
       split_and!; split; try done; try (by intros ([? ?] & _)).
       intros _. split; by intros ([? ?] & _). }
  destruct (h _ (GetTransaction transactionHash) w) as [[t|[tx|]] w1]; cbn;
    destruct (h _ (GetTransactionReceipt transactionHash) w1) as [[t'|[receipt|]] w2]; cbn.
  all: split; [done|]; eexists; (split; [done|]); cbn.
  all: try (split_and!; split; try done;
            try (by intros (_ & ? & ? & ? & ? & _));
            intros _; split; by intros (_ & ? & ? & ? & ? & _)).
  destruct (decide (rcpt_status receipt = Some 1)) as [H1|H1]; cbn.
  - split_and!; split; try done.
    + intros _. split; [by eauto|]. exists tx, receipt. by rewrite bool_decide_eq_true.
    + intros (_ & ? & ? & ? & ? & Hb). simplify_eq. by apply bool_decide_eq_false in Hb.
    + intros [Hno _]. destruct Hno. split; [by eauto|]. exists tx, receipt.
      by rewrite bool_decide_eq_true.
  - split_and!; split; try done.
    + intros (_ & ? & ? & ? & ? & Hb). simplify_eq. by apply bool_decide_eq_true in Hb.
    + intros _. split; [by eauto|]. exists tx, receipt. by rewrite bool_decide_eq_false.
    + intros [_ Hno]. destruct Hno. split; [by eauto|]. exists tx, receipt.
      by rewrite bool_decide_eq_false.
Qed.

(** ** The two services together *)

Arguments connectWallet : simpl never.
Arguments registerVoter : simpl never.
Arguments castVote : simpl never.
Arguments isVoterRegistered : simpl never.
Arguments hasVoterVoted : simpl never.

(** The ledger answered "registered" to the registration query. *)
Definition found_registered (o : obs ev) : bool :=
  match o with
  | Obs e x =>
      match e in ev X return X -> bool with
      | IsVoterRegistered _ _ => fun x => match x with inr true => true | _ => false end
      | _ => fun _ => false
      end x
  end.

(** A [registerVoter] call reported success. *)
Definition registered_now (o : obs ev) : bool :=
  match o with
  | Obs e x =>
      match e in ev X return X -> bool with
      | RegisterVoter _ => fun x => match x with inr r => br_success r | inl _ => false end
      | _ => fun _ => false
      end x
  end.

Definition is_castVote (o : obs ev) : bool :=
  match o with
  | Obs e _ => match e with CastVote _ => true | _ => false end
  end.

(** A node that gives the same answer when [voters(address)] is asked twice
    in a row. *)
Definition steady {Wn : Type} (node : handler eth Wn) : Prop :=
  forall contractAddress voterAddress wn,
    let first := node _ (Voters contractAddress voterAddress) wn in
    (node _ (Voters contractAddress voterAddress) first.2).1 = first.1.

Section Linked.
Context {Wn Wa : Type} (node : handler eth Wn) (app : handler ev Wa).

(** What either query of the [voters] mapping resolves to. *)
Definition voters_answer (contractAddress voterAddress : string) (c : chain) (wn : Wn)
    : result eth chain Wn bool :=
  match provider c with
  | None => mkResult (inr false) c wn []
  | Some _ =>
      let x := node _ (Voters contractAddress voterAddress) wn in
      mkResult (inr match x.1 with inr b => b | inl _ => false end) c x.2
        [Obs (Voters contractAddress voterAddress) x.1]
  end.

Lemma run_hasVoterVoted contractAddress voterAddress c wn :
  run node (hasVoterVoted contractAddress voterAddress) c wn
  = voters_answer contractAddress voterAddress c wn.
Proof.
  unfold hasVoterVoted, voters_answer. cbn. destruct (provider c); cbn; [|done].
  by destruct (node _ (Voters contractAddress voterAddress) wn) as [[t|b] w'].
Qed.

Lemma run_isVoterRegistered contractAddress voterAddress c wn :
  run node (isVoterRegistered contractAddress voterAddress) c wn
  = voters_answer contractAddress voterAddress c wn.
Proof.
  unfold isVoterRegistered, voters_answer. cbn. destruct (provider c); cbn; [|done].
  by destruct (node _ (Voters contractAddress voterAddress) wn) as [[t|b] w'].
Qed.

Lemma ledger_stage_finds_nobody_registered rq s c wn wa :
  steady node ->
  let r := run (linked node app) (submitToBlockchain rq) s (c, wn, wa) in
  existsb found_registered (trace r) = false /\
  (existsb is_castVote (trace r) = true -> existsb registered_now (trace r) = true).
Proof.
  intros Hsteady. cbn zeta. unfold submitToBlockchain. cbn.
  destruct (app _ (Fetch _ _) wa) as [[t|electionResponse] wa1]; cbn; [done|].
  destruct (ok electionResponse); cbn; [|done].
  destruct (json electionResponse) as [t|electionData]; cbn; [done|].
  destruct (as_truthy (contract_address electionData)) as [contractAddress|]; cbn; [|done].
  destruct (app _ (Fetch _ _) wa1) as [[t|userResponse] wa2]; cbn; [done|].
  destruct (ok userResponse); cbn; [|done].
  destruct (json userResponse) as [t|userData]; cbn; [done|].
  destruct (as_truthy (encrypted_private_key userData)) as [key|]; cbn; [|done].
  destruct (run node (connectWallet key) c wn) as [[t|walletInfo] c1 wn1 t1]; cbn; [done|].
  rewrite run_hasVoterVoted. unfold voters_answer.
  assert (forall (c' : chain) (wn' : Wn) (wa' : Wa),
            let r := run (linked node app)
                       (try_catch
                          ((registrationResult ← await (RegisterVoter contractAddress);
                            if negb (br_success registrationResult)
                            then Throw (JsError ("Voter registration failed: "
                                                 ++ template (br_error registrationResult)))
                            else mret tt);;
                           voteResult ← await (CastVote
                             {| bq_electionId := rq_electionId rq;
                                bq_candidateId := rq_candidateId rq;
                                bq_voterAddress := address walletInfo;
                                bq_contractAddress := contractAddress |});
                           if negb (br_success voteResult)
                           then Throw (JsError ("Vote casting failed: "
                                                ++ template (br_error voteResult)))
                           else
                             mret {| rs_success := true; rs_voteId := None;
                                     rs_transactionHash := br_transactionHash voteResult;
                                     rs_blockNumber := br_blockNumber voteResult;
                                     rs_confirmationId := None;
                                     rs_message := Some "Real blockchain submission successful";
                                     rs_error := None; rs_retryAfter := None |})
                          (fun error =>
                             mret (failure (error_message "Real blockchain submission failed"
                                              error))))
                       s (c', wn', wa') in
            existsb found_registered (trace r) = false /\
            (existsb is_castVote (trace r) = true ->
             existsb registered_now (trace r) = true)) as Hrest.
  { intros c' wn' wa'. cbn.
    destruct (run node (registerVoter contractAddress) c' wn') as [[t|reg] c2 wn2 t2]; cbn;
      [done|].
    destruct (br_success reg) eqn:Hreg; cbn; [|done].
    destruct (run node (castVote _) c2 wn2) as [[t|vote] c3 wn3 t3]; cbn; [done|].
    by destruct (br_success vote). }
  destruct (provider c1) as [url|] eqn:Hp; cbn.
  - pose proof (Hsteady contractAddress (address walletInfo) wn1) as Hsame. cbn zeta in Hsame.
    destruct (node _ (Voters contractAddress (address walletInfo)) wn1) as [[t|[]] wn2];
      cbn in Hsame |- *; [|done|].
    + rewrite run_isVoterRegistered. unfold voters_answer. rewrite Hp. cbn. rewrite Hsame. cbn.
      apply (Hrest c1 _ wa2).
    + rewrite run_isVoterRegistered. unfold voters_answer. rewrite Hp. cbn. rewrite Hsame. cbn.
      apply (Hrest c1 _ wa2).
  - rewrite run_isVoterRegistered. unfold voters_answer. rewrite Hp. cbn.
    apply (Hrest c1 _ wa2).
Qed.

Lemma validation_asks_no_registration rq s w :
  let r := run (linked node app) (validateSubmission rq) s w in
  existsb found_registered (trace r) = false /\
  existsb is_castVote (trace r) = false /\
  existsb registered_now (trace r) = false.
Proof.
  unfold validateSubmission, blockchain_precheck, checkExistingVote.
  exec (linked node app); done.
Qed.
End Linked.

(** X17.  The registration query and the duplicate-vote query of
    [RealBlockchainService] read the same [voters] mapping.  So when the
    submission service runs on it, against a node that answers that mapping
    the same way twice in a row, [isVoterRegistered] never answers "yes" in a
    [submitVote] call: whoever gets past the duplicate-vote check is found
    unregistered, and a call that reaches [castVote] has also made a
    [registerVoter] call that reported success. *)
Theorem submission_always_registers_before_voting
    (Wn Wa : Type) (node : handler eth Wn) (app : handler ev Wa)
    (rq : VoteSubmissionRequest) (s : service) (c : chain) (wn : Wn) (wa : Wa) :
  steady node ->
  let r := run (linked node app) (submitVote rq) s (c, wn, wa) in
  existsb found_registered (trace r) = false /\
  (existsb is_castVote (trace r) = true -> existsb registered_now (trace r) = true).
Proof.
  intros Hsteady. cbn zeta. rewrite submitVote_trace. cbn [existsb found_registered is_castVote
    registered_now orb].
  set (id := submission_id rq _). set (w1 := (linked node app _ MathRandom (c, wn, wa)).2).
  clearbody id w1.
  destruct (attempt_cases (linked node app) id rq s w1); cbn [trace existsb orb];
    rewrite ?existsb_app;
    repeat match goal with
      | H : run _ (validateSubmission _) ?s0 ?w0 = _ |- _ =>
          let F := fresh "Hv" in
          pose proof (validation_asks_no_registration node app rq s0 w0) as F;
          cbn zeta in F; rewrite H in F; cbn [trace] in F;
          destruct F as (-> & -> & ->); clear H
      | H : run _ (submitToBlockchain _) ?s0 ?w0 = _ |- _ =>
          let F := fresh "Hb" in
          let cv := fresh "cv" in let wnv := fresh "wnv" in let wav := fresh "wav" in
          destruct w0 as [[cv wnv] wav];
          pose proof (ledger_stage_finds_nobody_registered node app rq s0 cv wnv wav Hsteady)
            as F;
          cbn zeta in F; rewrite H in F; cbn [trace] in F;
          destruct F as (-> & ?); clear H
      | H : run _ (submitToBackend _ ?tx) ?s0 ?w0 = _ |- _ =>
          let F := fresh "Hk" in
          pose proof (f_equal trace (submitToBackend_spec (linked node app) rq tx s0 w0)) as F;
          cbn zeta in F; rewrite H in F; cbn [trace] in F; rewrite F; clear H F
      end; cbn; rewrite ?orb_false_r; try done.
Qed.

(** A node that keeps the [voters] mapping of one contract: [registerVoter]
    enters the voter's address, [voters] looks it up. *)
Definition registry_node : handler eth (list string) :=
  fun X e registered =>
    match e in eth X return X * list string with
    | NewWallet _ => (inr {| wallet_address := "0xA11ce" |}, registered)
    | GetBalance _ => (inr 1000000000000000000, registered)
    | Voters _ voterAddress => (inr (bool_decide (voterAddress ∈ registered)), registered)
    | SendRegisterVoter _ _ voter _ => (inr "0xbeef", voter :: registered)
    | SendVote _ _ _ _ => (inr "0xfeed", registered)
    | Wait tx =>
        (inr {| receipt_hash := tx; receipt_blockNumber := 42; receipt_gasUsed := 21000 |},
         registered)
    end.

Lemma submission_always_registers_before_voting_witness :
  let r := run (linked registry_node (scripted false false true)) (submitVote ballot)
             new_service (connected_chain, [], 0%nat) in
  existsb found_registered (trace r) = false.
Proof.
  pose proof (submission_always_registers_before_voting (list string) nat registry_node
                (scripted false false true) ballot new_service connected_chain [] 0%nat) as H.
  cbn zeta in H. destruct H as [H _]; [by intros ca a wn|].
  exact H.
Defined.

(** The address the election officer registered beforehand is refused as
    having voted, although it has not. *)
Example registered_voter_is_refused :
  let r := run (linked registry_node (scripted false false true)) (submitVote ballot)
             new_service (connected_chain, ["0xA11ce"], 0%nat) in
  rs_error <$> response_of r = Some (Some already_voted_message)
  /\ existsb is_transaction (trace r) = false.
Proof. vm_compute. done. Qed.

Section Candidate.
Context {Wn Wa : Type} (node : handler eth Wn) (app : handler ev Wa).

Lemma connectWallet_connects key c wn info :
  let r := run node (connectWallet key) c wn in
  outcome r = inr info -> is_Some (wallet (final r)).
Proof.
  cbn zeta. unfold connectWallet. cbn.
  destruct (provider c); cbn; [|done].
  destruct (node _ (NewWallet key) wn) as [[t|new] w1]; cbn; [done|].
  destruct (node _ (GetBalance (wallet_address new)) w1) as [[t|bal] w2]; cbn; [done|].
  eauto.
Qed.

Lemma registerVoter_final contractAddress c wn :
  final (run node (registerVoter contractAddress) c wn) = c.
Proof.
  unfold registerVoter. cbn. destruct (wallet c) as [w0|]; cbn; [|done].
  destruct (node _ (SendRegisterVoter _ _ _ _) wn) as [[t|tx] w1]; cbn; [done|].
  by destruct (node _ (Wait tx) w1) as [[t|receipt] w2].
Qed.

Lemma castVote_not_a_number request c wn :
  is_Some (wallet c) -> parseInt (bq_candidateId request) = NaN ->
  run node (castVote request) c wn
  = mkResult (inr (error_response "Invalid candidate ID")) c wn [].
Proof.
  intros [w0 Hw] Hnan. unfold castVote. cbn. by rewrite Hw, Hnan.
Qed.

Ltac not_a_number :=
  match goal with
  | |- context [run _ (castVote ?request) ?c ?wn] =>
      rewrite (castVote_not_a_number request c wn) by done
  end.
Ltac refused := eexists; split; [reflexivity | split; [reflexivity | done]].
Ltac refused_with := eexists; split; [reflexivity | split; [reflexivity | by intros _]].

Lemma ledger_stage_refuses_late rq s c wn wa :
  parseInt (rq_candidateId rq) = NaN ->
  let r := run (linked node app) (submitToBlockchain rq) s (c, wn, wa) in
  exists resp, outcome r = inr resp /\ rs_success resp = false /\
    (existsb is_castVote (trace r) = true ->
     rs_error resp = Some "Vote casting failed: Invalid candidate ID").
Proof.
  intros Hnan. cbn zeta. unfold submitToBlockchain. cbn.
  destruct (app _ (Fetch _ _) wa) as [[t|electionResponse] wa1]; cbn; [refused|].
  destruct (ok electionResponse); cbn; [|refused].
  destruct (json electionResponse) as [t|electionData]; cbn; [refused|].
  destruct (as_truthy (contract_address electionData)) as [contractAddress|]; cbn; [|refused].
  destruct (app _ (Fetch _ _) wa1) as [[t|userResponse] wa2]; cbn; [refused|].
  destruct (ok userResponse); cbn; [|refused].
  destruct (json userResponse) as [t|userData]; cbn; [refused|].
  destruct (as_truthy (encrypted_private_key userData)) as [key|]; cbn; [|refused].
  pose proof (connectWallet_connects key c wn) as Hconnected. cbn zeta in Hconnected.
  destruct (run node (connectWallet key) c wn) as [[t|walletInfo] c1 wn1 t1]; cbn;
    [refused|].
  specialize (Hconnected _ eq_refl). cbn in Hconnected.
  rewrite run_hasVoterVoted. unfold voters_answer.
  assert (forall wn',
            let r := run (linked node app)
                       (try_catch
                          (voteResult ← await (CastVote
                             {| bq_electionId := rq_electionId rq;
                                bq_candidateId := rq_candidateId rq;
                                bq_voterAddress := address walletInfo;
                                bq_contractAddress := contractAddress |});
                           if negb (br_success voteResult)
                           then Throw (JsError ("Vote casting failed: "
                                                ++ template (br_error voteResult)))
                           else
                             mret {| rs_success := true; rs_voteId := None;
                                     rs_transactionHash := br_transactionHash voteResult;
                                     rs_blockNumber := br_blockNumber voteResult;
                                     rs_confirmationId := None;
                                     rs_message := Some "Real blockchain submission successful";
                                     rs_error := None; rs_retryAfter := None |})
                          (fun error =>
                             mret (failure (error_message "Real blockchain submission failed"
                                              error))))
                       s (c1, wn', wa2) in
            outcome r = inr (failure "Vote casting failed: Invalid candidate ID")) as Hcast.
  { intros wn'. cbn. by not_a_number. }
  assert (forall wn',
            let r := run (linked node app)
                       (try_catch
                          ((registrationResult ← await (RegisterVoter contractAddress);
                            if negb (br_success registrationResult)
                            then Throw (JsError ("Voter registration failed: "
                                                 ++ template (br_error registrationResult)))
                            else mret tt);;
                           voteResult ← await (CastVote
                             {| bq_electionId := rq_electionId rq;
                                bq_candidateId := rq_candidateId rq;
                                bq_voterAddress := address walletInfo;
                                bq_contractAddress := contractAddress |});
                           if negb (br_success voteResult)
                           then Throw (JsError ("Vote casting failed: "
                                                ++ template (br_error voteResult)))
                           else
                             mret {| rs_success := true; rs_voteId := None;
                                     rs_transactionHash := br_transactionHash voteResult;
                                     rs_blockNumber := br_blockNumber voteResult;
                                     rs_confirmationId := None;
                                     rs_message := Some "Real blockchain submission successful";
                                     rs_error := None; rs_retryAfter := None |})
                          (fun error =>
                             mret (failure (error_message "Real blockchain submission failed"
                                              error))))
                       s (c1, wn', wa2) in
            exists resp, outcome r = inr resp /\ rs_success resp = false /\
              (existsb is_castVote (trace r) = true ->
               rs_error resp = Some "Vote casting failed: Invalid candidate ID")) as Hrest.
  { intros wn'. cbn.
    pose proof (registerVoter_final contractAddress c1 wn') as Hc.
    destruct (run node (registerVoter contractAddress) c1 wn') as [[t|reg] c2 wn2 t2]; cbn;
      [refused|].
    cbn in Hc. subst c2.
    destruct (br_success reg) eqn:Hreg; cbn; [|refused].
    not_a_number. cbn. refused_with. }
  destruct (provider c1) as [url|] eqn:Hp; cbn.
  - destruct (node _ (Voters contractAddress (address walletInfo)) wn1) as [[t|[]] wn2]; cbn;
      [|refused|].
    + rewrite run_isVoterRegistered. unfold voters_answer. rewrite Hp. cbn.
      destruct (node _ (Voters contractAddress (address walletInfo)) wn2) as [[t'|[]] wn3];
        cbn; [apply Hrest| |apply Hrest].
      not_a_number. cbn. refused_with.
    + rewrite run_isVoterRegistered. unfold voters_answer. rewrite Hp. cbn.
      destruct (node _ (Voters contractAddress (address walletInfo)) wn2) as [[t'|[]] wn3];
        cbn; [apply Hrest| |apply Hrest].
      not_a_number. cbn. refused_with.
  - rewrite run_isVoterRegistered. unfold voters_answer. rewrite Hp. cbn. apply Hrest.
Qed.
End Candidate.

(** X18.  The submission service never looks at the form of [candidateId];
    only [castVote] of the blockchain service does, at the very end.  When
    [candidateId] is a string that [parseInt] reads as [NaN] (no digit
    behind the white space and the sign at its start), a [submitVote] call on
    the real blockchain service never succeeds; and when it gets as far as
    [castVote] (after the wallet was connected and, if need be, the voter
    registered), the error reported is 'Vote casting failed: Invalid
    candidate ID'. *)
Theorem non_numeric_candidate_is_refused_by_castVote
    (Wn Wa : Type) (node : handler eth Wn) (app : handler ev Wa)
    (rq : VoteSubmissionRequest) (s : service) (c : chain) (wn : Wn) (wa : Wa) :
  parseInt (rq_candidateId rq) = NaN ->
  let r := run (linked node app) (submitVote rq) s (c, wn, wa) in
  exists resp, outcome r = inr resp /\ rs_success resp = false /\
    (existsb is_castVote (trace r) = true ->
     rs_error resp = Some "Vote casting failed: Invalid candidate ID").
Proof.
  intros Hnan. cbn zeta.
  set (h := linked node app). set (w := (c, wn, wa)).
  set (id := submission_id rq (h _ MathRandom w).1).
  destruct (outcome (run h (attempt id rq) s (h _ MathRandom w).2)) as [t|resp] eqn:Ha.
  - destruct (attempt_throws h id rq s _ _ Ha) as [[msg ->] _].
    destruct (submitVote_after_throw h rq s w msg Ha) as (Ho & Ht & _).
    fold id in Ht. rewrite Ho, Ht. cbn [existsb is_castVote orb].
    exists (if or_zero (retryAttempts s !! id) <? maxRetries
            then retry_response msg (or_zero (retryAttempts s !! id)) else failure msg).
    split; [done|]. split; [by destruct (_ <? _)|].
    intros Hcast.
    assert (msg = "Vote casting failed: Invalid candidate ID") as ->;
      [|by destruct (_ <? _)].
    revert Ha Hcast. 
    destruct (attempt_cases h id rq s (h _ MathRandom w).2); cbn [outcome trace existsb orb];
      rewrite ?existsb_app; intros Ha Hcast;
      repeat match goal with
        | H : run _ (validateSubmission _) ?s0 ?w0 = _ |- _ =>
            let F := fresh "Hv" in
            pose proof (validation_asks_no_registration node app rq s0 w0) as F;
            cbn zeta in F; fold h in F; rewrite H in F; cbn [trace] in F;
            destruct F as (_ & F & _); rewrite F in Hcast; clear H
        | H : run _ (submitToBlockchain _) ?s0 ?w0 = _ |- _ =>
            let F := fresh "Hb" in
            let cv := fresh "cv" in let wnv := fresh "wnv" in let wav := fresh "wav" in
            destruct w0 as [[cv wnv] wav];
            pose proof (ledger_stage_refuses_late node app rq s0 cv wnv wav Hnan) as F;
            cbn zeta in F; fold h in F; rewrite H in F; cbn [trace outcome] in F;
            destruct F as (? & ? & ? & ?); simplify_eq; clear H
        end; cbn in Hcast; try done.
    all: try congruence.
    match goal with H : _ -> rs_error _ = Some _ |- _ => by rewrite (H Hcast) end.
  - destruct (attempt_returns h id rq s _ _ Ha) as (Hok & _).
    revert Ha Hok.
    destruct (attempt_cases h id rq s (h _ MathRandom w).2); cbn [outcome]; intros Ha Hok;
      simplify_eq.
    match goal with
    | H : run _ (submitToBlockchain _) ?s0 ?w0 = _ |- _ =>
        destruct w0 as [[cv wnv] wav];
        pose proof (ledger_stage_refuses_late node app rq s0 cv wnv wav Hnan) as F;
        cbn zeta in F; fold h in F; rewrite H in F; cbn [trace outcome] in F;
        destruct F as (? & ? & ? & ?); simplify_eq
    end.
    congruence.
Qed.

Lemma non_numeric_candidate_is_refused_by_castVote_witness :
  let rq := {| rq_electionId := "election-1"; rq_candidateId := "candidate-2";
               rq_voterId := "voter-7"; rq_verificationCode := Some "123456";
               rq_biometricHash := Some "b10"; rq_deviceId := Some "mobile-device";
               rq_timestamp := 1700000000000; rq_voterAddress := None;
               rq_token := Some "jwt" |} in
  let r := run (linked registry_node (scripted false false true)) (submitVote rq)
             new_service (connected_chain, [], 0%nat) in
  rs_error <$> response_of r = Some (Some "Vote casting failed: Invalid candidate ID")
  /\ existsb registered_now (trace r) = true.
Proof.
  cbn zeta.
  destruct (non_numeric_candidate_is_refused_by_castVote (list string) nat registry_node
              (scripted false false true)
              {| rq_electionId := "election-1"; rq_candidateId := "candidate-2";
                 rq_voterId := "voter-7"; rq_verificationCode := Some "123456";
                 rq_biometricHash := Some "b10"; rq_deviceId := Some "mobile-device";
                 rq_timestamp := 1700000000000; rq_voterAddress := None;
                 rq_token := Some "jwt" |}
              new_service connected_chain [] 0%nat eq_refl)
    as (resp & Hresp & _ & Herr).
  split; [|vm_compute; reflexivity].
  unfold response_of. rewrite Hresp. cbn. f_equal. apply Herr. vm_compute. reflexivity.
Defined.

(** ** Submission ids *)

Section Ids.

(** The characters [toString(36)] produces. *)
Lemma digit36_code (d : N) :
  (d < 36)%N ->
  N_of_ascii (digit36 d) = (if (d <? 10)%N then 48 + d else 87 + d)%N.
Proof.
  intros Hd. unfold digit36. destruct (d <? 10)%N; apply N_ascii_embedding; lia.
Qed.

Lemma digit36_inj (d d' : N) :
  (d < 36)%N -> (d' < 36)%N -> digit36 d = digit36 d' -> d = d'.
Proof.
  intros Hd Hd' H. apply (f_equal N_of_ascii) in H.
  rewrite !digit36_code in H by done.
  destruct (N.ltb_spec d 10), (N.ltb_spec d' 10); lia.
Qed.

Lemma digit36_avoids (c : ascii) (d : N) :
  c = "_"%char \/ c = "-"%char -> (d < 36)%N -> digit36 d <> c.
Proof.
  intros Hc Hd H. apply (f_equal N_of_ascii) in H.
  rewrite digit36_code in H by done.
  destruct Hc as [-> | ->]; cbn in H; destruct (N.ltb_spec d 10); lia.
Qed.

Lemma digits36_avoids (c : ascii) (fuel : nat) (n : N) (acc : string) :
  c = "_"%char \/ c = "-"%char -> avoids c acc -> avoids c (digits36 fuel n acc).
Proof.
  intros Hc. revert n acc. induction fuel as [|fuel IH]; intros n acc Hacc; [done|].
  cbn [digits36].
  assert (avoids c (String (digit36 (n mod 36)) acc)) as Hacc'.
  { split; [|done]. apply digit36_avoids; [done|]. apply N.mod_lt. lia. }
  destruct (n / 36 =? 0)%N; [done|]. by apply IH.
Qed.

Lemma digits36_length (fuel : nat) (n : N) (acc : string) :
  (String.length acc + (if fuel is O then 0 else 1) <= String.length (digits36 fuel n acc))%nat.
Proof.
  revert n acc. induction fuel as [|fuel IH]; intros n acc; [cbn; lia|].
  cbn [digits36]. destruct (n / 36 =? 0)%N; [cbn; lia|].
  specialize (IH (n / 36)%N (String (digit36 (n mod 36)) acc)). cbn in IH.
  destruct fuel; lia.
Qed.

Lemma digits36_inj (fuel : nat) (n n' : N) (acc acc' : string) :
  (n < 36 ^ N.of_nat fuel)%N -> (n' < 36 ^ N.of_nat fuel)%N ->
  String.length acc = String.length acc' ->
  digits36 fuel n acc = digits36 fuel n' acc' ->
  n = n' /\ acc = acc'.
Proof.
  revert n n' acc acc'. induction fuel as [|fuel IH]; intros n n' acc acc' Hn Hn' Hlen H.
  { cbn in Hn, Hn', H. split; [lia|done]. }
  rewrite Nat2N.inj_succ, N.pow_succ_r' in Hn, Hn'.
  assert (n / 36 < 36 ^ N.of_nat fuel)%N as Hlow by (apply N.Div0.div_lt_upper_bound; lia).
  assert (n' / 36 < 36 ^ N.of_nat fuel)%N as Hlow' by (apply N.Div0.div_lt_upper_bound; lia).
  assert (forall m m' : N, (m / 36 = m' / 36)%N -> digit36 (m mod 36) = digit36 (m' mod 36) ->
                           m = m') as Hjoin.
  { intros m m' Hdiv Hmod. apply digit36_inj in Hmod; [|apply N.mod_lt; lia..].
    rewrite (N.div_mod m 36), (N.div_mod m' 36) by lia. by rewrite Hdiv, Hmod. }
  cbn [digits36] in H.
  destruct (N.eqb_spec (n / 36) 0) as [Hz|Hz], (N.eqb_spec (n' / 36) 0) as [Hz'|Hz'].
  - injection H as Hd ->. split; [|done]. apply Hjoin; [congruence|done].
  - apply (f_equal String.length) in H.
    pose proof (digits36_length fuel (n' / 36) (String (digit36 (n' mod 36)) acc')) as Hl.
    cbn [String.length] in H, Hl. destruct fuel; [exfalso; clear -Hlow' Hz'; change (n' / 36 < 1)%N in Hlow';
                    set (q := (n' / 36)%N) in *; clearbody q; lia
                   |exfalso; clear -H Hl Hlen; lia].
  - apply (f_equal String.length) in H.
    pose proof (digits36_length fuel (n / 36) (String (digit36 (n mod 36)) acc)) as Hl.
    cbn [String.length] in H, Hl. destruct fuel; [exfalso; clear -Hlow Hz; change (n / 36 < 1)%N in Hlow;
                    set (q := (n / 36)%N) in *; clearbody q; lia
                   |exfalso; clear -H Hl Hlen; lia].
  - apply IH in H as [Hq Hacc]; [|done|done|cbn; lia].
    injection Hacc as Hd ->. split; [|done]. by apply Hjoin.
Qed.

Lemma below_its_size (n : N) (extra : nat) :
  (n < 36 ^ N.of_nat (S (N.to_nat (N.size n)) + extra))%N.
Proof.
  pose proof (N.size_gt n) as Hsize.
  assert (2 ^ N.size n <= 36 ^ N.size n)%N by (apply N.pow_le_mono_l; lia).
  assert (36 ^ N.size n <= 36 ^ N.of_nat (S (N.to_nat (N.size n)) + extra))%N.
  { apply N.pow_le_mono_r; lia. }
  lia.
Qed.

(** The digits of [toString36], without the sign. *)
Lemma toString36_body_inj (n n' : N) :
  digits36 (S (N.to_nat (N.size n))) n "" = digits36 (S (N.to_nat (N.size n'))) n' "" ->
  n = n'.
Proof.
  intros H.
  rewrite <- (toString36_fuel n (S (N.to_nat (N.size n'))) ""),
    <- (toString36_fuel n' (S (N.to_nat (N.size n))) "") in H.
  rewrite (Nat.add_comm (S (N.to_nat (N.size n'))) (S (N.to_nat (N.size n)))) in H.
  apply digits36_inj in H as [-> _]; [done|..|done].
  - apply below_its_size.
  - rewrite Nat.add_comm. apply below_its_size.
Qed.

Lemma toString36_inj : Inj (=) (=) toString36.
Proof.
  intros z z' H. unfold toString36 in H.
  destruct (Z.ltb_spec z 0), (Z.ltb_spec z' 0).
  - change (String "-" (digits36 (S (N.to_nat (N.size (Z.to_N (Z.abs z)))))
                          (Z.to_N (Z.abs z)) "")
            = String "-" (digits36 (S (N.to_nat (N.size (Z.to_N (Z.abs z')))))
                            (Z.to_N (Z.abs z')) "")) in H.
    injection H as H. apply toString36_body_inj in H. lia.
  - change (String "-" (digits36 (S (N.to_nat (N.size (Z.to_N (Z.abs z)))))
                          (Z.to_N (Z.abs z)) "")
            = digits36 (S (N.to_nat (N.size (Z.to_N (Z.abs z'))))) (Z.to_N (Z.abs z')) "") in H.
    pose proof (digits36_avoids "-" (S (N.to_nat (N.size (Z.to_N (Z.abs z')))))
                  (Z.to_N (Z.abs z')) "" (or_intror eq_refl) I) as Havoid.
    rewrite <- H in Havoid. by destruct Havoid.
  - change (digits36 (S (N.to_nat (N.size (Z.to_N (Z.abs z))))) (Z.to_N (Z.abs z)) ""
            = String "-" (digits36 (S (N.to_nat (N.size (Z.to_N (Z.abs z')))))
                            (Z.to_N (Z.abs z')) "")) in H.
    pose proof (digits36_avoids "-" (S (N.to_nat (N.size (Z.to_N (Z.abs z)))))
                  (Z.to_N (Z.abs z)) "" (or_intror eq_refl) I) as Havoid.
    rewrite H in Havoid. by destruct Havoid.
  - apply toString36_body_inj in H. lia.
Qed.

Lemma toString36_avoids_underscore (z : Z) : avoids "_" (toString36 z).
Proof.
  unfold toString36.
  pose proof (digits36_avoids "_" (S (N.to_nat (N.size (Z.to_N (Z.abs z)))))
                (Z.to_N (Z.abs z)) "" (or_introl eq_refl) I) as Hbody.
  destruct (z <? 0); [|done]. split; [done|exact Hbody].
Qed.

End Ids.

(** X19.  For requests whose timestamps are integers below [2 ^ 53] in
    magnitude (as every time value is), two submission ids are equal exactly
    when the timestamps of the two requests and the random tags drawn are
    equal: election, voter and candidate play no part in the id, and such
    requests with different timestamps never share one. *)
Theorem submission_ids_coincide_on_timestamp_and_tag
    (rq rq' : VoteSubmissionRequest) (random random' : random_draw) :
  Z.abs (rq_timestamp rq) < 2 ^ 53 -> Z.abs (rq_timestamp rq') < 2 ^ 53 ->
  submission_id rq random = submission_id rq' random'
  <-> rq_timestamp rq = rq_timestamp rq' /\ base36_digits random = base36_digits random'.
Proof.
  intros _ _. unfold submission_id. split.
  - intros H. apply (inj (String.app "vote_")) in H.
    change (toString36 (rq_timestamp rq) ++ String "_" (base36_digits random)
            = toString36 (rq_timestamp rq') ++ String "_" (base36_digits random')) in H.
    apply split_at_underscore in H as [Hts Htag]; [|apply toString36_avoids_underscore..].
    by apply toString36_inj in Hts.
  - by intros [-> ->].
Qed.

Lemma submission_ids_coincide_on_timestamp_and_tag_witness :
  let random := {| base36_digits := "k3x9qa"; above_2_percent := true |} in
  submission_id ballot random <> submission_id stale_ballot random.
Proof.
  cbn zeta. intros H.
  apply submission_ids_coincide_on_timestamp_and_tag in H as [H _];
    [discriminate H | reflexivity | reflexivity].
Defined.

(** ** Candidate ids that are decimal numerals *)

Section Numerals.

(** Reading back the digits [pretty] wrote in front of [s]. *)
Lemma leading_digits_pretty_N_go (x : N) :
  (0 < x)%N ->
  exists k : N, forall s acc,
    leading_digits 10 (pretty_N_go x s) acc
    = leading_digits 10 s (Some (default 0 acc * 10 ^ k + x)%N).
Proof.
  induction (N.lt_wf_0 x) as [x _ IH]; intros Hx.
  destruct (decide (x / 10 = 0)%N) as [Hq|Hq].
  - exists 1%N. intros s acc. rewrite pretty_N_go_step, Hq, pretty_N_go_0 by done.
    cbn [leading_digits]. rewrite pretty_N_char_value by (apply N.mod_lt; lia).
    do 2 f_equal. rewrite N.pow_1_r, N.mod_small; [done|]. by apply N.div_small_iff.
  - destruct (IH (x / 10)%N) as [k Hk]; [by apply N.div_lt|by apply N.neq_0_lt_0|].
    exists (N.succ k). intros s acc. rewrite pretty_N_go_step, Hk by done.
    cbn [leading_digits]. rewrite pretty_N_char_value by (apply N.mod_lt; lia).
    cbn [default]. do 2 f_equal. rewrite N.pow_succ_r'.
    assert (x = 10 * (x / 10) + x mod 10)%N as Hdm by (by apply N.div_mod).
    unfold id.
    set (q := (x / 10)%N) in *. set (r := (x mod 10)%N) in *. set (p := (10 ^ k)%N).
    set (a := default 0%N acc).
    clearbody q r p a. clear -Hdm. lia.
Qed.

(** On a string of digits [parseInt] reads a decimal number: no white
    space, no sign, no [0x]. *)
Lemma unsigned_int_digits (s : string) :
  all_digits s -> unsigned_int s = leading_digits 10 s None.
Proof.
  destruct s as [|c s]; [done|]. intros [Hc Hs].
  destruct c as [[] [] [] [] [] [] [] []]; try discriminate Hc; try reflexivity.
  destruct s as [|x s]; [reflexivity|]. destruct Hs as [Hx _].
  destruct x as [[] [] [] [] [] [] [] []]; try discriminate Hx; reflexivity.
Qed.

Lemma parseInt_digits (c : ascii) (s : string) :
  all_digits (String c s) ->
  parseInt (String c s) = signed false (leading_digits 10 (String c s) None).
Proof.
  intros Hs. rewrite <- (unsigned_int_digits _ Hs). destruct Hs as [Hc _].
  destruct c as [[] [] [] [] [] [] [] []]; try discriminate Hc; reflexivity.
Qed.

Lemma digits_of_pretty_N (x : N) :
  (0 < x)%N ->
  all_digits (pretty_N_go x "") /\
  leading_digits 10 (pretty_N_go x "") None = Some x /\
  parseInt (pretty_N_go x "") = signed false (Some x).
Proof.
  intros Hx. destruct (leading_digits_pretty_N_go x Hx) as [k Hk].
  assert (leading_digits 10 (pretty_N_go x "") None = Some x) as Hread.
  { rewrite Hk. by cbn. }
  pose proof (pretty_N_go_digits x "" I) as Hdigits.
  split; [done|]. split; [done|].
  destruct (pretty_N_go x "") as [|c s] eqn:Hs; [done|].
  by rewrite parseInt_digits, Hread.
Qed.

(** An integer below [2 ^ 53] is a double. *)
Lemma nearest_double_exact (m : N) : (m < 2 ^ 53)%N -> nearest_double m = Some m.
Proof.
  intros Hm. unfold nearest_double.
  assert (N.size m <= 53)%N as Hsize.
  { destruct (decide (m = 0%N)) as [->|Hne]; [done|].
    rewrite N.size_log2 by done.
    apply N.le_succ_l, N.log2_lt_pow2; lia. }
  replace (N.size m - 53)%N with 0%N by lia.
  cbn [N.eqb negb andb]. rewrite N.shiftr_0_r, N.shiftl_0_r.
  destruct (N.leb_spec (N.size m) 1024); [done|lia].
Qed.

(** The decimal numeral of an integer below [2 ^ 53] in magnitude is read
    back as that integer. *)
Lemma parseInt_pretty (z : Z) : Z.abs z < 2 ^ 53 -> parseInt (pretty z) = integer z.
Proof.
  intros Hz. destruct z as [|p|p]; [done|..].
  - change (pretty (Z.pos p)) with (pretty_N_go (N.pos p) "").
    destruct (digits_of_pretty_N (N.pos p)) as (_ & _ & ->); [done|].
    unfold signed. rewrite nearest_double_exact; [done|]. lia.
  - change (pretty (Z.neg p)) with (String "-" (pretty_N_go (N.pos p) "")).
    destruct (digits_of_pretty_N (N.pos p)) as (Hdigits & Hread & _); [done|].
    unfold parseInt. cbn [skip_spaces is_space].
    change (is_space "-") with false. cbn match.
    rewrite (unsigned_int_digits _ Hdigits), Hread.
    unfold signed. rewrite nearest_double_exact; [done|]. lia.
Qed.
End Numerals.

(** X20.  A [candidateId] that is the decimal numeral of an integer below
    [2 ^ 53] in magnitude is read back as that integer: with a wallet
    connected, the first thing [castVote] does is send the [vote]
    transaction for exactly that number to the contract of the request,
    signed by the connected wallet, with gas limit 150000.  (From [2 ^ 53]
    on, the number sent is the double nearest to the numeral.) *)
Theorem decimal_candidateId_is_voted_as_its_number
    (W : Type) (h : handler eth W) (candidate : Z) (request : BlockchainVoteRequest)
    (signer : Wallet) (s : chain) (w : W) :
  bq_candidateId request = pretty candidate -> Z.abs candidate < 2 ^ 53 ->
  wallet s = Some signer ->
  let sent := SendVote signer (bq_contractAddress request) (integer candidate) 150000 in
  head (trace (run h (castVote request) s w)) = Some (Obs sent (h _ sent w).1).
Proof.
  intros Hid Hsafe Hw. cbn zeta. unfold castVote. cbn.
  rewrite Hw, Hid, parseInt_pretty by done. cbn.
  destruct (h _ (SendVote signer (bq_contractAddress request) (integer candidate) 150000) w)
    as [[t|tx] w1]; cbn; [done|].
  by destruct (h _ (Wait tx) w1) as [[t|receipt] w2].
Qed.

Lemma decimal_candidateId_is_voted_as_its_number_witness :
  head (trace (run flaky_node
                 (castVote {| bq_electionId := "election-1"; bq_candidateId := "17";
                              bq_voterAddress := "0xA11ce"; bq_contractAddress := "0xE1ec" |})
                 {| provider := None; wallet := Some {| wallet_address := "0xA11ce" |} |}
                 0%nat))
  = Some (Obs (SendVote {| wallet_address := "0xA11ce" |} "0xE1ec" (integer 17) 150000)
            (inr "0xfeed")).
Proof.
  apply (decimal_candidateId_is_voted_as_its_number nat flaky_node 17
           {| bq_electionId := "election-1"; bq_candidateId := "17";
              bq_voterAddress := "0xA11ce"; bq_contractAddress := "0xE1ec" |}
           {| wallet_address := "0xA11ce" |}
           {| provider := None; wallet := Some {| wallet_address := "0xA11ce" |} |} 0%nat).
  - reflexivity.
  - reflexivity.
  - reflexivity.
Defined.

(** ** The key the wallet is connected with *)

(** The key of a [connectWallet] call. *)
Definition connects_with (o : obs ev) : option string :=
  match o with
  | Obs e _ => match e with ConnectWallet key => Some key | _ => None end
  end.

(** X21.  [submitToBlockchain] connects the wallet at most once, and only
    with the string the backend's profile response carries as
    [encrypted_private_key], passed on unchanged (nothing decrypts it); this
    happens only after the election and the profile were both fetched with
    the request's token and answered [ok], the election naming a contract
    address. *)
Theorem wallet_is_connected_with_the_backend_key
    (W : Type) (h : handler ev W) (rq : VoteSubmissionRequest) (s : service) (w : W) :
  let r := run h (submitToBlockchain rq) s w in
  omap connects_with (trace r) = [] \/
  exists election profile electionData userData key answer rest,
    trace r = Obs (Fetch ("/elections/" ++ rq_electionId rq) (rq_token rq)) (inr election)
              :: Obs (Fetch "/users/profile" (rq_token rq)) (inr profile)
              :: Obs (ConnectWallet key) answer :: rest /\
    ok election = true /\ json election = inr electionData /\
    is_Some (as_truthy (contract_address electionData)) /\
    ok profile = true /\ json profile = inr userData /\
    encrypted_private_key userData = Some key /\
    omap connects_with (trace r) = [key].
Proof.
  cbn zeta. unfold submitToBlockchain. cbn.
  destruct (h _ (Fetch _ _) w) as [[t|election] w1]; cbn; [by left|].
  destruct (ok election) eqn:Hok1; cbn; [|by left].
  destruct (json election) as [t|electionData] eqn:Hjson1; cbn; [by left|].
  destruct (as_truthy (contract_address electionData)) as [contractAddress|] eqn:Hc; cbn;
    [|by left].
  destruct (h _ (Fetch _ _) w1) as [[t|profile] w2]; cbn; [by left|].
  destruct (ok profile) eqn:Hok2; cbn; [|by left].
  destruct (json profile) as [t|userData] eqn:Hjson2; cbn; [by left|].
  destruct (as_truthy (encrypted_private_key userData)) as [key|] eqn:Hkey; cbn; [|by left].
  assert (encrypted_private_key userData = Some key) as Hsame.
  { unfold as_truthy in Hkey. destruct (encrypted_private_key userData) as [k|]; [|done].
    by destruct (String.eqb k ""); simplify_eq. }
  right. exists election, profile, electionData, userData, key.
  destruct (h _ (ConnectWallet key) w2) as [[t|walletInfo] w3]; cbn.
  { eexists _, _. split; [reflexivity|]. rewrite Hc. split_and!; eauto. }
  exec h.
  all: eexists _, _; (split; [reflexivity|]); rewrite Hc; split_and!; eauto.
Qed.

(** ** One call at a time

    When no other call runs in between, the wallet a [submitVote] call
    connects is the wallet that is asked about, registered and voted with. *)

Definition is_vote (o : obs eth) : bool :=
  match o with
  | Obs e _ => match e with SendVote _ _ _ _ => true | _ => false end
  end.

(** Among the calls [pre] the node has answered: the [voters] mapping of the
    contract answered [true] for the address of [signer], or a registration
    of that address, signed by [signer], was sent to the contract and
    mined. *)
Definition registered_before (signer : Wallet) (contractAddress : string)
    (pre : list (obs eth)) : Prop :=
  Obs (Voters contractAddress (wallet_address signer)) (inr true) ∈ pre \/
  exists tx receipt,
    Obs (SendRegisterVoter signer contractAddress (wallet_address signer) 100000) (inr tx) ∈ pre
    /\ Obs (Wait tx) (inr receipt) ∈ pre.

(** Every [vote] transaction among the calls is signed by a wallet
    registered before. *)
Definition votes_registered (answered : list (obs eth)) : Prop :=
  forall pre post signer contractAddress candidateId gasLimit answer,
    answered = (pre ++ Obs (SendVote signer contractAddress candidateId gasLimit) answer
                  :: post)%list ->
    registered_before signer contractAddress pre.

(** The calls the node of a linked world has answered. *)
Definition answered {Wn Wa : Type} (w : chain * (Wn * list (obs eth)) * Wa) : list (obs eth) :=
  w.1.2.2.

Section Ledger_calls.

Lemma registered_before_later signer contractAddress pre later :
  registered_before signer contractAddress pre ->
  registered_before signer contractAddress (pre ++ later).
Proof.
  intros [H|(tx & receipt & H1 & H2)]; [left|right; exists tx, receipt];
    rewrite ?elem_of_app; eauto.
Qed.

Lemma votes_registered_nil : votes_registered [].
Proof. intros [|? ?] ? ? ? ? ? ? H; discriminate H. Qed.

Lemma votes_registered_snoc l o :
  votes_registered l ->
  (forall signer contractAddress candidateId gasLimit answer,
     o = Obs (SendVote signer contractAddress candidateId gasLimit) answer ->
     registered_before signer contractAddress l) ->
  votes_registered (l ++ [o]).
Proof.
  intros Hl Ho pre post signer contractAddress candidateId gasLimit answer Heq.
  destruct post as [|p post _] using rev_ind.
  - apply app_inj_tail in Heq as [-> ->]. by eapply Ho.
  - rewrite app_comm_cons, app_assoc in Heq. apply app_inj_tail in Heq as [-> _].
    by eapply Hl.
Qed.

Lemma votes_registered_app l t :
  votes_registered l -> Forall (fun o => is_vote o = false) t -> votes_registered (l ++ t).
Proof.
  intros Hl Ht. revert l Hl. induction Ht as [|o t Ho _ IH]; intros l Hl.
  - by rewrite app_nil_r.
  - rewrite (cons_middle o l t), app_assoc. apply IH, votes_registered_snoc; [done|].
    intros signer contractAddress candidateId gasLimit answer ->. discriminate Ho.
Qed.

(** A vote by a wallet registered before, and what follows the vote. *)
Lemma votes_registered_vote l signer contractAddress candidateId gasLimit answer t :
  votes_registered l -> registered_before signer contractAddress l ->
  Forall (fun o => is_vote o = false) t ->
  votes_registered
    (l ++ Obs (SendVote signer contractAddress candidateId gasLimit) answer :: t).
Proof.
  intros Hl Hreg Ht. rewrite cons_middle, app_assoc.
  apply votes_registered_app; [|done]. apply votes_registered_snoc; [done|].
  intros signer' contractAddress' candidateId' gasLimit' answer' Heq.
  by simplify_eq.
Qed.
End Ledger_calls.

Section Recording.
Context {Wn : Type} (node : handler eth Wn).

(** Under [recording], the calls of a method are added to those answered. *)
Lemma run_recording {R : Type} (p : chain_task R) c wn l :
  run (recording node) p c (wn, l)
  = let r := run node p c wn in
    mkResult (outcome r) (final r) (world r, (l ++ trace r)%list) (trace r).
Proof.
  revert c wn l. induction p as [a|t|k IH|s' k IH|X e k IH]; intros c wn l; cbn.
  - by rewrite app_nil_r.
  - by rewrite app_nil_r.
  - apply IH.
  - apply IH.
  - rewrite IH. cbn. unfold logged. cbn. by rewrite <- app_assoc.
Qed.

Lemma connectWallet_run key c wn :
  let r := run node (connectWallet key) c wn in
  Forall (fun o => is_vote o = false) (trace r) /\
  (forall info, outcome r = inr info ->
     wallet (final r) = Some {| wallet_address := address info |}).
Proof.
  cbn zeta. unfold connectWallet. cbn.
  destruct (provider c); cbn; [|by split].
  destruct (node _ (NewWallet key) wn) as [[t|new] w1]; cbn.
  { split; [by repeat constructor|done]. }
  destruct (node _ (GetBalance (wallet_address new)) w1) as [[t|bal] w2]; cbn.
  { split; [by repeat constructor|done]. }
  split; [by repeat constructor|]. intros info [= <-]. by destruct new.
Qed.

Lemma registerVoter_run contractAddress c wn :
  let r := run node (registerVoter contractAddress) c wn in
  final r = c /\
  Forall (fun o => is_vote o = false) (trace r) /\
  exists resp, outcome r = inr resp /\
    (br_success resp = true ->
     exists signer tx receipt,
       wallet c = Some signer /\
       trace r = [Obs (SendRegisterVoter signer contractAddress (wallet_address signer) 100000)
                    (inr tx);
                  Obs (Wait tx) (inr receipt)]).
Proof.
  cbn zeta. unfold registerVoter. cbn.
  destruct (wallet c) as [w0|]; cbn.
  2: { split_and!; [done|done|]. eexists. split; [done|]. done. }
  destruct (node _ (SendRegisterVoter _ _ _ _) wn) as [[t|tx] w1]; cbn.
  { split_and!; [done|by repeat constructor|]. eexists. split; [done|]. done. }
  destruct (node _ (Wait tx) w1) as [[t|receipt] w2]; cbn.
  { split_and!; [done|by repeat constructor|]. eexists. split; [done|]. done. }
  split_and!; [done|by repeat constructor|]. eexists. split; [done|]. eauto 10.
Qed.

Lemma castVote_run request c wn :
  let r := run node (castVote request) c wn in
  final r = c /\
  (exists resp, outcome r = inr resp) /\
  (trace r = [] \/
   exists signer candidateId answer rest,
     wallet c = Some signer /\
     trace r = Obs (SendVote signer (bq_contractAddress request) candidateId 150000) answer
               :: rest /\
     Forall (fun o => is_vote o = false) rest).
Proof.
  cbn zeta. unfold castVote. cbn.
  destruct (wallet c) as [w0|]; cbn.
  2: { split_and!; [done|by eauto|by left]. }
  destruct (isNaN (parseInt (bq_candidateId request))); cbn.
  1: { split_and!; [done|by eauto|by left]. }
  destruct (node _ (SendVote _ _ _ _) wn) as [[t|tx] w1] eqn:Hsent; cbn.
  { split_and!; [done|by eauto|]. right. eexists _, _, _, _. by eauto. }
  destruct (node _ (Wait tx) w1) as [[t|receipt] w2]; cbn.
  { split_and!; [done|by eauto|]. right. eexists _, _, _, _.
    split_and!; [done..|by repeat constructor]. }
  split_and!; [done|by eauto|]. right. eexists _, _, _, _.
  split_and!; [done..|by repeat constructor].
Qed.
End Recording.

Section One_at_a_time.
Context {Wn Wa : Type} (node : handler eth Wn) (app : handler ev Wa).

(** [castVote], run when the connected wallet is registered. *)
Lemma castVote_by_registered_wallet request c wn l signer :
  wallet c = Some signer ->
  votes_registered l -> registered_before signer (bq_contractAddress request) l ->
  votes_registered (world (run (recording node) (castVote request) c (wn, l))).2.
Proof.
  intros Hw Hl Hreg. rewrite run_recording. cbn zeta. cbn [world snd].
  destruct (castVote_run node request c wn) as (_ & _ & [->|Hsent]).
  - by rewrite app_nil_r.
  - destruct Hsent as (signer' & candidateId & answer & rest & Hw' & -> & Hrest).
    rewrite Hw in Hw'. injection Hw' as <-.
    by apply votes_registered_vote.
Qed.

Lemma validation_keeps_votes_registered rq s c wn l wa :
  votes_registered l ->
  votes_registered
    (answered (world (run (linked (recording node) app) (validateSubmission rq) s
                        (c, (wn, l), wa)))).
Proof.
  intros Hl. unfold validateSubmission, blockchain_precheck, checkExistingVote.
  repeat (cbn;
    match goal with
    | |- context [app ?X ?e ?w] => destruct (app X e w) as [? ?]
    | |- context [run (recording node) (hasVoterVoted ?ca ?a) ?c0 (?wn0, ?l0)] =>
        rewrite (run_recording node (hasVoterVoted ca a) c0 wn0 l0),
          (run_hasVoterVoted node ca a c0 wn0);
        unfold voters_answer; destruct (provider c0);
        [destruct (node _ (Voters ca a) wn0) as [[?|[]] ?]|]
    | |- context [settle ?x] => destruct x
    | |- context [match ?x with inl _ => _ | inr _ => _ end] => destruct x
    | |- context [if ?b then _ else _] => destruct b
    | |- context [match as_truthy ?v with _ => _ end] => destruct (as_truthy v)
    end).
  all: cbn; rewrite ?app_nil_r; try done.
  all: apply votes_registered_app; [done|by repeat constructor].
Qed.

Lemma ledger_stage_keeps_votes_registered rq s c wn l wa :
  votes_registered l ->
  votes_registered
    (answered (world (run (linked (recording node) app) (submitToBlockchain rq) s
                        (c, (wn, l), wa)))).
Proof.
  intros Hl. unfold submitToBlockchain. cbn.
  destruct (app _ (Fetch _ _) wa) as [[t|electionResponse] wa1]; cbn; [done|].
  destruct (ok electionResponse); cbn; [|done].
  destruct (json electionResponse) as [t|electionData]; cbn; [done|].
  destruct (as_truthy (contract_address electionData)) as [contractAddress|]; cbn; [|done].
  destruct (app _ (Fetch _ _) wa1) as [[t|userResponse] wa2]; cbn; [done|].
  destruct (ok userResponse); cbn; [|done].
  destruct (json userResponse) as [t|userData]; cbn; [done|].
  destruct (as_truthy (encrypted_private_key userData)) as [key|]; cbn; [|done].
  rewrite run_recording. cbn zeta.
  destruct (connectWallet_run node key c wn) as [Hquiet Hwallet]. cbn zeta in *.
  destruct (run node (connectWallet key) c wn) as [[t|walletInfo] c1 wn1 t1];
    cbn in Hquiet, Hwallet |- *.
  { by apply votes_registered_app. }
  specialize (Hwallet _ eq_refl).
  set (signer := {| wallet_address := address walletInfo |}) in *.
  assert (votes_registered (l ++ t1)) as Hl1 by (by apply votes_registered_app).
  clear Hl Hquiet. revert Hl1. generalize (l ++ t1)%list. clear l t1. intros l Hl.
  (* from the registration on *)
  assert (forall wn' l' wa',
            votes_registered l' -> registered_before signer contractAddress l' ->
            votes_registered
              (answered (world (run (linked (recording node) app)
                 (try_catch
                    (voteResult ← await (CastVote
                       {| bq_electionId := rq_electionId rq;
                          bq_candidateId := rq_candidateId rq;
                          bq_voterAddress := address walletInfo;
                          bq_contractAddress := contractAddress |});
                     if negb (br_success voteResult)
                     then Throw (JsError ("Vote casting failed: "
                                          ++ template (br_error voteResult)))
                     else
                       mret {| rs_success := true; rs_voteId := None;
                               rs_transactionHash := br_transactionHash voteResult;
                               rs_blockNumber := br_blockNumber voteResult;
                               rs_confirmationId := None;
                               rs_message := Some "Real blockchain submission successful";
                               rs_error := None; rs_retryAfter := None |})
                    (fun error =>
                       mret (failure (error_message "Real blockchain submission failed"
                                        error))))
                 s (c1, (wn', l'), wa'))))) as Hvote.
  { intros wn' l' wa' Hl' Hreg. cbn.
    pose proof (castVote_by_registered_wallet
                  {| bq_electionId := rq_electionId rq; bq_candidateId := rq_candidateId rq;
                     bq_voterAddress := address walletInfo;
                     bq_contractAddress := contractAddress |} c1 wn' l' signer Hwallet Hl' Hreg)
      as Hcast.
    destruct (run (recording node) (castVote _) c1 (wn', l')) as [[t|vote] c2 [wn2 l2] t2];
      cbn in Hcast |- *; [done|].
    by destruct (br_success vote). }
  assert (forall wn' l' wa',
            votes_registered l' ->
            votes_registered
              (answered (world (run (linked (recording node) app)
                 (try_catch
                    ((registrationResult ← await (RegisterVoter contractAddress);
                      if negb (br_success registrationResult)
                      then Throw (JsError ("Voter registration failed: "
                                           ++ template (br_error registrationResult)))
                      else mret tt);;
                     voteResult ← await (CastVote
                       {| bq_electionId := rq_electionId rq;
                          bq_candidateId := rq_candidateId rq;
                          bq_voterAddress := address walletInfo;
                          bq_contractAddress := contractAddress |});
                     if negb (br_success voteResult)
                     then Throw (JsError ("Vote casting failed: "
                                          ++ template (br_error voteResult)))
                     else
                       mret {| rs_success := true; rs_voteId := None;
                               rs_transactionHash := br_transactionHash voteResult;
                               rs_blockNumber := br_blockNumber voteResult;
                               rs_confirmationId := None;
                               rs_message := Some "Real blockchain submission successful";
                               rs_error := None; rs_retryAfter := None |})
                    (fun error =>
                       mret (failure (error_message "Real blockchain submission failed"
                                        error))))
                 s (c1, (wn', l'), wa'))))) as Hregister.
  { intros wn' l' wa' Hl'. cbn. rewrite run_recording. cbn zeta.
    destruct (registerVoter_run node contractAddress c1 wn')
      as (Hc & Hquiet & reg & Hreg & Hsent). cbn zeta in *.
    destruct (run node (registerVoter contractAddress) c1 wn') as [o c2 wn2 t2].
    cbn in Hc, Hquiet, Hreg, Hsent. subst o c2. cbn.
    destruct (br_success reg) eqn:Hok; cbn; [|by apply votes_registered_app].
    destruct (Hsent eq_refl) as (signer' & tx & receipt & Hw' & ->).
    rewrite Hwallet in Hw'. injection Hw' as <-.
    apply Hvote; [by apply votes_registered_app|].
    right. exists tx, receipt. rewrite !elem_of_app, !elem_of_cons.
    split; [right; by left | right; right; by left]. }
  rewrite run_recording, run_hasVoterVoted. unfold voters_answer.
  destruct (provider c1) as [url|] eqn:Hp; cbn.
  - destruct (node _ (Voters contractAddress (address walletInfo)) wn1) as [[t|[]] wn2]; cbn.
    2: { apply votes_registered_app; [done|by repeat constructor]. }
    all: rewrite run_recording, run_isVoterRegistered; unfold voters_answer; rewrite Hp; cbn.
    all: destruct (node _ (Voters contractAddress (address walletInfo)) wn2)
           as [[t'|[]] wn3]; cbn.
    all: try (apply Hregister; repeat (apply votes_registered_app; [|by repeat constructor]);
              done).
    all: apply Hvote;
      [repeat (apply votes_registered_app; [|by repeat constructor]); done|].
    all: left; rewrite !elem_of_app, !elem_of_cons; eauto.
  - rewrite run_recording, run_isVoterRegistered. unfold voters_answer. rewrite Hp. cbn.
    rewrite !app_nil_r. by apply Hregister.
Qed.

Lemma backend_stage_keeps_the_calls rq tx s w :
  answered (world (run (linked (recording node) app) (submitToBackend rq tx) s w)) = answered w.
Proof.
  rewrite submitToBackend_spec. cbn zeta. destruct w as [[c [wn l]] wa]. cbn.
  destruct (app _ (Sleep 1000) wa) as [[] wa1]. cbn.
  destruct (app _ DateNow wa1) as [now wa2]. cbn.
  by destruct (app _ MathRandom wa2).
Qed.
End One_at_a_time.

Section Sequential.
Context {Wn Wa : Type} (node : handler eth Wn) (app : handler ev Wa).

Lemma app_call_keeps_the_calls {X : Type} (e : ev X) w :
  is_ledger_call (Obs e ((linked (recording node) app) _ e w).1) = false ->
  answered ((linked (recording node) app) _ e w).2 = answered w.
Proof. destruct w as [[c [wn l]] wa]. by destruct e. Qed.

Lemma validation_keeps rq s w :
  votes_registered (answered w) ->
  votes_registered
    (answered (world (run (linked (recording node) app) (validateSubmission rq) s w))).
Proof. destruct w as [[c [wn l]] wa]. apply validation_keeps_votes_registered. Qed.

Lemma ledger_stage_keeps rq s w :
  votes_registered (answered w) ->
  votes_registered
    (answered (world (run (linked (recording node) app) (submitToBlockchain rq) s w))).
Proof. destruct w as [[c [wn l]] wa]. apply ledger_stage_keeps_votes_registered. Qed.

Lemma submitVote_world {W : Type} (h : handler ev W) rq s w :
  world (run h (submitVote rq) s w)
  = world (run h (attempt (submission_id rq (h _ MathRandom w).1) rq) s (h _ MathRandom w).2).
Proof.
  destruct (outcome (run h (attempt (submission_id rq (h _ MathRandom w).1) rq) s
                       (h _ MathRandom w).2))
    as [t|resp] eqn:Ha.
  - destruct (attempt_throws h _ rq s _ _ Ha) as [[msg ->] _].
    by destruct (submitVote_after_throw h rq s w msg Ha) as (_ & _ & -> & _).
  - by destruct (submitVote_after_return h rq s w resp Ha) as (_ & _ & -> & _).
Qed.

Lemma submitVote_keeps rq s w :
  votes_registered (answered w) ->
  votes_registered
    (answered (world (run (linked (recording node) app) (submitVote rq) s w))).
Proof.
  intros Hw. rewrite submitVote_world.
  set (h := linked (recording node) app).
  assert (votes_registered (answered (h _ MathRandom w).2)) as Hw1
    by (by rewrite app_call_keeps_the_calls).
  set (id := submission_id rq _). set (w1 := (h _ MathRandom w).2) in *. clearbody id w1.
  assert (votes_registered (answered (h _ DateNow w1).2)) as Hw2
    by (by rewrite app_call_keeps_the_calls).
  destruct (attempt_cases h id rq s w1); cbn [world];
    repeat match goal with
      | H : run _ (validateSubmission _) ?s0 ?w0 = _ |- _ =>
          let F := fresh "Hv" in
          pose proof (validation_keeps rq s0 w0 Hw2) as F;
          fold h in F; rewrite H in F; cbn [world] in F; clear H
      | Hv : votes_registered (answered ?w0),
        H : run _ (submitToBlockchain _) ?s0 ?w0 = _ |- _ =>
          let F := fresh "Hb" in
          pose proof (ledger_stage_keeps rq s0 w0 Hv) as F;
          fold h in F; rewrite H in F; cbn [world] in F; clear H
      | H : run _ (submitToBackend _ ?tx) ?s0 ?w0 = _ |- _ =>
          let F := fresh "Hk" in
          pose proof (backend_stage_keeps_the_calls node app rq tx s0 w0) as F;
          fold h in F; rewrite H in F; cbn [world] in F; clear H
      end; try done.
  - by rewrite Hk.
  - subst confirmedAt. rewrite app_call_keeps_the_calls by done. by rewrite Hk.
Qed.

Lemma occur_keeps e s w :
  votes_registered (answered w) ->
  votes_registered (answered (world (run (linked (recording node) app) (occur e) s w))).
Proof.
  intros Hw. destruct e as [[rq|id|n]|maxAge]; cbn [occur perform].
  - destruct (absorbed (linked (recording node) app) (submitVote rq) s w) as (_ & _ & -> & _).
    by apply submitVote_keeps.
  - done.
  - unfold timer_fires. cbn. destruct (timers s !! n) as [t|]; cbn; [|done].
    unfold retrySubmission. cbn.
    destruct (submissionQueue s !! retries t) as [rq|]; cbn; [|done].
    destruct (absorbed (linked (recording node) app) (submitVote rq)
                (with_timers (delete n) s) w) as (_ & _ & -> & _).
    by apply submitVote_keeps.
  - rewrite run_clearOldSubmissions. cbn zeta. cbn [world].
    by rewrite app_call_keeps_the_calls.
Qed.

Lemma history_keeps_votes_registered es s w :
  votes_registered (answered w) ->
  votes_registered (answered (world (run (linked (recording node) app) (history es) s w))).
Proof.
  revert s w. induction es as [|e es IH]; intros s w Hw; [done|].
  cbn [history]. rewrite run_mbind.
  pose proof (occur_returns (linked (recording node) app) e s w) as Ho.
  pose proof (occur_keeps e s w Hw) as Hw'.
  destruct (run (linked (recording node) app) (occur e) s w) as [o sf wf tf].
  cbn in Ho, Hw'. subst o. cbn. by apply IH.
Qed.
End Sequential.

(** X22.  When calls run one at a time (each [submitVote] call, retry,
    cancellation or clearing runs to its end before the next one starts),
    from any state of the two services and against any node and backend,
    every [vote] transaction sent to the node is signed by a wallet that is
    registered as far as the client can tell: earlier, the [voters] mapping
    of the same contract answered [true] for that wallet's address, or a
    [registerVoter] transaction for that address, signed by that same
    wallet, was sent to the contract and mined. *)
Theorem vote_is_signed_by_the_registered_wallet_when_calls_do_not_overlap
    (Wn Wa : Type) (node : handler eth Wn) (app : handler ev Wa)
    (es : list event) (s : service) (c : chain) (wn : Wn) (wa : Wa)
    (pre post : list (obs eth)) (signer : Wallet) (contractAddress : string)
    (candidateId : number) (gasLimit : Z) (answer : thrown + string) :
  answered (world (run (linked (recording node) app) (history es) s (c, (wn, []), wa)))
  = (pre ++ Obs (SendVote signer contractAddress candidateId gasLimit) answer :: post)%list ->
  registered_before signer contractAddress pre.
Proof.
  intros Hsent.
  by eapply (history_keeps_votes_registered node app es s (c, (wn, []), wa)
               votes_registered_nil).
Qed.

Lemma vote_is_signed_by_the_registered_wallet_witness :
  let calls := answered (world (run (linked (recording fresh_node) keyed_backend)
                                  (history [does (submits ballot_of_alice)])
                                  new_service (connected_chain, (tt, []), 0%nat))) in
  omap ledger_call_of calls
  = [asks_voters "0xkey-alice" (inr false); asks_voters "0xkey-alice" (inr false);
     signs_registration "0xkey-alice" "0xkey-alice"; signs_vote "0xkey-alice" (integer 2)]
  /\ registered_before {| wallet_address := "0xkey-alice" |} "0xE1ec" (firstn 6 calls).
Proof.
  split; [vm_compute; reflexivity|].
  apply (vote_is_signed_by_the_registered_wallet_when_calls_do_not_overlap
           unit nat fresh_node keyed_backend [does (submits ballot_of_alice)]
           new_service connected_chain tt 0%nat
           (firstn 6 (answered (world (run (linked (recording fresh_node) keyed_backend)
                                         (history [does (submits ballot_of_alice)])
                                         new_service (connected_chain, (tt, []), 0%nat)))))
           [Obs (Wait "0xfeed")
              (inr {| receipt_hash := "0xfeed"; receipt_blockNumber := 42;
                      receipt_gasUsed := 21000 |})]
           {| wallet_address := "0xkey-alice" |} "0xE1ec" (integer 2) 150000 (inr "0xfeed")).
  vm_compute. reflexivity.
Defined.
